(** * claudiv-ai/cli: the transactional updater, the system scaffolder and
      the watch loop, embedded and verified

    The development follows the TypeScript sources:
    - [src/updater.ts]         -> [Module Updater]
    - [src/system-manager.ts]  -> [Module SystemManager]
    - the CLI engine ([main], [processFileChange], [processChange], ...)
                               -> [Module Engine]

    The asynchronous functions are embedded in a state-and-exception monad
    over an explicit model of the file system.  An [await] that rejects is an
    exception; the state reached when the exception was raised is kept, as in
    JavaScript. *)

From stdpp Require Import gmap strings list fin_maps pretty.

Set Default Proof Using "Type".

(** ** Exceptions and the state monad *)

(** A JavaScript [Error], identified by its message. *)
Definition Error := string.

Inductive result (A : Type) : Type :=
  | Ok (a : A)
  | Err (e : Error).
Arguments Ok {A} a.
Arguments Err {A} e.

Definition M (S A : Type) : Type := S → result A * S.

Definition ret {S A} (a : A) : M S A := λ s, (Ok a, s).

Definition bind {S A B} (m : M S A) (k : A → M S B) : M S B :=
  λ s, match m s with
       | (Ok a, s') => k a s'
       | (Err e, s') => (Err e, s')
       end.

Definition throw {S A} (e : Error) : M S A := λ s, (Err e, s).

(** [try { body } catch (e) { handler e }]: the handler starts from the state
    in which the exception was raised. *)
Definition try_catch {S A} (body : M S A) (handler : Error → M S A) : M S A :=
  λ s, match body s with
       | (Ok a, s') => (Ok a, s')
       | (Err e, s') => handler e s'
       end.

Definition gets {S A} (f : S → A) : M S A := λ s, (Ok (f s), s).
Definition modify {S} (f : S → S) : M S unit := λ s, (Ok tt, f s).

(** Run a computation on a component of the state. *)
Definition zoom {S T A} (get : S → T) (set : T → S → S) (m : M T A) : M S A :=
  λ s, match m (get s) with (r, t) => (r, set t s) end.

(** stdpp's monad notations: [x ← m; k] and [m ;; k]. *)
Global Instance M_ret {S} : MRet (M S) := λ A, ret.
Global Instance M_bind {S} : MBind (M S) := λ A B k m, bind m k.

(** [for (const x of xs) { body x }] *)
Fixpoint for_of {S A} (xs : list A) (body : A → M S unit) : M S unit :=
  match xs with
  | [] => ret tt
  | x :: rest => body x ;; for_of rest body
  end.

(** The characters that a Rocq string cannot hold as they are. *)
Definition nl : string := String (Ascii.ascii_of_nat 10) EmptyString.
Definition dq : string := String (Ascii.ascii_of_nat 34) EmptyString.

(** ** The file system

    A path names a regular file with its content, or a directory.  Every call
    that can reject takes the next entry of a fault schedule: [Some e] makes
    the call reject with [e] and leave the files as they are (permissions, a
    missing parent directory, a full disk, ...); [None], or an exhausted
    schedule, lets the call proceed.  Independently of the schedule a call
    rejects when the node at its path has the wrong kind.  The mutating calls
    are recorded, in order, whether they succeed or not.  The world also
    holds the lines written through [utils/logger]. *)
Module Fs.

Inductive Node : Type :=
  | File (data : string)
  | Dir.

Inductive Event : Type :=
  | EvWrite (p data : string)
  | EvUnlink (p : string)
  | EvMkdir (p : string)
  | EvSubmodule (name : string).

Inductive Level : Type := Debug | Info | Error.

Record World : Type := mkWorld {
  files : gmap string Node;
  faults : list (option string);
  trace : list Event;
  log : list (Level * string);
}.

Definition with_files (f : gmap string Node) (w : World) : World :=
  mkWorld f (faults w) (trace w) (log w).
Definition with_faults (fl : list (option string)) (w : World) : World :=
  mkWorld (files w) fl (trace w) (log w).
Definition record (ev : Event) (w : World) : World :=
  mkWorld (files w) (faults w) (trace w ++ [ev]) (log w).

(** [logger.debug], [logger.info], [logger.error] *)
Definition logger (lvl : Level) (line : string) : M World unit :=
  modify (λ w, mkWorld (files w) (faults w) (trace w) (log w ++ [(lvl, line)])).

(** Take the next entry of the fault schedule. *)
Definition fault : M World unit :=
  λ w, match head (faults w) with
       | Some (Some e) => (Err e, with_faults (tail (faults w)) w)
       | _ => (Ok tt, with_faults (tail (faults w)) w)
       end.

(** [fs.existsSync]: never throws. *)
Definition existsSync (p : string) : M World bool :=
  gets (λ w, bool_decide (is_Some (files w !! p))).

(** [fs/promises.readFile(p, 'utf-8')] *)
Definition readFile (p : string) : M World string :=
  fault ;;
  node ← gets (λ w, files w !! p);
  match node with
  | Some (File data) => ret data
  | Some Dir => throw "EISDIR: illegal operation on a directory, read"
  | None => throw "ENOENT: no such file or directory, open"
  end.

(** [fs/promises.writeFile(p, data, 'utf-8')] *)
Definition writeFile (p data : string) : M World unit :=
  modify (record (EvWrite p data)) ;;
  fault ;;
  node ← gets (λ w, files w !! p);
  match node with
  | Some Dir => throw "EISDIR: illegal operation on a directory, open"
  | _ => modify (λ w, with_files (<[p := File data]> (files w)) w)
  end.

(** [fs/promises.unlink(p)] *)
Definition unlink (p : string) : M World unit :=
  modify (record (EvUnlink p)) ;;
  fault ;;
  node ← gets (λ w, files w !! p);
  match node with
  | Some (File _) => modify (λ w, with_files (delete p (files w)) w)
  | Some Dir => throw "EPERM: operation not permitted, unlink"
  | None => throw "ENOENT: no such file or directory, unlink"
  end.

(** [fs/promises.mkdir(p, { recursive: true })] *)
Definition mkdir (p : string) : M World unit :=
  modify (record (EvMkdir p)) ;;
  fault ;;
  node ← gets (λ w, files w !! p);
  match node with
  | Some (File _) => throw "EEXIST: file already exists, mkdir"
  | Some Dir => ret tt
  | None => modify (λ w, with_files (<[p := Dir]> (files w)) w)
  end.

(** [path.join(a, b)] for a directory [a] and a plain name [b]. *)
Definition join (a b : string) : string := a +:+ "/" +:+ b.

End Fs.

(** ** The types of [@claudiv/core] used by the CLI *)
Module Core.

(** Modelled from the spec: [ContextRef], declared in [@claudiv/core]: one
    artifact, by file path, with the metadata used to read it back. *)
Record ContextRef : Type := mkRef {
  file : string;
  meta : string;
}.

(** Modelled from the spec: [ContextFact], declared in [@claudiv/core]: a
    text and a source tag. *)
Record ContextFact : Type := mkFact {
  text : string;
  source : string;
}.

(** Modelled from the spec: a scope, declared in [@claudiv/core]: a path, an
    ordered collection of refs and an ordered collection of facts.  The
    global scope has the same shape; the CLI never reads its path. *)
Record Scope : Type := mkScope {
  path : string;
  refs : list ContextRef;
  facts : list ContextFact;
}.

(** Modelled from the spec: [ContextManifest], declared in
    [@claudiv/core]. *)
Record ContextManifest : Type := mkManifest {
  forFile : string;
  global : Scope;
  scopes : list Scope;
}.

(** [serializeContextManifest] of [@claudiv/core], taken as given. *)
Class Serializer : Type :=
  serializeContextManifest : ContextManifest → string.

End Core.

(** ** [src/updater.ts] *)
Module Updater.

Inductive OpType : Type := OpWrite | OpDelete.

(** [interface TransactionOp] *)
Record TransactionOp : Type := mkOp {
  type : OpType;
  file : string;
  content : option string;
  previousContent : option string;
}.

(** The elements of [ops] and of [completed] are references to op objects:
    [op.previousContent = ...] updates the object, and the rollback reads
    the field back through the reference pushed on [completed]. *)
Abbreviation Loc := nat (only parsing).

(** What a call works on: the local [completed], the op objects, the
    [contextManifest] object of the caller, and the world. *)
Record TxState : Type := mkTx {
  completed : list Loc;
  heap : list TransactionOp;
  manifest : Core.ContextManifest;
  world : Fs.World;
}.

Definition with_completed (c : list Loc) (s : TxState) : TxState :=
  mkTx c (heap s) (manifest s) (world s).
Definition with_heap (h : list TransactionOp) (s : TxState) : TxState :=
  mkTx (completed s) h (manifest s) (world s).
Definition with_manifest (m : Core.ContextManifest) (s : TxState) : TxState :=
  mkTx (completed s) (heap s) m (world s).
Definition with_world (w : Fs.World) (s : TxState) : TxState :=
  mkTx (completed s) (heap s) (manifest s) w.

Definition fs {A} (m : M Fs.World A) : M TxState A := zoom world with_world m.

Definition existsSync (p : string) : M TxState bool := fs (Fs.existsSync p).
Definition readFile (p : string) : M TxState string := fs (Fs.readFile p).
Definition writeFile (p data : string) : M TxState unit := fs (Fs.writeFile p data).
Definition unlink (p : string) : M TxState unit := fs (Fs.unlink p).
Definition logger (lvl : Fs.Level) (line : string) : M TxState unit :=
  fs (Fs.logger lvl line).

(** Reading a property of [op]; a hole in the array is [undefined]. *)
Definition deref (l : Loc) : M TxState TransactionOp :=
  λ s, match heap s !! l with
       | Some op => (Ok op, s)
       | None => (Err "TypeError: Cannot read properties of undefined", s)
       end.

(** [op.previousContent = v] *)
Definition set_previousContent (l : Loc) (v : string) : M TxState unit :=
  modify (λ s, with_heap
    (alter (λ op, mkOp (type op) (file op) (content op) (Some v)) l (heap s)) s).

(** [completed.push(op)] *)
Definition push (l : Loc) : M TxState unit :=
  modify (λ s, with_completed (completed s ++ [l]) s).

(** Step 1, the body of [for (const op of ops)]. *)
Definition applyOp (l : Loc) : M TxState unit :=
  op ← deref l;
  match type op, content op with
  | OpWrite, Some data =>
      ex ← existsSync (file op);
      (if ex : bool
       then prev ← readFile (file op); set_previousContent l prev
       else ret tt) ;;
      writeFile (file op) data ;;
      push l ;;
      logger Fs.Debug ("Wrote: " +:+ file op)
  | OpDelete, _ =>
      ex ← existsSync (file op);
      if ex : bool
      then prev ← readFile (file op);
           set_previousContent l prev ;;
           unlink (file op) ;;
           push l ;;
           logger Fs.Debug ("Deleted: " +:+ file op)
      else ret tt
  | OpWrite, None => ret tt
  end.

(** Step 2, the body of [for (const ref of newRefs)] on [scope.refs]. *)
Definition putRef (refs : list Core.ContextRef) (ref : Core.ContextRef)
    : list Core.ContextRef :=
  match list_find (λ r, Core.file r = Core.file ref) refs with
  | Some (existing, _) => <[existing := ref]> refs
  | None => refs ++ [ref]
  end.

Definition putRefs (newRefs : list Core.ContextRef) (s : Core.Scope) : Core.Scope :=
  Core.mkScope (Core.path s) (fold_left putRef newRefs (Core.refs s)) (Core.facts s).

(** [targetScope.facts.push(...newFacts)] *)
Definition pushFacts (newFacts : list Core.ContextFact) (s : Core.Scope) : Core.Scope :=
  Core.mkScope (Core.path s) (Core.refs s) (Core.facts s ++ newFacts).

(** Steps 2 and 3 on the manifest object.  [scope] is looked up once, by
    [contextManifest.scopes.find]; with no such scope the refs loop is
    skipped and [targetScope] is [contextManifest.global].  A scope has
    [facts] by its type, so ['facts' in targetScope] holds. *)
Definition updateManifest (newRefs : list Core.ContextRef)
    (newFacts : list Core.ContextFact) (scopePath : string)
    (m : Core.ContextManifest) : Core.ContextManifest :=
  let scope := list_find (λ s, Core.path s = scopePath) (Core.scopes m) in
  let m2 :=
    match scope with
    | Some (i, _) =>
        Core.mkManifest (Core.forFile m) (Core.global m)
          (alter (putRefs newRefs) i (Core.scopes m))
    | None => m
    end in
  if bool_decide (0 < length newFacts) then
    match scope with
    | Some (i, _) =>
        Core.mkManifest (Core.forFile m2) (Core.global m2)
          (alter (pushFacts newFacts) i (Core.scopes m2))
    | None =>
        Core.mkManifest (Core.forFile m2) (pushFacts newFacts (Core.global m2))
          (Core.scopes m2)
    end
  else m2.

(** The body of the [try] of the rollback loop. *)
Definition rollbackOp (l : Loc) : M TxState unit :=
  op ← deref l;
  match type op, previousContent op with
  | OpWrite, Some prev => writeFile (file op) prev
  | OpWrite, None =>
      ex ← existsSync (file op);
      if ex : bool then unlink (file op) else ret tt
  | OpDelete, Some prev => writeFile (file op) prev
  | OpDelete, None => ret tt
  end.

(** [for (const op of completed.reverse()) { try { ... } catch { ... } }] *)
Definition rollback (ls : list Loc) : M TxState unit :=
  for_of ls (λ l,
    try_catch (rollbackOp l)
      (λ rollbackError,
         op ← deref l;
         logger Fs.Error ("Rollback failed for " +:+ file op +:+ ": " +:+ rollbackError))).

Section WithSerializer.
Context `{!Core.Serializer}.

(** The [try] block: steps 1 to 4. *)
Definition tryBlock (ops : list Loc) (contextPath : string)
    (newRefs : list Core.ContextRef) (newFacts : list Core.ContextFact)
    (scopePath : string) : M TxState unit :=
  for_of ops applyOp ;;
  modify (λ s, with_manifest (updateManifest newRefs newFacts scopePath (manifest s)) s) ;;
  m ← gets manifest;
  writeFile contextPath (Core.serializeContextManifest m).

(** The [catch (error)] block. *)
Definition catchBlock (error : Error) : M TxState unit :=
  c ← gets completed;
  logger Fs.Error
    ("Transaction failed, rolling back " +:+ pretty (length c) +:+ " operation(s)") ;;
  modify (λ s, with_completed (rev c) s) ;;
  rollback (rev c) ;;
  throw error.

(** [executeTransaction(ops, contextManifest, contextPath, newRefs,
    newFacts, scopePath)]; [contextManifest] is the manifest object of
    the state. *)
Definition executeTransaction (ops : list Loc) (contextPath : string)
    (newRefs : list Core.ContextRef) (newFacts : list Core.ContextFact)
    (scopePath : string) : M TxState unit :=
  modify (with_completed []) ;;
  try_catch (tryBlock ops contextPath newRefs newFacts scopePath) catchBlock.

End WithSerializer.

End Updater.

(** ** [src/system-manager.ts] *)
Module SystemManager.

(** [SystemComponent] and [SystemProject] are declared in [@claudiv/core];
    the fields are those this file reads and writes. *)
Module Component.
Record SystemComponent : Type := mk {
  name : string;
  type : string;
  submodule : bool;
  description : option string;
}.
End Component.

Module Project.
Record SystemProject : Type := mk {
  name : string;
  components : list Component.SystemComponent;
  manifestPath : string;
}.
End Project.

Import Component(SystemComponent) Project(SystemProject).

(** The local [created] and the world. *)
Record ScaffoldState : Type := mkScaffold {
  created : list string;
  world : Fs.World;
}.

Definition with_world (w : Fs.World) (s : ScaffoldState) : ScaffoldState :=
  mkScaffold (created s) w.

Definition fs {A} (m : M Fs.World A) : M ScaffoldState A := zoom world with_world m.

Definition existsSync (p : string) : M ScaffoldState bool := fs (Fs.existsSync p).
Definition writeFile (p data : string) : M ScaffoldState unit := fs (Fs.writeFile p data).
Definition mkdir (p : string) : M ScaffoldState unit := fs (Fs.mkdir p).

(** [execSync(`git submodule add --name ${name} . ${name}`, { cwd })].  When
    git succeeds the directory of the submodule is in place; what else git
    writes is not modelled. *)
Definition gitSubmoduleAdd (cwd name : string) : M ScaffoldState unit :=
  fs (modify (Fs.record (Fs.EvSubmodule name)) ;;
      Fs.fault ;;
      node ← gets (λ w, Fs.files w !! Fs.join cwd name);
      match node with
      | Some _ => throw "fatal: already exists and is not a valid git repo"
      | None => modify (λ w, Fs.with_files (<[Fs.join cwd name := Fs.Dir]> (Fs.files w)) w)
      end).

(** [created.push(entry)] *)
Definition push (entry : string) : M ScaffoldState unit :=
  modify (λ s, mkScaffold (created s ++ [entry]) (world s)).

(** A string is truthy when it is not empty. *)
Definition truthy (o : option string) : option string :=
  match o with
  | Some (String c rest) => Some (String c rest)
  | _ => None
  end.

Definition generateComponentSkeleton (component : SystemComponent)
    (systemName : string) : string :=
  let fqn := systemName +:+ ":" +:+ Component.name component in
  let desc :=
    match truthy (Component.description component) with
    | Some d => nl +:+ "    <!-- " +:+ d +:+ " -->"
    | None => EmptyString
    end in
  "<component name=" +:+ dq +:+ Component.name component +:+ dq +:+
    " fqn=" +:+ dq +:+ fqn +:+ dq +:+ ">" +:+ nl +:+
  nl +:+
  "  <interface>" +:+ desc +:+ nl +:+
  "    <!-- Define what this component exposes -->" +:+ nl +:+
  "  </interface>" +:+ nl +:+
  nl +:+
  "  <constraints>" +:+ nl +:+
  "    <!-- Define environment requirements -->" +:+ nl +:+
  "  </constraints>" +:+ nl +:+
  nl +:+
  "  <requires>" +:+ nl +:+
  "    <!-- Define dependencies by interface -->" +:+ nl +:+
  "  </requires>" +:+ nl +:+
  nl +:+
  "  <implementation target=" +:+ dq +:+ "typescript" +:+ dq +:+
    " type=" +:+ dq +:+ Component.type component +:+ dq +:+ ">" +:+ nl +:+
  "    <modules>" +:+ nl +:+
  "      <!-- Define internal modules -->" +:+ nl +:+
  "    </modules>" +:+ nl +:+
  "  </implementation>" +:+ nl +:+
  nl +:+
  "</component>" +:+ nl.

Definition generateComponentContext (component : SystemComponent)
    (systemName : string) : string :=
  "<claudiv-context for=" +:+ dq +:+ Component.name component +:+ ".cdml" +:+ dq +:+
    " auto-generated=" +:+ dq +:+ "true" +:+ dq +:+ ">" +:+ nl +:+
  "  <global>" +:+ nl +:+
  "    <refs></refs>" +:+ nl +:+
  "    <facts>" +:+ nl +:+
  "      <fact>Part of system: " +:+ systemName +:+ "</fact>" +:+ nl +:+
  "      <fact>Component type: " +:+ Component.type component +:+ "</fact>" +:+ nl +:+
  "    </facts>" +:+ nl +:+
  "  </global>" +:+ nl +:+
  "</claudiv-context>" +:+ nl.

(** [xs.join(sep)] *)
Fixpoint join_with (sep : string) (xs : list string) : string :=
  match xs with
  | [] => EmptyString
  | [x] => x
  | x :: rest => x +:+ sep +:+ join_with sep rest
  end.

(** The content that [updateProjectManifest] writes. *)
Definition projectManifestContent (system : SystemProject) : string :=
  let directories :=
    join_with nl
      ((λ c, "    <directory path=" +:+ dq +:+ Component.name c +:+ "/" +:+ dq +:+
             " pattern=" +:+ dq +:+ "*.cdml" +:+ dq +:+ " />")
         <$> Project.components system) in
  "<project name=" +:+ dq +:+ Project.name system +:+ dq +:+ ">" +:+ nl +:+
  "  <auto-discover>" +:+ nl +:+
  "    <directory path=" +:+ dq +:+ "." +:+ dq +:+
    " pattern=" +:+ dq +:+ "*.cdml" +:+ dq +:+ " />" +:+ nl +:+
  directories +:+ nl +:+
  "    <directory path=" +:+ dq +:+ "aspects/" +:+ dq +:+
    " pattern=" +:+ dq +:+ "*.*.cdml" +:+ dq +:+ " />" +:+ nl +:+
  "  </auto-discover>" +:+ nl +:+
  "</project>" +:+ nl.

Definition updateProjectManifest (system : SystemProject) (projectRoot : string)
    : M ScaffoldState unit :=
  let manifestPath := Fs.join projectRoot "claudiv.project.cdml" in
  writeFile manifestPath (projectManifestContent system).

(** The body of [for (const component of system.components)]. *)
Definition createComponent (system : SystemProject) (projectRoot : string)
    (component : SystemComponent) : M ScaffoldState unit :=
  let name := Component.name component in
  let componentDir := Fs.join projectRoot name in
  (* 1. directory or submodule *)
  (if Component.submodule component then
     ex ← existsSync componentDir;
     if ex : bool then ret tt
     else try_catch (gitSubmoduleAdd projectRoot name)
            (λ _, ex' ← existsSync componentDir;
                  if ex' : bool then ret tt else mkdir componentDir)
   else
     ex ← existsSync componentDir;
     if ex : bool then ret tt else mkdir componentDir) ;;
  (* 2. skeleton *)
  let cdmlPath := Fs.join componentDir (name +:+ ".cdml") in
  (ex ← existsSync cdmlPath;
   if ex : bool then ret tt
   else writeFile cdmlPath (generateComponentSkeleton component (Project.name system)) ;;
        push (name +:+ "/" +:+ name +:+ ".cdml")) ;;
  (* 3. .claudiv directory and context *)
  let claudivDir := Fs.join componentDir ".claudiv" in
  (ex ← existsSync claudivDir;
   if ex : bool then ret tt else mkdir claudivDir) ;;
  let contextPath := Fs.join claudivDir "context.cdml" in
  (ex ← existsSync contextPath;
   if ex : bool then ret tt
   else writeFile contextPath (generateComponentContext component (Project.name system)) ;;
        push (name +:+ "/.claudiv/context.cdml")).

(** [createSystemComponents(system, projectRoot)]; the result is
    [created]. *)
Definition createSystemComponents (system : SystemProject) (projectRoot : string)
    : M ScaffoldState (list string) :=
  modify (λ s, mkScaffold [] (world s)) ;;
  for_of (Project.components system) (createComponent system projectRoot) ;;
  updateProjectManifest system projectRoot ;;
  push "claudiv.project.cdml (updated)" ;;
  gets created.

(** *** [parseSystemCdml]

    The document is parsed by [htmlparser2] and queried through [cheerio];
    what these return is taken as given.  A child of the selection comes
    with its [type], its [name], its [attribs] and the text that
    [$(el).text()] gives. *)
Record ChildNode : Type := mkChild {
  nodeType : string;
  tagName : string;
  attribs : option (gmap string string);
  textContent : string;
}.

Class Markup : Type := {
  (** a [cheerio] selection *)
  Selection : Type;
  (** [cheerio.load(parseDocument(content, ...), ...)(selector)] *)
  select : string → string → result Selection;
  (** [selection.length] *)
  sel_length : Selection → nat;
  (** [selection.attr(name)] *)
  sel_attr : Selection → string → option string;
  (** [selection.children()], in document order *)
  sel_children : Selection → list ChildNode;
  (** [String.prototype.trim] *)
  trim : string → string;
}.

(** [el.attribs?.[key]] *)
Definition attrib (child : ChildNode) (key : string) : option string :=
  attribs child ≫= (λ a, a !! key).

(** The component pushed for one child of the [<system>] element; a child
    that is not a tag is skipped. *)
Definition componentOf `{!Markup} (child : ChildNode) : option SystemComponent :=
  if String.eqb (nodeType child) "tag" then
    Some (Component.mk
            (tagName child)
            (default "service" (truthy (attrib child "type")))
            (bool_decide (attrib child "submodule" = Some "true"))
            (truthy (Some (trim (textContent child)))))
  else None.

Definition parseSystemCdml `{!Markup} (content : string) : result SystemProject :=
  match select content "system" with
  | Err e => Err e
  | Ok systemEl =>
      if Nat.eqb (sel_length systemEl) 0 then Err "No <system> element found"
      else
        let name := default "unnamed-system" (truthy (sel_attr systemEl "name")) in
        let components := omap componentOf (sel_children systemEl) in
        Ok (Project.mk name components EmptyString)
  end.

End SystemManager.

(** ** [path] of Node *)
Module NodePath.

(** [isAbsolute], [join], [dirname] and [basename], taken as given. *)
Class Path : Type := {
  isAbsolute : string → bool;
  join : string → string → string;
  dirname : string → string;
  basename : string → string;
}.

End NodePath.

(** ** [src/config.ts] *)
Module Config.
Import NodePath.

(** A JavaScript value as [loadConfig] looks at it: [undefined], a string,
    or a value of another kind ([null], a number, a boolean, an object),
    of which only the truthiness is read. *)
Inductive JsValue : Type :=
  | JsUndefined
  | JsString (s : string)
  | JsOther (isTruthy : bool).

Definition truthy (v : JsValue) : bool :=
  match v with
  | JsUndefined => false
  | JsString EmptyString => false
  | JsString _ => true
  | JsOther b => b
  end.

(** [v === text] *)
Definition strictEquals (v : JsValue) (text : string) : bool :=
  match v with
  | JsString s => String.eqb s text
  | _ => false
  end.

(** What [JSON.parse] returns: [null], an object with its own properties,
    or a value of another kind (a number, a string, a boolean, an
    array). *)
Inductive JsonDocument : Type :=
  | JsonNull
  | JsonObject (fields : gmap string JsValue)
  | JsonOther.

(** [projectConfig[key]] for the keys [mode] and [apiKey]: reading a
    property of [null] throws, a property that is not there is
    [undefined]. *)
Definition property (projectConfig : JsonDocument) (key : string) : result JsValue :=
  match projectConfig with
  | JsonNull => Err "TypeError: Cannot read properties of null"
  | JsonObject fields => Ok (default JsUndefined (fields !! key))
  | JsonOther => Ok JsUndefined
  end.

(** [interface ClaudivConfig]; [mode] and [apiKey] hold what the
    expressions evaluate to, the casts of the source checking nothing. *)
Record ClaudivConfig : Type := mkConfig {
  mode : JsValue;
  apiKey : JsValue;
  specFile : string;
  debounceMs : N;
  claudeTimeout : N;
}.

(** The process: [process.argv[2]], [process.cwd()], [process.env], and
    what [readdirSync(process.cwd())] gives. *)
Record Process : Type := mkProcess {
  argv2 : option string;
  cwd : string;
  env : gmap string string;
  readdirSync : result (list string);
}.

(** [process.env[name]] *)
Definition getenv (proc : Process) (name : string) : JsValue :=
  match env proc !! name with
  | Some v => JsString v
  | None => JsUndefined
  end.

(** A call either returns or ends the process through [process.exit]. *)
Inductive Exit (A : Type) : Type :=
  | Return (a : A)
  | ProcessExit (code : nat).
Arguments Return {A} a.
Arguments ProcessExit {A} code.

(** [s.endsWith(suffix)] *)
Definition endsWith (s suffix : string) : bool :=
  let n := String.length s in
  let k := String.length suffix in
  (k <=? n) && String.eqb (String.substring (n - k) k s) suffix.

(** [f => f.endsWith('.cdml') && f !== 'claudiv.project.cdml'] *)
Definition isSpecFileName (f : string) : bool :=
  endsWith f ".cdml" && negb (String.eqb f "claudiv.project.cdml").

(** A library function that can throw. *)
Definition call {A} (r : result A) : M Fs.World A := λ w, (r, w).

Section WithProcess.
Context `{!Path}.
(** [JSON.parse], taken as given. *)
Variable JSON_parse : string → result JsonDocument.
Variable proc : Process.

(** The first part of [loadConfig]: the spec file. *)
Definition determineSpecFile : M Fs.World (Exit string) :=
  match argv2 proc with
  | Some (String c rest) =>
      let cliFile := String c rest in
      let specFile :=
        if isAbsolute cliFile then cliFile else join (cwd proc) cliFile in
      ex ← Fs.existsSync specFile;
      if ex : bool then ret (Return specFile)
      else
        Fs.logger Fs.Error ("File not found: " +:+ specFile) ;;
        ret (ProcessExit 1)
  | _ =>
      files ← call (readdirSync proc);
      let cdmlFiles := filter (λ f, isSpecFileName f = true) files in
      match cdmlFiles with
      | [] =>
          Fs.logger Fs.Error "No .cdml files found" ;;
          ret (ProcessExit 1)
      | first :: _ => ret (Return (join (cwd proc) first))
      end
  end.

(** The second part: [.claudiv/config.json], with read and parse errors
    ignored. *)
Definition loadProjectConfig (specFile : string) : M Fs.World JsonDocument :=
  let projectRoot := dirname specFile in
  let configPath := join (join projectRoot ".claudiv") "config.json" in
  ex ← Fs.existsSync configPath;
  if ex : bool then
    try_catch
      (text ← Fs.readFile configPath; call (JSON_parse text))
      (λ _, ret (JsonObject ∅))
  else ret (JsonObject ∅).

(** [process.env.CLAUDIV_MODE || projectConfig.mode || process.env.MODE
    || 'cli'] *)
Definition determineMode (projectConfig : JsonDocument) : M Fs.World JsValue :=
  if truthy (getenv proc "CLAUDIV_MODE") then ret (getenv proc "CLAUDIV_MODE")
  else
    configured ← call (property projectConfig "mode");
    if truthy configured then ret configured
    else if truthy (getenv proc "MODE") then ret (getenv proc "MODE")
    else ret (JsString "cli").

(** [loadConfig()] *)
Definition loadConfig : M Fs.World (Exit ClaudivConfig) :=
  spec ← determineSpecFile;
  match spec with
  | ProcessExit code => ret (ProcessExit code)
  | Return specFile =>
      projectConfig ← loadProjectConfig specFile;
      mode ← determineMode projectConfig;
      configuredKey ← call (property projectConfig "apiKey");
      let apiKey :=
        if truthy configuredKey then configuredKey
        else getenv proc "ANTHROPIC_API_KEY" in
      if strictEquals mode "api" && negb (truthy apiKey) then
        Fs.logger Fs.Error "API key required for API mode" ;;
        Fs.logger Fs.Info "Set ANTHROPIC_API_KEY or run: claudiv mode" ;;
        ret (ProcessExit 1)
      else ret (Return (mkConfig mode apiKey specFile 300%N 120000%N))
  end.

End WithProcess.

End Config.

(** ** The CLI engine: [main], [processFileChange], [processChange],
       [handlePlanDirectives], [handlePlanAnswers] *)
Module Engine.

(** *** What the engine imports from [@claudiv/core]

    The records have the fields the engine reads. *)

Record CdmlElementChange : Type := mkChange {
  tagName : string;
  path : string;
  type : string;
}.

Record DiffSummary : Type := mkSummary { added : nat; removed : nat; modified : nat }.

Record ExecResult : Type := mkExec {
  success : bool;
  response : string;
  error : string;
  durationMs : nat;
}.

Record PlanDirective : Type := mkDirective {
  scope : string;
  instruction : string;
  existingChildren : list string;
}.

(** The functions of [@claudiv/core], taken as given.  A function that can
    throw returns a [result]. *)
Class CoreLib : Type := {
  Dom : Type;
  CdmlDiffResult : Type;
  PlanQuestion : Type;
  AssembledContext : Type;
  ProjectRegistry : Type;
  diffCdml : string → string → result CdmlDiffResult;
  hasChanges : CdmlDiffResult → bool;
  summary : CdmlDiffResult → DiffSummary;
  getChangedElements : CdmlDiffResult → list CdmlElementChange;
  (** [parseSpecFile(content)]: [dom], [hasPlanDirectives],
      [hasPlanQuestions] *)
  parseSpecFile : string → result (Dom * bool * bool);
  detectPlanDirectives : Dom → list PlanDirective;
  buildPlanPrompt : PlanDirective → string;
  parsePlanQuestions : Dom → list PlanQuestion;
  allQuestionsAnswered : list PlanQuestion → bool;
  questionsToFacts : list PlanQuestion → string → list Core.ContextFact;
  (** [$('plan\\:questions').remove(); $.html()] *)
  htmlWithoutPlanQuestions : Dom → string;
  (** [assembleContext(change, scopePath, manifest, registry, projectRoot)]
      reads the files of the project. *)
  assembleContext : CdmlElementChange → string → Core.ContextManifest →
    option ProjectRegistry → string → gmap string Fs.Node → result AssembledContext;
  prompt : AssembledContext → string;
  serializer :: Core.Serializer;
}.

(** *** The state of the process *)

(** [cache] is the module-level [Map]; [contextManifest] is the manifest
    object loaded by [main], or [null]; [claude] lists what the coming
    calls of [executeClaudeHeadless] settle to, a call beyond the list
    timing out; [today] is the day [new Date()] gives; [stdout] is what was
    written to [process.stdout]. *)
Record EngineState : Type := mkEngine {
  cache : gmap string string;
  contextManifest : option Core.ContextManifest;
  claude : list (result ExecResult);
  today : string;
  stdout : list string;
  world : Fs.World;
}.

Definition with_cache (c : gmap string string) (s : EngineState) : EngineState :=
  mkEngine c (contextManifest s) (claude s) (today s) (stdout s) (world s).
Definition with_contextManifest (m : option Core.ContextManifest) (s : EngineState)
    : EngineState :=
  mkEngine (cache s) m (claude s) (today s) (stdout s) (world s).
Definition with_world (w : Fs.World) (s : EngineState) : EngineState :=
  mkEngine (cache s) (contextManifest s) (claude s) (today s) (stdout s) w.

Definition fs {A} (m : M Fs.World A) : M EngineState A := zoom world with_world m.

Definition readFile (p : string) : M EngineState string := fs (Fs.readFile p).
Definition writeFile (p data : string) : M EngineState unit := fs (Fs.writeFile p data).
Definition logger (lvl : Fs.Level) (line : string) : M EngineState unit :=
  fs (Fs.logger lvl line).

(** [process.stdout.write(text)], [console.log(text)] *)
Definition stdout_write (text : string) : M EngineState unit :=
  modify (λ s, mkEngine (cache s) (contextManifest s) (claude s) (today s)
                 (stdout s ++ [text]) (world s)).

(** [await executeClaudeHeadless(assembled, options)]; the options ([mode],
    [apiKey], [timeoutMs]) select how the call is made and do not appear. *)
Definition executeClaudeHeadless : M EngineState ExecResult :=
  λ s, match claude s with
       | [] => (Ok (mkExec false EmptyString "Claude timed out" 0), s)
       | outcome :: rest =>
           (outcome,
            mkEngine (cache s) (contextManifest s) rest (today s) (stdout s) (world s))
       end.

(** A call of a function of the library that can throw. *)
Definition call {A} (r : result A) : M EngineState A := λ s, (r, s).

(** A string is truthy when it is not empty. *)
Definition truthy (x : string) : bool :=
  match x with EmptyString => false | _ => true end.

(** [text.includes(part)] *)
Fixpoint includes (text part : string) : bool :=
  String.prefix part text ||
  match text with
  | EmptyString => false
  | String _ rest => includes rest part
  end.

Section WithSession.
Context `{!CoreLib}.
(** What [main] computes once and every call below receives. *)
Variables (projectRoot : string) (registry : option ProjectRegistry)
  (contextPath : string) (isDryRun : bool) (scopeFilter : option string).

(** [processChange(change, ...)] *)
Definition processChange (change : CdmlElementChange) : M EngineState unit :=
  logger Fs.Info ("Processing: <" +:+ tagName change +:+ "> [" +:+ type change +:+
                  "] at " +:+ path change) ;;
  (* BEGIN TRANSACTION: preState is a deep copy of the manifest *)
  preState ← gets contextManifest;
  try_catch
    (manifest ← gets contextManifest;
     match manifest with
     | None => logger Fs.Debug "No context manifest — minimal processing"
     | Some m =>
         files ← gets (λ s, Fs.files (world s));
         assembled ← call (assembleContext change (path change) m registry
                             projectRoot files);
         if isDryRun then
           logger Fs.Info ("Dry run — prompt: " +:+
                           pretty (String.length (prompt assembled)) +:+ " chars") ;;
           logger Fs.Info "Prompt preview:" ;;
           stdout_write (String.substring 0 500 (prompt assembled) +:+ "...")
         else
           result ← executeClaudeHeadless;
           (if success result then ret tt
            else throw ("Claude execution failed: " +:+ error result)) ;;
           logger Fs.Info ("Generated (" +:+ pretty (durationMs result) +:+ "ms)") ;;
           stdout_write (response result) ;;
           stdout_write nl ;;
           (* COMMIT *)
           manifest' ← gets contextManifest;
           match manifest' with
           | Some m' => writeFile contextPath (Core.serializeContextManifest m')
           | None => ret tt
           end
     end)
    (λ error,
       (* ROLLBACK *)
       logger Fs.Error ("Transaction failed: " +:+ error) ;;
       manifest ← gets contextManifest;
       match preState, manifest with
       | Some pre, Some _ => modify (with_contextManifest (Some pre))
       | _, _ => ret tt
       end).

(** [handlePlanDirectives($, ...)] *)
Definition handlePlanDirectives (dom : Dom) : M EngineState unit :=
  for_of (detectPlanDirectives dom) (λ directive,
    logger Fs.Info ("Plan directive at " +:+ scope directive +:+ ": " +:+
                    dq +:+ instruction directive +:+ dq) ;;
    result ← executeClaudeHeadless;
    if success result then
      logger Fs.Info ("Plan expansion generated (" +:+
                      pretty (durationMs result) +:+ "ms)") ;;
      stdout_write (response result) ;;
      stdout_write nl
    else
      logger Fs.Error ("Plan processing failed: " +:+ error result)).

(** [handlePlanAnswers($, filePath, ...)] *)
Definition handlePlanAnswers (dom : Dom) (filePath : string) : M EngineState unit :=
  let questions := parsePlanQuestions dom in
  if negb (allQuestionsAnswered questions) then
    logger Fs.Debug "Plan questions not yet fully answered"
  else
    dateStr ← gets today;
    let facts := questionsToFacts questions ("plan:" +:+ dateStr) in
    logger Fs.Info ("Recording " +:+ pretty (length facts) +:+
                    " plan decision(s) as facts") ;;
    manifest ← gets contextManifest;
    match manifest with
    | Some m =>
        let m' :=
          Core.mkManifest (Core.forFile m)
            (Core.mkScope (Core.path (Core.global m)) (Core.refs (Core.global m))
               (Core.facts (Core.global m) ++ facts))
            (Core.scopes m) in
        modify (with_contextManifest (Some m')) ;;
        writeFile contextPath (Core.serializeContextManifest m')
    | None => ret tt
    end ;;
    writeFile filePath (htmlWithoutPlanQuestions dom) ;;
    logger Fs.Info "Plan questions processed and removed from .cdml".

(** [processFileChange(filePath, newContent, oldContent, ...)] *)
Definition processFileChange (filePath newContent oldContent : string)
    : M EngineState unit :=
  (* 1. Diff *)
  diff ← call (diffCdml oldContent newContent);
  if negb (hasChanges diff) && truthy oldContent then
    logger Fs.Debug "No changes detected"
  else
    let changes := getChangedElements diff in
    logger Fs.Info ("Changes: +" +:+ pretty (added (summary diff)) +:+
                    " -" +:+ pretty (removed (summary diff)) +:+
                    " ~" +:+ pretty (modified (summary diff))) ;;
    (* 2. Parse for plan directives and questions *)
    '(dom, hasPlanDirectives, hasPlanQuestions) ← call (parseSpecFile newContent);
    (if hasPlanDirectives : bool then handlePlanDirectives dom else ret tt) ;;
    (if hasPlanQuestions : bool then handlePlanAnswers dom filePath else ret tt) ;;
    (* 3. Apply scope filter *)
    let filteredChanges :=
      match scopeFilter with
      | Some f =>
          if truthy f then filter (λ c, includes (path c) f = true) changes
          else changes
      | None => changes
      end in
    match filteredChanges with
    | [] => logger Fs.Debug "No changes match scope filter"
    | _ =>
        (* 4. Process each change transactionally *)
        for_of filteredChanges processChange
    end.

(** The body of the [try] of [watcher.on('change', ...)]. *)
Definition changeCycle (relativePath : string) : M EngineState unit :=
  let filePath := Fs.join projectRoot relativePath in
  newContent ← readFile filePath;
  oldContent ← gets (λ s, default EmptyString (cache s !! relativePath));
  processFileChange filePath newContent oldContent ;;
  modify (λ s, with_cache (<[relativePath := newContent]> (cache s)) s).

(** [watcher.on('change', async (relativePath) => { ... })] *)
Definition onChange (relativePath : string) : M EngineState unit :=
  try_catch (changeCycle relativePath)
    (λ error, logger Fs.Error ("Error: " +:+ error)).

(** [watcher.on('add', async (relativePath) => { ... })] *)
Definition onAdd (relativePath : string) : M EngineState unit :=
  try_catch
    (content ← readFile (Fs.join projectRoot relativePath);
     modify (λ s, with_cache (<[relativePath := content]> (cache s)) s))
    (λ _, ret tt).

End WithSession.

Definition existsSync (p : string) : M EngineState bool := fs (Fs.existsSync p).
Definition mkdir (p : string) : M EngineState unit := fs (Fs.mkdir p).

(** A call of the scaffolder, whose [created] is a local of its own, on the
    world of the process. *)
Definition scaffold {A} (m : M SystemManager.ScaffoldState A) : M EngineState A :=
  λ s, match m (SystemManager.mkScaffold [] (world s)) with
       | (r, sc) => (r, with_world (SystemManager.world sc) s)
       end.


(** The files that [handleInit] writes. *)
Definition defaultContext (name : string) : string :=
  "<claudiv-context for=" +:+ dq +:+ name +:+ ".cdml" +:+ dq +:+
    " auto-generated=" +:+ dq +:+ "true" +:+ dq +:+ ">" +:+ nl +:+
  "  <global>" +:+ nl +:+
  "    <refs></refs>" +:+ nl +:+
  "    <facts></facts>" +:+ nl +:+
  "  </global>" +:+ nl +:+
  "</claudiv-context>" +:+ nl.

(** [JSON.stringify({ mode: 'cli' }, null, 2)] *)
Definition defaultConfig : string :=
  "{" +:+ nl +:+ "  " +:+ dq +:+ "mode" +:+ dq +:+ ": " +:+ dq +:+ "cli" +:+ dq +:+ nl +:+ "}".

Definition defaultProjectManifest (name : string) : string :=
  "<project name=" +:+ dq +:+ name +:+ dq +:+ ">" +:+ nl +:+
  "  <auto-discover>" +:+ nl +:+
  "    <directory path=" +:+ dq +:+ "." +:+ dq +:+
    " pattern=" +:+ dq +:+ "*.cdml" +:+ dq +:+ " />" +:+ nl +:+
  "  </auto-discover>" +:+ nl +:+
  "</project>" +:+ nl.

(** [handleInit(projectRoot)] *)
Definition handleInit `{!NodePath.Path} (projectRoot : string) : M EngineState unit :=
  logger Fs.Info "Initializing Claudiv..." ;;
  let claudivDir := Fs.join projectRoot ".claudiv" in
  (ex ← existsSync claudivDir;
   if ex : bool then ret tt else mkdir claudivDir) ;;
  (* Create default context *)
  let contextPath := Fs.join claudivDir "context.cdml" in
  (ex ← existsSync contextPath;
   if ex : bool then ret tt
   else writeFile contextPath (defaultContext (NodePath.basename projectRoot)) ;;
        logger Fs.Info "Created .claudiv/context.cdml") ;;
  (* Create default config *)
  let configPath := Fs.join claudivDir "config.json" in
  (ex ← existsSync configPath;
   if ex : bool then ret tt
   else writeFile configPath defaultConfig ;;
        logger Fs.Info "Created .claudiv/config.json") ;;
  (* Create project manifest *)
  let manifestPath := Fs.join projectRoot "claudiv.project.cdml" in
  (ex ← existsSync manifestPath;
   if ex : bool then ret tt
   else writeFile manifestPath (defaultProjectManifest (NodePath.basename projectRoot)) ;;
        logger Fs.Info "Created claudiv.project.cdml") ;;
  logger Fs.Info "Initialization complete".

End Engine.

(** ** Vocabulary of the statements *)

Module FsSpec.
Import Fs.


End FsSpec.

Module UpdaterSpec.
Import Updater.

Definition files_of (s : TxState) : gmap string Fs.Node := Fs.files (world s).

Definition set_prev (v : string) (op : TransactionOp) : TransactionOp :=
  mkOp (type op) (file op) (content op) (Some v).

(** What one iteration of step 1 does to [completed], the op objects and
    the files. *)
Inductive applied (l : Loc) (s s' : TxState) : Prop :=
  | applied_none :
      completed s' = completed s → files_of s' = files_of s →
      (heap s' = heap s ∨ ∃ v, heap s' = alter (set_prev v) l (heap s)) →
      applied l s s'
  | applied_create op data :
      heap s !! l = Some op → type op = OpWrite → content op = Some data →
      files_of s !! file op = None →
      completed s' = completed s ++ [l] →
      files_of s' = <[file op := Fs.File data]> (files_of s) →
      heap s' = heap s →
      applied l s s'
  | applied_overwrite op data prev :
      heap s !! l = Some op → type op = OpWrite → content op = Some data →
      files_of s !! file op = Some (Fs.File prev) →
      completed s' = completed s ++ [l] →
      files_of s' = <[file op := Fs.File data]> (files_of s) →
      heap s' = alter (set_prev prev) l (heap s) →
      applied l s s'
  | applied_delete op prev :
      heap s !! l = Some op → type op = OpDelete →
      files_of s !! file op = Some (Fs.File prev) →
      completed s' = completed s ++ [l] →
      files_of s' = delete (file op) (files_of s) →
      heap s' = alter (set_prev prev) l (heap s) →
      applied l s s'.





(** The state after [logger.<lvl>(line)]. *)
Definition logged (lvl : Fs.Level) (line : string) (s : TxState) : TxState :=
  with_world
    (Fs.mkWorld (Fs.files (world s)) (Fs.faults (world s)) (Fs.trace (world s))
       (Fs.log (world s) ++ [(lvl, line)])) s.

(** [attempted ls s s']: from [s], the undo of every op of [ls] is run, in
    the order of [ls], whether the undos before it succeeded or failed; a
    failed undo leaves a log line, and [s'] is the state at the end. *)
Inductive attempted : list Loc → TxState → TxState → Prop :=
  | attempted_nil s : attempted [] s s
  | attempted_done l ls s s1 s2 :
      rollbackOp l s = (Ok tt, s1) → attempted ls s1 s2 →
      attempted (l :: ls) s s2
  | attempted_failed l ls s rollbackError s1 op s2 :
      rollbackOp l s = (Err rollbackError, s1) → heap s1 !! l = Some op →
      attempted ls
        (logged Fs.Error
           ("Rollback failed for " +:+ file op +:+ ": " +:+ rollbackError) s1) s2 →
      attempted (l :: ls) s s2.


(** The last ref of [newRefs] for the artifact file [f], if any. *)
Fixpoint latest (newRefs : list Core.ContextRef) (f : string)
    : option Core.ContextRef :=
  match newRefs with
  | [] => None
  | ref :: rest =>
      match latest rest f with
      | Some r => Some r
      | None => if decide (Core.file ref = f) then Some ref else None
      end
  end.

(** The scope of the manifest that a transaction on [scopePath] targets. *)
Definition findScope (scopePath : string) (m : Core.ContextManifest)
    : option (nat * Core.Scope) :=
  list_find (λ s, Core.path s = scopePath) (Core.scopes m).


(** The persist of a call that reaches step 4 in state [s] is not made to
    fail. *)
Definition persist_succeeds (contextPath : string) (s : TxState) : Prop :=
  (∀ e, head (Fs.faults (world s)) ≠ Some (Some e)) ∧
  files_of s !! contextPath ≠ Some Fs.Dir.

(** [m'] has the scopes of [m], each fact list of [m] extended at its
    end. *)
Definition facts_extended (m m' : Core.ContextManifest) : Prop :=
  Core.facts (Core.global m) `prefix_of` Core.facts (Core.global m') ∧
  Forall2 (λ sc sc', Core.path sc = Core.path sc' ∧
                     Core.facts sc `prefix_of` Core.facts sc')
    (Core.scopes m) (Core.scopes m').

(** One committed transaction takes the manifest object from [m] to [m']. *)
Definition commits `{!Core.Serializer} (m m' : Core.ContextManifest) : Prop :=
  ∃ ops contextPath newRefs newFacts scopePath s s',
    manifest s = m ∧
    executeTransaction ops contextPath newRefs newFacts scopePath s = (Ok tt, s') ∧
    manifest s' = m'.

End UpdaterSpec.

Module ScaffoldSpec.
Import SystemManager.

(** Something exists at path [p]. *)
Definition present (p : string) (s : ScaffoldState) : Prop :=
  is_Some (Fs.files (world s) !! p).

(** Every path that exists in [s] exists in [s']. *)
Definition grows (s s' : ScaffoldState) : Prop :=
  ∀ p, present p s → present p s'.

(** The directory, the skeleton, the [.claudiv] directory and the context
    manifest of a component exist. *)
Definition componentPresent (projectRoot : string)
    (component : Component.SystemComponent) (s : ScaffoldState) : Prop :=
  let name := Component.name component in
  let componentDir := Fs.join projectRoot name in
  present componentDir s ∧
  present (Fs.join componentDir (name +:+ ".cdml")) s ∧
  present (Fs.join componentDir ".claudiv") s ∧
  present (Fs.join (Fs.join componentDir ".claudiv") "context.cdml") s.

(** [m] removes no path, and when it returns something exists at [p]. *)
Definition Ensures (p : string) (m : M ScaffoldState unit) : Prop :=
  ∀ s r s', m s = (r, s') → grows s s' ∧ (r = Ok tt → present p s').

(** [m] removes no path. *)
Definition Grows {A} (m : M ScaffoldState A) : Prop :=
  ∀ s r s', m s = (r, s') → grows s s'.

End ScaffoldSpec.

Module EngineSpec.
Import Engine.

(** [m] leaves the Change Cache as it is, however it ends. *)
Definition KeepsCache {A} (m : M EngineState A) : Prop :=
  ∀ s r s', m s = (r, s') → cache s' = cache s.

(** [m] never raises. *)
Definition NeverRaises {A} (m : M EngineState A) : Prop :=
  ∀ s, ∃ a s', m s = (Ok a, s').

End EngineSpec.

(** ** Concrete inputs used by the examples *)
Module Scenarios.
Import Updater.

(** A serializer to run the examples with. *)
Definition demoSerializer : Core.Serializer :=
  λ m, "<claudiv-context for=" +:+ Core.forFile m +:+
       " refs=" +:+ pretty (length (Core.refs (Core.global m))) +:+
       " facts=" +:+ pretty (length (Core.facts (Core.global m))) +:+
       " scopes=" +:+ pretty (length (Core.scopes m)) +:+ ">".

Definition contextPath : string := ".claudiv/context.cdml".

Definition emptyManifest : Core.ContextManifest :=
  Core.mkManifest "app.cdml" (Core.mkScope EmptyString [] []) [].

Definition initial (files : gmap string Fs.Node) (faults : list (option string))
    (ops : list TransactionOp) (m : Core.ContextManifest) : TxState :=
  mkTx [] ops m (Fs.mkWorld files faults [] []).

(** One write of a new file [a.txt], nothing made to fail. *)
Definition createOnly : TxState :=
  initial ∅ [] [mkOp OpWrite "a.txt" (Some "x") None] emptyManifest.





(** [a.txt] is overwritten and [b.txt] created; the persist fails; the
    rollback cannot unlink [b.txt] and then restores [a.txt]. *)
Definition firstUndoFails : TxState :=
  initial {["a.txt" := Fs.File "old"]}
    [None; None; None; Some "EIO"; Some "EBUSY"; None]
    [mkOp OpWrite "a.txt" (Some "new") None; mkOp OpWrite "b.txt" (Some "y") None]
    emptyManifest.

Definition decision : Core.ContextFact :=
  Core.mkFact "Sessions are stored in Redis" "plan:2026-01-15".

(** A metadata-only transaction whose persist is made to fail. *)
Definition persistFails : TxState :=
  initial {[contextPath := Fs.File "<claudiv-context for=app.cdml>"]}
    [Some "ENOSPC"] [] emptyManifest.

Definition apiScope : Core.Scope :=
  Core.mkScope "app/api"
    [Core.mkRef "src/api.ts" "sha:1"; Core.mkRef "src/db.ts" "sha:1"]
    [Core.mkFact "REST over HTTP" "plan:2026-01-10"].

Definition projectManifest : Core.ContextManifest :=
  Core.mkManifest "app.cdml" (Core.mkScope EmptyString [] []) [apiScope].

(** A metadata-only transaction on [projectManifest], nothing made to
    fail. *)
Definition metadataOnly : TxState := initial ∅ [] [] projectManifest.

(** A delete of a file that is not there, then a write. *)
Definition deleteMissing : TxState :=
  initial ∅ []
    [mkOp OpDelete "gone.txt" None None; mkOp OpWrite "a.txt" (Some "x") None]
    emptyManifest.

End Scenarios.

Module ScaffoldScenarios.
Import SystemManager.

(** [<system name=shop><web type=webapp>A</web>
     <api type=rest submodule=true>B</api></system>] *)
Definition shop : Project.SystemProject :=
  Project.mk "shop"
    [Component.mk "web" "webapp" false (Some "A");
     Component.mk "api" "rest" true (Some "B")]
    EmptyString.

Definition projectRoot : string := "proj".

(** The first run starts in an empty project, nothing is made to fail. *)
Definition firstRun : result (list string) * ScaffoldState :=
  createSystemComponents shop projectRoot
    (mkScaffold [] (Fs.mkWorld {[projectRoot := Fs.Dir]} [] [] [])).

(** The second run starts from the files the first run left. *)
Definition secondRun : result (list string) * ScaffoldState :=
  createSystemComponents shop projectRoot
    (mkScaffold [] (Fs.mkWorld (Fs.files (world firstRun.2)) [] [] [])).

End ScaffoldScenarios.

Module EngineScenarios.
Import Engine.

(** A library to run the examples with: a document that starts with an
    unclosed tag does not diff, any other change of content is one modified
    element, and no document has plan directives or questions. *)
#[export] Instance demoLib : CoreLib := {|
  Dom := unit;
  CdmlDiffResult := list CdmlElementChange;
  PlanQuestion := unit;
  AssembledContext := string;
  ProjectRegistry := unit;
  diffCdml old new :=
    if String.eqb new "<app" then Err "Unexpected end of input"
    else if String.eqb old new then Ok []
    else Ok [mkChange "app" "app" "modified"];
  hasChanges d := negb (bool_decide (d = []));
  summary d := mkSummary 0 0 (length d);
  getChangedElements d := d;
  parseSpecFile _ := Ok (tt, false, false);
  detectPlanDirectives _ := [];
  buildPlanPrompt d := instruction d;
  parsePlanQuestions _ := [];
  allQuestionsAnswered _ := true;
  questionsToFacts _ _ := [];
  htmlWithoutPlanQuestions _ := EmptyString;
  assembleContext change _ _ _ _ _ := Ok ("Regenerate " +:+ path change);
  prompt a := a;
  serializer := Scenarios.demoSerializer;
|}.

Definition projectRoot : string := "proj".
Definition contextPath : string := "proj/.claudiv/context.cdml".

Definition watching (files : gmap string Fs.Node) (faults : list (option string))
    (claude : list (result ExecResult)) : EngineState :=
  mkEngine {["app.cdml" := "<app>v1</app>"]} (Some Scenarios.emptyManifest)
    claude "2026-01-15" [] (Fs.mkWorld files faults [] []).

(** [app.cdml] was saved with a new content and the generation call
    settles to a failure. *)
Definition generationFails : EngineState :=
  watching {["proj/app.cdml" := Fs.File "<app>v2</app>"]} []
    [Ok (mkExec false EmptyString "rate limited" 1200)].

(** [app.cdml] was saved with a content that does not diff. *)
Definition diffFails : EngineState :=
  watching {["proj/app.cdml" := Fs.File "<app"]} [] [].

End EngineScenarios.

(** ** Vocabulary of the further statements *)

Module UpdaterEffects.
Import Updater.

(** The fields of an op object that its caller sets. *)
Definition request (op : TransactionOp) : OpType * string * option string :=
  (type op, file op, content op).

(** What applying an op does to the files: a write with a content puts the
    content at the file, a delete takes the file away. *)
Definition op_effect (op : TransactionOp) (files : gmap string Fs.Node)
    : gmap string Fs.Node :=
  match type op, content op with
  | OpWrite, Some data => <[file op := Fs.File data]> files
  | OpWrite, None => files
  | OpDelete, _ => delete (file op) files
  end.

(** The effects of the op objects referenced by [ops], in the order of
    [ops]. *)
Definition ops_effect (h : list TransactionOp) (ops : list nat)
    (files : gmap string Fs.Node) : gmap string Fs.Node :=
  fold_left (λ f l, match h !! l with Some op => op_effect op f | None => f end)
    ops files.

(** The file system call by which an op is applied. *)
Definition op_event (op : TransactionOp) : list Fs.Event :=
  match type op, content op with
  | OpWrite, Some data => [Fs.EvWrite (file op) data]
  | OpWrite, None => []
  | OpDelete, _ => [Fs.EvUnlink (file op)]
  end.

Definition op_event_at (h : list TransactionOp) (l : nat) : list Fs.Event :=
  match h !! l with Some op => op_event op | None => [] end.

End UpdaterEffects.

Module MoreScenarios.
Import Updater Scenarios.

(** Four op objects: a write over [a.txt], a delete of [b.txt], a write
    with no content, and a write of an empty content to a new file;
    [keep.txt] is named by no op. *)
Definition mixedOps (faults : list (option string)) : TxState :=
  initial
    {["a.txt" := Fs.File "old"; "b.txt" := Fs.File "bye"; "keep.txt" := Fs.File "k"]}
    faults
    [mkOp OpWrite "a.txt" (Some "new") None;
     mkOp OpDelete "b.txt" None None;
     mkOp OpWrite "c.txt" None None;
     mkOp OpWrite "d.txt" (Some EmptyString) None]
    emptyManifest.

End MoreScenarios.

Module ScaffoldMoreSpec.
Import SystemManager.


End ScaffoldMoreSpec.

Module MoreScaffoldScenarios.
Import SystemManager ScaffoldScenarios.


(** An empty project; [git submodule add] is made to fail. *)
Definition gitFails : ScaffoldState :=
  mkScaffold [] (Fs.mkWorld {["proj" := Fs.Dir]} [Some "fatal: not a git repository"] [] []).

End MoreScaffoldScenarios.

Module EngineMoreSpec.
Import Engine.

(** From [s] to [s'] no file changed, no mutating file system call was
    made, and the manifest object and the cache are as they were. *)
Definition untouched (s s' : EngineState) : Prop :=
  Fs.files (world s') = Fs.files (world s) ∧
  Fs.trace (world s') = Fs.trace (world s) ∧
  contextManifest s' = contextManifest s ∧
  cache s' = cache s.

(** However [m] ends, it has changed no file, made no mutating file system
    call, and left the manifest object and the cache alone. *)
Definition Silent {A} (m : M EngineState A) : Prop :=
  ∀ s r s', m s = (r, s') → untouched s s'.

(** [m] is silent and takes no outcome of a generation call. *)
Definition Idle {A} (m : M EngineState A) : Prop :=
  ∀ s r s', m s = (r, s') → untouched s s' ∧ claude s' = claude s.

End EngineMoreSpec.

Module EngineInitSpec.
Import Engine.

(** However [m] ends, every path that existed holds what it held. *)
Definition Adds {A} (m : M EngineState A) : Prop :=
  ∀ s r s', m s = (r, s') → Fs.files (world s) ⊆ Fs.files (world s').

(** From [s] to [s'] the path [p] has kept what it held or, when nothing
    was there, got [node]; every other path is as it was. *)
Definition placed (p : string) (node : Fs.Node) (s s' : EngineState) : Prop :=
  Fs.files (world s') !! p = Some (default node (Fs.files (world s) !! p)) ∧
  ∀ q, q ≠ p → Fs.files (world s') !! q = Fs.files (world s) !! q.

End EngineInitSpec.

Module MoreEngineScenarios.
Import Engine EngineScenarios.

(** A library for a document with one plan directive and one plan
    question, which is answered. *)
Definition planLib : CoreLib := {|
  Dom := unit;
  CdmlDiffResult := list CdmlElementChange;
  PlanQuestion := unit;
  AssembledContext := string;
  ProjectRegistry := unit;
  diffCdml old new := Ok [mkChange "app" "app" "modified"];
  hasChanges d := true;
  summary d := mkSummary 0 0 (length d);
  getChangedElements d := d;
  parseSpecFile _ := Ok (tt, true, true);
  detectPlanDirectives _ := [mkDirective "app" "add sign-in" []];
  buildPlanPrompt d := instruction d;
  parsePlanQuestions _ := [tt];
  allQuestionsAnswered _ := true;
  questionsToFacts _ source := [Core.mkFact "Sign-in uses JWT" source];
  htmlWithoutPlanQuestions _ := "<app>v2</app>";
  assembleContext change _ _ _ _ _ := Ok ("Regenerate " +:+ path change);
  prompt a := a;
  serializer := Scenarios.demoSerializer;
|}.

(** [app.cdml] was saved with a new content and the generation call
    settles to a success. *)
Definition generationSucceeds : EngineState :=
  watching {["proj/app.cdml" := Fs.File "<app>v2</app>"]} []
    [Ok (mkExec true "done" EmptyString 900)].

(** The write of the manifest file is made to fail. *)
Definition manifestWriteFails : EngineState :=
  watching {["proj/app.cdml" := Fs.File "<app>v2?</app>"]} [Some "ENOSPC"] [].

(** [path.basename] for a path with no trailing separator. *)
Fixpoint lastSegment (acc p : string) : string :=
  match p with
  | EmptyString => acc
  | String c rest =>
      if Ascii.eqb c (Ascii.ascii_of_nat 47) then lastSegment EmptyString rest
      else lastSegment (acc +:+ String c EmptyString) rest
  end.

Definition demoPath : NodePath.Path := {|
  NodePath.isAbsolute p := String.prefix "/" p;
  NodePath.join a b := Fs.join a b;
  NodePath.dirname p := String.substring 0 (String.length p - String.length (lastSegment EmptyString p) - 1) p;
  NodePath.basename p := lastSegment EmptyString p;
|}.

(** A project with a spec file and nothing else. *)
Definition bare : EngineState :=
  mkEngine ∅ None [] "2026-01-15" []
    (Fs.mkWorld {["proj" := Fs.Dir; "proj/app.cdml" := Fs.File "<app/>"]} [] [] []).

(** A project whose context manifest was edited by hand. *)
Definition halfInitialised : EngineState :=
  mkEngine ∅ None [] "2026-01-15" []
    (Fs.mkWorld
       {["proj" := Fs.Dir; "proj/.claudiv" := Fs.Dir;
         "proj/.claudiv/context.cdml" := Fs.File "<claudiv-context>mine</claudiv-context>"]}
       [] [] []).

(** A markup library for one document, [<system name=shop><web
    type=webapp>A</web> text <api type= submodule=true> B </api></system>]:
    any other content has no [<system>] element. *)
Definition shopDocument : string := "<system name=shop>...</system>".

Definition demoMarkup : SystemManager.Markup := {|
  SystemManager.Selection := list SystemManager.ChildNode * bool;
  SystemManager.select content selector :=
    if String.eqb content shopDocument then
      Ok ([SystemManager.mkChild "tag" "web" (Some {["type" := "webapp"]}) "A";
           SystemManager.mkChild "text" EmptyString None " text ";
           SystemManager.mkChild "tag" "api"
             (Some {["type" := EmptyString; "submodule" := "true"]}) "B"], true)
    else Ok ([], false);
  SystemManager.sel_length sel := if sel.2 then 1 else 0;
  SystemManager.sel_attr sel name :=
    if sel.2 && String.eqb name "name" then Some "shop" else None;
  SystemManager.sel_children sel := sel.1;
  SystemManager.trim text := text;
|}.

End MoreEngineScenarios.

Module ConfigSpec.

(** [f] is the name of a spec file: it ends in [.cdml] and is not the
    project manifest. *)
Definition specFileName (f : string) : Prop :=
  (∃ stem, f = stem +:+ ".cdml") ∧ f ≠ "claudiv.project.cdml".

End ConfigSpec.

Module ConfigScenarios.
Import Config MoreEngineScenarios.

(** A [JSON.parse] for three documents. *)
Definition demoJson (text : string) : result JsonDocument :=
  if String.eqb text "null" then Ok JsonNull
  else if String.eqb text "{mode:api}" then Ok (JsonObject {["mode" := JsString "api"]})
  else if String.eqb text "{}" then Ok (JsonObject ∅)
  else Err "SyntaxError: Unexpected token".

(** No file argument; the directory lists the project manifest before the
    spec files. *)
Definition discovering (env : gmap string string) : Process :=
  mkProcess None "/proj" env
    (Ok ["README.md"; "claudiv.project.cdml"; "app.cdml"; "other.cdml"]).

Definition project (config : string) : Fs.World :=
  Fs.mkWorld
    {["/proj/app.cdml" := Fs.File "<app/>";
      "/proj/.claudiv/config.json" := Fs.File config]}
    [] [] [].

End ConfigScenarios.

Ltac unfold_m :=
  unfold mbind, M_bind, mret, M_ret, bind, ret, throw, try_catch, gets, modify, zoom in *.

Section MonadFacts.
Context {S : Type}.

Lemma bind_Ok {A B} (m : M S A) (k : A → M S B) s a s' :
  m s = (Ok a, s') → (m ≫= k) s = k a s'.
Proof. unfold_m. by intros ->. Qed.

Lemma bind_Err {A B} (m : M S A) (k : A → M S B) s e s' :
  m s = (Err e, s') → (m ≫= k) s = (Err e, s').
Proof. unfold_m. by intros ->. Qed.

Lemma bind_inv {A B} (m : M S A) (k : A → M S B) s r s2 :
  (m ≫= k) s = (r, s2) →
  (∃ a s1, m s = (Ok a, s1) ∧ k a s1 = (r, s2)) ∨
  (∃ e, m s = (Err e, s2) ∧ r = Err e).
Proof.
  unfold_m. destruct (m s) as [[a|e] s1]; intros Hk.
  - left. eauto.
  - right. exists e. by simplify_eq.
Qed.

Lemma for_of_app {A} (xs ys : list A) (body : A → M S unit) s :
  for_of (xs ++ ys) body s = (for_of xs body ;; for_of ys body) s.
Proof.
  revert s. induction xs as [|x xs IH]; intros s; simpl.
  - done.
  - unfold_m. destruct (body x s) as [[[]|e] s1]; [apply IH | done].
Qed.
End MonadFacts.

Module FsFacts.
Import Fs FsSpec.


Lemma fault_inv w r w' :
  fault w = (r, w') → w' = with_faults (tail (faults w)) w.
Proof. unfold fault. destruct (head (faults w)) as [[e|]|]; intros; by simplify_eq. Qed.

Lemma readFile_inv p w r w' :
  readFile p w = (r, w') →
  files w' = files w ∧ ∀ data, r = Ok data → files w !! p = Some (File data).
Proof.
  unfold readFile. intros Hr.
  apply bind_inv in Hr as [([] & w1 & Hf & Hr)|(e & Hf & ->)];
    apply fault_inv in Hf as ->; [|done].
  unfold_m. simpl in *.
  destruct (files w !! p) as [[d|]|]; simplify_eq; simpl;
    (split; [done|intros; by simplify_eq]).
Qed.

Lemma readFile_run p data w :
  (∀ e, head (faults w) ≠ Some (Some e)) → files w !! p = Some (File data) →
  readFile p w = (Ok data, with_faults (tail (faults w)) w).
Proof.
  intros Hh Hp. unfold readFile.
  assert (fault w = (Ok tt, with_faults (tail (faults w)) w)) as Hf.
  { unfold fault. destruct (head (faults w)) as [[e|]|]; [by destruct (Hh e)|done..]. }
  erewrite bind_Ok by exact Hf. unfold_m. simpl. by rewrite Hp.
Qed.

Lemma writeFile_inv p data w r w' :
  writeFile p data w = (r, w') →
  trace w' = trace w ++ [EvWrite p data] ∧
  ((r = Ok tt ∧ files w' = <[p := File data]> (files w) ∧ files w !! p ≠ Some Dir) ∨
   (∃ e, r = Err e ∧ files w' = files w)).
Proof.
  unfold writeFile. intros Hr.
  apply bind_inv in Hr as [([] & w1 & Hm & Hr)|(e & Hm & ->)]; [|by unfold_m].
  unfold modify in Hm. simplify_eq.
  apply bind_inv in Hr as [([] & w1 & Hf & Hr)|(e & Hf & ->)];
    apply fault_inv in Hf as ->; [|by eauto].
  unfold_m. simpl in *.
  destruct (files w !! p) as [[d|]|] eqn:Hp; simplify_eq; simpl;
    (split; [done|]); first [left; by eauto 10 | right; by eauto 10].
Qed.

Lemma writeFile_run p data w :
  (∀ e, head (faults w) ≠ Some (Some e)) → files w !! p ≠ Some Dir →
  writeFile p data w =
    (Ok tt, mkWorld (<[p := File data]> (files w)) (tail (faults w))
              (trace w ++ [EvWrite p data]) (log w)).
Proof.
  intros Hh Hp. unfold writeFile. unfold modify at 1.
  erewrite bind_Ok by done.
  assert (fault (record (EvWrite p data) w)
          = (Ok tt, with_faults (tail (faults w)) (record (EvWrite p data) w))) as Hf.
  { unfold fault. simpl. destruct (head (faults w)) as [[e|]|]; [by destruct (Hh e)|done..]. }
  erewrite bind_Ok by exact Hf.
  unfold_m. simpl. by destruct (files w !! p) as [[d|]|].
Qed.

End FsFacts.

Module UpdaterFacts.
Import Updater FsSpec UpdaterSpec FsFacts.

Lemma tx_fs_inv {A} (m : M Fs.World A) s r s' :
  fs m s = (r, s') → ∃ w', m (world s) = (r, w') ∧ s' = with_world w' s.
Proof.
  unfold fs, zoom. destruct (m (world s)) as [r' w'] eqn:Hm.
  intros; simplify_eq. eauto.
Qed.

Lemma fs_run {A} (m : M Fs.World A) s r w' :
  m (world s) = (r, w') → fs m s = (r, with_world w' s).
Proof. unfold fs, zoom. by intros ->. Qed.

Lemma deref_inv l s r s' :
  deref l s = (r, s') → s' = s ∧ ∀ op, r = Ok op → heap s !! l = Some op.
Proof.
  unfold deref. destruct (heap s !! l) as [op|]; intros; simplify_eq;
    (split; [done|intros; by simplify_eq]).
Qed.

Lemma logger_inv lvl line s r s' :
  logger lvl line s = (r, s') →
  r = Ok tt ∧ ∃ w', s' = with_world w' s ∧ Fs.files w' = Fs.files (world s) ∧
    Fs.faults w' = Fs.faults (world s) ∧ Fs.trace w' = Fs.trace (world s).
Proof.
  intros (w' & Hw & ->)%tx_fs_inv. unfold Fs.logger, modify in Hw. simplify_eq.
  split; [done|]. eexists; split; [done|]. done.
Qed.

Ltac run_all :=
  unfold applyOp, rollbackOp, deref, set_previousContent, push,
    existsSync, readFile, writeFile, unlink, logger, fs,
    Fs.existsSync, Fs.readFile, Fs.writeFile, Fs.unlink, Fs.logger, Fs.fault,
    Fs.record, Fs.with_files, Fs.with_faults, files_of,
    with_world, with_heap, with_completed, with_manifest in *;
  unfold_m; simpl in *.

Ltac cases_all :=
  repeat (case_match; simplify_eq; simpl in *);
  repeat match goal with
    | H : bool_decide _ = true |- _ => apply bool_decide_eq_true in H
    | H : bool_decide _ = false |- _ =>
        apply bool_decide_eq_false in H; rewrite <- eq_None_not_Some in H
    end.

Lemma applyOp_applied l s r s' :
  applyOp l s = (r, s') →
  manifest s' = manifest s ∧ applied l s s' ∧
  (∀ e, r = Err e → completed s' = completed s ∧ files_of s' = files_of s).
Proof.
  destruct s as [c h m [f fl t lg]]. intros Hr.
  run_all. cases_all.
  all: split; [done|split; [|intros; by simplify_eq]].
  all: first [ by eapply applied_overwrite; eauto
             | by eapply applied_create; eauto
             | by eapply applied_delete; eauto
             | by apply applied_none; eauto ].
Qed.


Lemma applied_frame l s s' :
  applied l s s' →
  length (heap s') = length (heap s) ∧
  (∀ l', l' ≠ l → heap s' !! l' = heap s !! l') ∧
  (completed s' = completed s ∧ files_of s' = files_of s ∨
   completed s' = completed s ++ [l]).
Proof.
  intros [? ? [Hh|[v Hh]]|? ? ? ? ? ? ? ? Hh|? ? ? ? ? ? ? ? ? Hh|? ? ? ? ? ? ? Hh];
    rewrite Hh, ?length_alter;
    (split; [done|]); (split; [intros; by rewrite ?list_lookup_alter_ne|]); auto.
Qed.

Lemma applyOps_frame ops s r s1 :
  for_of ops applyOp s = (r, s1) →
  manifest s1 = manifest s ∧ length (heap s1) = length (heap s) ∧
  (∀ l, l ∉ ops → heap s1 !! l = heap s !! l).
Proof.
  revert s. induction ops as [|l rest IH]; intros s Hr; simpl in Hr.
  - unfold_m. by simplify_eq.
  - apply bind_inv in Hr as [([] & sa & Ha & Hr)|(e & Ha & ->)];
      apply applyOp_applied in Ha as (Hm & Happ & _);
      apply applied_frame in Happ as (Hlen & Hother & _).
    + apply IH in Hr as (Hm' & Hlen' & Hother').
      split; [congruence|]. split; [congruence|].
      intros l' [Hne Hnin]%not_elem_of_cons. rewrite Hother' by done. by apply Hother.
    + split; [done|]. split; [done|].
      intros l' [Hne Hnin]%not_elem_of_cons. by apply Hother.
Qed.


Lemma rollback_cons_ok l ls s s' :
  rollbackOp l s = (Ok tt, s') → rollback (l :: ls) s = rollback ls s'.
Proof. intros Hl. unfold rollback. simpl. unfold_m. by rewrite Hl. Qed.



Lemma rollbackOp_frame l s r s' :
  rollbackOp l s = (r, s') →
  heap s' = heap s ∧ completed s' = completed s ∧ manifest s' = manifest s.
Proof.
  destruct s as [c h m [f fl t lg]]. intros Hr.
  run_all. cases_all. all: done.
Qed.

Lemma rollback_attempted ls s :
  Forall (λ l, l < length (heap s)) ls →
  ∃ s2, rollback ls s = (Ok tt, s2) ∧ attempted ls s s2 ∧ heap s2 = heap s.
Proof.
  revert s. induction ls as [|l ls IH]; intros s Hvalid.
  - exists s. split; [done|]. split; [constructor|done].
  - apply Forall_cons in Hvalid as [Hl Hvalid].
    destruct (rollbackOp l s) as [[[]|e] s1] eqn:Hl1;
      pose proof (rollbackOp_frame _ _ _ _ Hl1) as (Hh & _ & _).
    + destruct (IH s1) as (s2 & Hrun & Hatt & Hh2); [by rewrite Hh|].
      exists s2. erewrite rollback_cons_ok by done.
      split; [done|]. split; [by econstructor|congruence].
    + destruct (lookup_lt_is_Some_2 (heap s1) l) as [op Hop]; [by rewrite Hh|].
      set (s1' := logged Fs.Error
             ("Rollback failed for " +:+ file op +:+ ": " +:+ e) s1).
      destruct (IH s1') as (s2 & Hrun & Hatt & Hh2); [by simpl; rewrite Hh|].
      exists s2. split; [|split; [by eapply attempted_failed|]].
      * unfold rollback in *. simpl. unfold_m. rewrite Hl1.
        unfold deref. rewrite Hop. unfold logger, fs, zoom, Fs.logger, modify.
        exact Hrun.
      * by rewrite Hh2, <- Hh.
Qed.

Lemma applyOps_completed ops s r s1 :
  for_of ops applyOp s = (r, s1) →
  ∃ c, completed s1 = completed s ++ c ∧ sublist c ops ∧
    Forall (λ l, l < length (heap s1)) c.
Proof.
  revert s. induction ops as [|l rest IH]; intros s Hr; simpl in Hr.
  - unfold_m. simplify_eq. exists []. by rewrite app_nil_r.
  - apply bind_inv in Hr as [([] & sa & Ha & Hr)|(e & Ha & ->)].
    + pose proof (applyOp_applied _ _ _ _ Ha) as (_ & Happ & _).
      pose proof (applyOps_frame _ _ _ _ Hr) as (_ & Hlen & _).
      destruct (IH _ Hr) as (c & Hc & Hsub & Hvalid).
      destruct Happ as [Hc' _ _|op ? Hop _ _ _ Hc' _ Hh|op ? ? Hop _ _ _ Hc' _ Hh
                       |op ? Hop _ _ Hc' _ Hh].
      * exists c. rewrite Hc, Hc'. split; [done|]. split; [by apply sublist_cons|done].
      * exists (l :: c). rewrite Hc, Hc', <- app_assoc. split; [done|].
        split; [by apply sublist_skip|]. apply Forall_cons. split; [|done].
        rewrite Hlen, Hh. by eapply lookup_lt_Some.
      * exists (l :: c). rewrite Hc, Hc', <- app_assoc. split; [done|].
        split; [by apply sublist_skip|]. apply Forall_cons. split; [|done].
        rewrite Hlen, Hh, length_alter. by eapply lookup_lt_Some.
      * exists (l :: c). rewrite Hc, Hc', <- app_assoc. split; [done|].
        split; [by apply sublist_skip|]. apply Forall_cons. split; [|done].
        rewrite Hlen, Hh, length_alter. by eapply lookup_lt_Some.
    + apply applyOp_applied in Ha as (_ & _ & Herr).
      destruct (Herr e eq_refl) as [Hc _]. exists []. rewrite app_nil_r.
      split; [done|]. split; [apply sublist_nil_l|done].
Qed.

(** Files other than the targets of the ops are left alone. *)
Lemma applied_other l s s' p :
  applied l s s' → (∀ op, heap s !! l = Some op → file op ≠ p) →
  files_of s' !! p = files_of s !! p ∧
  (∀ l' op', heap s' !! l' = Some op' →
     ∃ op, heap s !! l' = Some op ∧ file op' = file op).
Proof.
  intros Happ Hp.
  assert (∀ v l' op', alter (set_prev v) l (heap s) !! l' = Some op' →
            ∃ op, heap s !! l' = Some op ∧ file op' = file op) as Halter.
  { intros v l' op'. rewrite list_lookup_alter. case_decide; [subst|by eauto].
    destruct (heap s !! l') as [op|]; simpl; intros; simplify_eq; eauto. }
  destruct Happ as [_ Hf [Hh|[v Hh]]|op ? Hop _ _ _ _ Hf Hh|op ? ? Hop _ _ _ _ Hf Hh
                   |op ? Hop _ _ _ Hf Hh]; rewrite Hf, Hh;
    try specialize (Hp _ Hop).
  - eauto.
  - eauto.
  - rewrite lookup_insert_ne by done. eauto.
  - rewrite lookup_insert_ne by done. eauto.
  - rewrite lookup_delete_ne by done. eauto.
Qed.

Lemma applyOps_other ops s r s1 p :
  for_of ops applyOp s = (r, s1) →
  (∀ l op, l ∈ ops → heap s !! l = Some op → file op ≠ p) →
  files_of s1 !! p = files_of s !! p ∧
  (∀ l op, l ∈ ops → heap s1 !! l = Some op → file op ≠ p).
Proof.
  revert s. induction ops as [|l rest IH]; intros s Hr Hp; simpl in Hr.
  - unfold_m. by simplify_eq.
  - assert (∀ sa, applied l s sa →
              files_of sa !! p = files_of s !! p ∧
              ∀ l' op, l' ∈ l :: rest → heap sa !! l' = Some op → file op ≠ p)
      as Hstep.
    { intros sa Happ. destruct (applied_other l s sa p Happ) as [Hf Hh].
      - intros op. apply Hp. by left.
      - split; [done|]. intros l' op' Hl' [op [Hop ->]]%Hh. by eapply Hp. }
    apply bind_inv in Hr as [([] & sa & Ha & Hr)|(e & Ha & ->)];
      apply applyOp_applied in Ha as (_ & Happ & _);
      destruct (Hstep _ Happ) as [Hf Hh]; [|done].
    destruct (IH sa Hr) as [Hf' Hh'].
    + intros l' op Hl'. apply Hh. by right.
    + split; [congruence|]. intros l' op Hin.
      destruct (decide (l' ∈ rest)) as [|Hnin]; [by eauto|].
      apply elem_of_cons in Hin as [->|?]; [|done].
      pose proof (applyOps_frame _ _ _ _ Hr) as (_ & _ & Hrest).
      rewrite Hrest by done. apply Hh. by left.
Qed.

Lemma rollbackOp_other l s r s' p :
  rollbackOp l s = (r, s') → (∀ op, heap s !! l = Some op → file op ≠ p) →
  files_of s' !! p = files_of s !! p.
Proof.
  destruct s as [c h m [f fl t lg]]. intros Hr Hp.
  run_all. cases_all.
  all: try done.
  all: by rewrite ?lookup_insert_ne, ?lookup_delete_ne by by eapply Hp.
Qed.

Lemma rollback_handler_inv l rollbackError s r s' :
  (op ← deref l;
   logger Fs.Error ("Rollback failed for " +:+ file op +:+ ": " +:+ rollbackError)) s
    = (r, s') →
  files_of s' = files_of s ∧ heap s' = heap s.
Proof.
  intros Hr.
  apply bind_inv in Hr as [(op & s1 & Hd & Hr)|(e & Hd & ->)];
    apply deref_inv in Hd as [-> _]; [|done].
  apply logger_inv in Hr as (_ & w' & -> & Hf & _). by unfold files_of.
Qed.

Lemma rollback_other ls s r s' p :
  rollback ls s = (r, s') →
  (∀ l op, l ∈ ls → heap s !! l = Some op → file op ≠ p) →
  files_of s' !! p = files_of s !! p.
Proof.
  revert s. induction ls as [|l ls IH]; intros s Hr Hp.
  - unfold rollback in Hr. simpl in Hr. unfold_m. by simplify_eq.
  - unfold rollback in *. simpl in Hr.
    apply bind_inv in Hr as [([] & sa & Ha & Hr)|(e & Ha & ->)].
    all: unfold try_catch in Ha;
      destruct (rollbackOp l s) as [[[]|e'] s1] eqn:Hl1;
      pose proof (rollbackOp_frame _ _ _ _ Hl1) as (Hh & _ & _);
      pose proof (rollbackOp_other _ _ _ _ p Hl1) as Hf1.
    + simplify_eq. rewrite (IH _ Hr).
      * apply Hf1. intros op. apply Hp. by left.
      * intros l' op Hl'. rewrite Hh. apply Hp. by right.
    + apply rollback_handler_inv in Ha as [Hfa Hha].
      rewrite (IH _ Hr).
      * rewrite Hfa. apply Hf1. intros op. apply Hp. by left.
      * intros l' op Hl'. rewrite Hha, Hh. apply Hp. by right.
    + simplify_eq.
    + apply rollback_handler_inv in Ha as [-> _].
      apply Hf1. intros op. apply Hp. by left.
Qed.

Lemma rollback_frame ls s r s' :
  rollback ls s = (r, s') → heap s' = heap s ∧ manifest s' = manifest s.
Proof.
  revert s. induction ls as [|l ls IH]; intros s Hr.
  - unfold rollback in Hr. simpl in Hr. unfold_m. by simplify_eq.
  - unfold rollback in *. simpl in Hr.
    assert (∀ ra sa, try_catch (rollbackOp l)
              (λ rollbackError, op ← deref l;
                 logger Fs.Error ("Rollback failed for " +:+ file op +:+ ": "
                                  +:+ rollbackError)) s = (ra, sa) →
            heap sa = heap s ∧ manifest sa = manifest s) as Hstep.
    { intros ra sa. unfold try_catch.
      destruct (rollbackOp l s) as [[[]|e'] s1] eqn:Hl1;
        apply rollbackOp_frame in Hl1 as (Hh & _ & Hm).
      - by intros; simplify_eq.
      - intros Hh'. apply bind_inv in Hh' as [(op & s2 & Hd & Hh')|(e & Hd & ->)];
          apply deref_inv in Hd as [-> _]; [|done].
        apply logger_inv in Hh' as (_ & w' & -> & _). done. }
    apply bind_inv in Hr as [([] & sa & Ha & Hr)|(e & Ha & ->)];
      apply Hstep in Ha as [Hh Hm]; [|done].
    apply IH in Hr as [Hh' Hm']. split; congruence.
Qed.

Section WithSerializer.
Context `{!Core.Serializer}.

(** How the [try] block can end. *)
Lemma tryBlock_inv ops ctx newRefs newFacts sp s r s1 :
  tryBlock ops ctx newRefs newFacts sp s = (r, s1) →
  (∃ e, r = Err e ∧ for_of ops applyOp s = (Err e, s1)) ∨
  (∃ sa w', for_of ops applyOp s = (Ok tt, sa) ∧
     let m' := updateManifest newRefs newFacts sp (manifest sa) in
     Fs.writeFile ctx (Core.serializeContextManifest m') (world sa) = (r, w') ∧
     s1 = mkTx (completed sa) (heap sa) m' w').
Proof.
  unfold tryBlock. intros Hr.
  apply bind_inv in Hr as [([] & sa & Ha & Hr)|(e & Ha & ->)]; [|by eauto].
  right. unfold modify at 1 in Hr.
  apply bind_inv in Hr as [([] & sb & Hb & Hr)|(e & Hb & ->)]; [|done].
  simplify_eq.
  apply bind_inv in Hr as [(m & sb & Hb & Hr)|(e & Hb & ->)]; [|done].
  unfold gets in Hb. simplify_eq. simpl in Hr.
  apply tx_fs_inv in Hr as (w' & Hw & ->). simpl in Hw.
  exists sa, w'. split; [done|]. split; [done|]. done.
Qed.

Lemma tryBlock_after_ops ops ctx newRefs newFacts sp s sa :
  for_of ops applyOp s = (Ok tt, sa) →
  tryBlock ops ctx newRefs newFacts sp s =
    let m' := updateManifest newRefs newFacts sp (manifest sa) in
    writeFile ctx (Core.serializeContextManifest m') (with_manifest m' sa).
Proof.
  intros Hfor. unfold tryBlock. erewrite bind_Ok by done.
  unfold modify at 1. erewrite bind_Ok by done.
  unfold gets. by erewrite bind_Ok by done.
Qed.

Lemma catchBlock_run e s1 :
  catchBlock e s1 =
    let line := "Transaction failed, rolling back " +:+
                pretty (length (completed s1)) +:+ " operation(s)" in
    let s2 := mkTx (rev (completed s1)) (heap s1) (manifest s1)
                (Fs.mkWorld (Fs.files (world s1)) (Fs.faults (world s1))
                   (Fs.trace (world s1)) (Fs.log (world s1) ++ [(Fs.Error, line)])) in
    match rollback (rev (completed s1)) s2 with
    | (Ok _, s3) => (Err e, s3)
    | (Err e', s3) => (Err e', s3)
    end.
Proof. unfold catchBlock. run_all. by destruct s1 as [c h m [f fl t lg]]. Qed.

Lemma executeTransaction_run ops ctx newRefs newFacts sp s :
  executeTransaction ops ctx newRefs newFacts sp s =
    match tryBlock ops ctx newRefs newFacts sp (with_completed [] s) with
    | (Ok a, s1) => (Ok a, s1)
    | (Err e, s1) => catchBlock e s1
    end.
Proof. unfold executeTransaction. by unfold_m. Qed.
(** Whatever raised in the [try] block, the ops of [completed] are valid
    references, listed in the order of [ops]. *)
Lemma tryBlock_completed ops contextPath newRefs newFacts scopePath s r s1 :
  tryBlock ops contextPath newRefs newFacts scopePath (with_completed [] s)
    = (r, s1) →
  sublist (completed s1) ops ∧
  Forall (λ l, l < length (heap s1)) (completed s1).
Proof.
  intros [(e & _ & Hfor)|(sa & w' & Hfor & _ & ->)]%tryBlock_inv;
    apply applyOps_completed in Hfor as (c & Hc & Hsub & Hvalid);
    simpl in *; by subst.
Qed.

(** The manifest object after a call: untouched when step 1 raised,
    updated by steps 2 and 3 otherwise; a rollback does not restore it. *)
Lemma executeTransaction_manifest ops contextPath newRefs newFacts scopePath s r s' :
  executeTransaction ops contextPath newRefs newFacts scopePath s = (r, s') →
  (manifest s' = updateManifest newRefs newFacts scopePath (manifest s) ∨
   (manifest s' = manifest s ∧ r ≠ Ok tt)).
Proof.
  rewrite executeTransaction_run.
  destruct (tryBlock _ _ _ _ _ _) as [r1 s1] eqn:Htry.
  assert (manifest s1 = updateManifest newRefs newFacts scopePath (manifest s) ∨
          (manifest s1 = manifest s ∧ r1 ≠ Ok tt)) as Hm1.
  { apply tryBlock_inv in Htry as [(e' & -> & Hfor)|(sa & w' & Hfor & Hw & ->)];
      apply applyOps_frame in Hfor as (Hm & _).
    - right. done.
    - left. simpl. by rewrite Hm. }
  destruct r1 as [[]|e1].
  { intros; simplify_eq. destruct Hm1 as [?|[_ ?]]; [by left|done]. }
  rewrite catchBlock_run. simpl. set (sr := mkTx _ _ _ _).
  destruct (rollback _ sr) as [r3 s3] eqn:Hrb.
  apply rollback_frame in Hrb as [_ Hm3]. simpl in Hm3.
  intros Hres. assert (s3 = s' ∧ r ≠ Ok tt) as [-> Hr]
    by (destruct r3; by simplify_eq).
  rewrite Hm3. destruct Hm1 as [?|[? _]]; [by left|by right].
Qed.

(** When the file ops succeed and the persist is not made to fail, the
    transaction commits. *)
Lemma executeTransaction_commit ops contextPath newRefs newFacts scopePath s sa :
  for_of ops applyOp (with_completed [] s) = (Ok tt, sa) →
  persist_succeeds contextPath sa →
  ∃ s', executeTransaction ops contextPath newRefs newFacts scopePath s = (Ok tt, s') ∧
    manifest s' = updateManifest newRefs newFacts scopePath (manifest s) ∧
    Fs.files (world s') =
      <[contextPath := Fs.File (Core.serializeContextManifest (manifest s'))]>
        (Fs.files (world sa)) ∧
    Fs.trace (world s') =
      Fs.trace (world sa) ++
      [Fs.EvWrite contextPath (Core.serializeContextManifest (manifest s'))].
Proof.
  intros Hfor [Hhead Hdir].
  pose proof (applyOps_frame _ _ _ _ Hfor) as (Hm & _). simpl in Hm.
  rewrite executeTransaction_run. unfold tryBlock.
  erewrite bind_Ok by done. unfold modify at 1. erewrite bind_Ok by done.
  unfold gets. erewrite bind_Ok by done. simpl.
  unfold writeFile. erewrite fs_run by (by apply FsFacts.writeFile_run).
  eexists. split; [done|]. simpl. by rewrite Hm.
Qed.
End WithSerializer.
End UpdaterFacts.

(** * The transaction coordinator: rollback *)
Module UpdaterRollback.
Import Updater FsSpec UpdaterSpec FsFacts UpdaterFacts.

Section WithSerializer.
Context `{!Core.Serializer}.



(** C3: when a step of the [try] block raises [e], the completed ops are
    undone in the reverse of the order in which they were applied, the
    undo of each is run whether the undos before it failed or not, and
    the call raises [e] itself. *)
Theorem executeTransaction_rollback_reraises
    ops contextPath newRefs newFacts scopePath s e s1 :
  tryBlock ops contextPath newRefs newFacts scopePath (with_completed [] s)
    = (Err e, s1) →
  ∃ s2, executeTransaction ops contextPath newRefs newFacts scopePath s
          = (Err e, s2) ∧
    sublist (completed s1) ops ∧
    attempted (rev (completed s1))
      (with_completed (rev (completed s1))
         (logged Fs.Error
            ("Transaction failed, rolling back " +:+
             pretty (length (completed s1)) +:+ " operation(s)") s1))
      s2.
Proof.
  intros Htry. rewrite executeTransaction_run, Htry, catchBlock_run.
  apply tryBlock_completed in Htry as [Hsub Hvalid]. simpl.
  edestruct (rollback_attempted (rev (completed s1))) as (s2 & -> & Hatt & _);
    [|exists s2; split; [done|]; split; [done|]; exact Hatt].
  simpl. by apply Forall_rev.
Qed.
End WithSerializer.
End UpdaterRollback.

Module UpdaterRollbackExamples.
Import Updater FsSpec UpdaterSpec Scenarios.
#[local] Existing Instance demoSerializer.



(** Two completed ops, the first undo fails: the second is still run, and
    the error of the persist is the one raised. *)
Lemma executeTransaction_rollback_reraises_witness :
  ∃ s2, executeTransaction [0; 1] contextPath [] [] "app" firstUndoFails
          = (Err "EIO", s2) ∧
    Fs.files (world s2) !! "a.txt" = Some (Fs.File "old") ∧
    Fs.files (world s2) !! "b.txt" = Some (Fs.File "y") ∧
    Fs.log (world s2) =
      [(Fs.Debug, "Wrote: a.txt"); (Fs.Debug, "Wrote: b.txt");
       (Fs.Error, "Transaction failed, rolling back 2 operation(s)");
       (Fs.Error, "Rollback failed for b.txt: EBUSY")].
Proof.
  destruct (UpdaterRollback.executeTransaction_rollback_reraises
              [0; 1] contextPath [] [] "app" firstUndoFails "EIO"
              (tryBlock [0; 1] contextPath [] [] "app"
                 (with_completed [] firstUndoFails)).2)
    as (s2 & Hrun & _ & _).
  - vm_compute. reflexivity.
  - exists s2. split; [exact Hrun|].
    vm_compute in Hrun. injection Hrun as <-. repeat split; reflexivity.
Defined.
End UpdaterRollbackExamples.

(** * The transaction coordinator: the manifest file and the manifest object *)
Module UpdaterManifest.
Import Updater FsSpec UpdaterSpec FsFacts UpdaterFacts.

Section WithSerializer.
Context `{!Core.Serializer}.

(** A call that raises leaves the manifest file as it was, provided no op
    names the manifest path: the persist is then the only write to it,
    and a persist that fails writes nothing. *)
Lemma executeTransaction_failure_keeps_manifest_file
    ops contextPath newRefs newFacts scopePath s e s2 :
  (∀ l op, l ∈ ops → heap s !! l = Some op → file op ≠ contextPath) →
  executeTransaction ops contextPath newRefs newFacts scopePath s = (Err e, s2) →
  Fs.files (world s2) !! contextPath = Fs.files (world s) !! contextPath.
Proof.
  intros Hp. rewrite executeTransaction_run.
  destruct (tryBlock _ _ _ _ _ _) as [[[]|e1] s1] eqn:Htry; [done|].
  rewrite catchBlock_run. simpl.
  pose proof (tryBlock_completed _ _ _ _ _ _ _ _ Htry) as [Hsub _].
  assert (files_of s1 !! contextPath = files_of s !! contextPath ∧
          ∀ l op, l ∈ ops → heap s1 !! l = Some op → file op ≠ contextPath)
    as [Hf1 Hh1].
  { apply tryBlock_inv in Htry as [(e' & _ & Hfor)|(sa & w' & Hfor & Hw & ->)];
      apply (applyOps_other _ _ _ _ contextPath) in Hfor as [Hf Hh]; try done.
    simpl in Hw. apply FsFacts.writeFile_inv in Hw as [_ [(? & _)|(e' & _ & Hfw)]];
      [done|]. split; [|done]. unfold files_of in *. simpl in *. by rewrite Hfw. }
  set (sr := mkTx _ _ _ _).
  destruct (rollback (rev (completed s1)) sr) as [r3 s3] eqn:Hrb.
  assert (files_of s3 !! contextPath = files_of sr !! contextPath) as Hf3.
  { eapply rollback_other; [done|]. intros l op Hl. apply Hh1.
    rewrite list_elem_of_In, <- in_rev, <- list_elem_of_In in Hl.
    by eapply elem_of_sublist. }
  intros Hres. assert (s3 = s2) as -> by (destruct r3; by simplify_eq).
  unfold files_of in *. by rewrite Hf3.
Qed.
End WithSerializer.
End UpdaterManifest.

Module UpdaterManifestExamples.
Import Updater FsSpec UpdaterSpec Scenarios.
#[local] Existing Instance demoSerializer.

(** C2 (the code departs from it): a transaction whose persist fails raises
    and leaves the manifest file as it was, but the manifest object keeps
    the fact appended at step 3; memory and file are not changed
    together. *)
Theorem executeTransaction_failed_persist_keeps_memory_changes :
  ∃ s2, executeTransaction [] contextPath [] [decision] "app" persistFails
          = (Err "ENOSPC", s2) ∧
    Fs.files (world s2) !! contextPath = Fs.files (world persistFails) !! contextPath ∧
    Core.facts (Core.global (manifest persistFails)) = [] ∧
    Core.facts (Core.global (manifest s2)) = [decision].
Proof. eexists. split; [vm_compute; reflexivity|]. repeat split; reflexivity. Qed.
End UpdaterManifestExamples.

(** * Steps 2 and 3: refs and facts *)
Module ManifestFacts.
Import Updater UpdaterSpec.

Lemma putRef_found refs ref i x :
  list_find (λ r, Core.file r = Core.file ref) refs = Some (i, x) →
  putRef refs ref = <[i := ref]> refs ∧ refs !! i = Some x ∧
  Core.file x = Core.file ref.
Proof.
  intros Hfind. unfold putRef. rewrite Hfind.
  apply list_find_Some in Hfind as (? & ? & _). done.
Qed.

Lemma putRef_not_found refs ref :
  list_find (λ r, Core.file r = Core.file ref) refs = None →
  putRef refs ref = refs ++ [ref] ∧ Core.file ref ∉ (Core.file <$> refs).
Proof.
  intros Hfind. unfold putRef. rewrite Hfind. split; [done|].
  apply list_find_None in Hfind. intros (r & Hr & Hin)%list_elem_of_fmap.
  rewrite Forall_forall in Hfind. by apply (Hfind r).
Qed.

(** The files of the refs, in order: a replacement keeps them, an append
    adds the new file at the end. *)
Lemma putRef_files refs ref :
  let files := Core.file <$> refs in
  (In (Core.file ref) files ∧ Core.file <$> putRef refs ref = files) ∨
  (¬ In (Core.file ref) files ∧
   Core.file <$> putRef refs ref = files ++ [Core.file ref]).
Proof.
  simpl. rewrite <- list_elem_of_In.
  destruct (list_find (λ r, Core.file r = Core.file ref) refs) as [[i x]|] eqn:Hfind.
  - left. apply putRef_found in Hfind as (-> & Hx & Hfile). split.
    + apply list_elem_of_fmap. exists x. split; [done|]. by eapply list_elem_of_lookup_2.
    + rewrite list_fmap_insert, <- Hfile. apply list_insert_id.
      by rewrite list_lookup_fmap, Hx.
  - right. apply putRef_not_found in Hfind as (-> & Hnin). split; [done|].
    by rewrite fmap_app.
Qed.

Lemma putRef_NoDup refs ref :
  NoDup (Core.file <$> refs) → NoDup (Core.file <$> putRef refs ref).
Proof.
  intros Hnd. destruct (putRef_files refs ref) as [[_ ->]|[Hnin ->]]; [done|].
  rewrite <- list_elem_of_In in Hnin.
  apply NoDup_app. split; [done|]. split; [|apply NoDup_singleton].
  intros f Hf ->%list_elem_of_singleton. done.
Qed.

Lemma NoDup_files_inj refs r r' :
  NoDup (Core.file <$> refs) → r ∈ refs → r' ∈ refs →
  Core.file r = Core.file r' → r = r'.
Proof.
  induction refs as [|x refs IH]; [by intros _ ?%not_elem_of_nil|].
  rewrite fmap_cons. intros [Hx Hnd]%NoDup_cons.
  intros [->|Hr]%elem_of_cons [->|Hr']%elem_of_cons Hfile; auto.
  all: destruct Hx; first [rewrite Hfile | rewrite <- Hfile];
    by apply list_elem_of_fmap_2.
Qed.

Lemma putRef_elem refs ref r' :
  NoDup (Core.file <$> refs) →
  r' ∈ putRef refs ref ↔ r' = ref ∨ (r' ∈ refs ∧ Core.file r' ≠ Core.file ref).
Proof.
  intros Hnd.
  destruct (list_find (λ r, Core.file r = Core.file ref) refs) as [[i x]|] eqn:Hfind.
  - apply putRef_found in Hfind as (-> & Hx & Hfile).
    pose proof (list_elem_of_lookup_2 _ _ _ Hx) as Hxin.
    split.
    + intros (j & Hj)%list_elem_of_lookup.
      destruct (decide (i = j)) as [->|Hne].
      * rewrite list_lookup_insert_eq in Hj by by eapply lookup_lt_Some.
        left. by simplify_eq.
      * rewrite list_lookup_insert_ne in Hj by done. right.
        pose proof (list_elem_of_lookup_2 _ _ _ Hj) as Hin. split; [done|].
        intros Hfile'. assert (r' = x) as -> by
          (eapply NoDup_files_inj; [done..|congruence]).
        apply Hne. eapply NoDup_lookup; [exact Hnd|..];
          rewrite list_lookup_fmap; [by rewrite Hx|by rewrite Hj].
    + intros [->|[(j & Hj)%list_elem_of_lookup Hne]].
      * apply list_elem_of_lookup. exists i.
        apply list_lookup_insert_eq. by eapply lookup_lt_Some.
      * apply list_elem_of_lookup. exists j. rewrite list_lookup_insert_ne; [done|].
        intros ->. by simplify_eq.
  - apply putRef_not_found in Hfind as (-> & Hnin). rewrite elem_of_app.
    rewrite list_elem_of_singleton. split.
    + intros [Hin| ->]; [|by left]. right. split; [done|].
      intros Hfile. apply Hnin. rewrite <- Hfile. by apply list_elem_of_fmap_2.
    + intros [->|[? _]]; auto.
Qed.

Lemma putRefs_files_prefix newRefs refs :
  (Core.file <$> refs) `prefix_of` (Core.file <$> fold_left putRef newRefs refs).
Proof.
  revert refs. induction newRefs as [|ref rest IH]; intros refs; simpl; [done|].
  etrans; [|apply IH].
  destruct (putRef_files refs ref) as [[_ ->]|[_ ->]]; [done|].
  by apply prefix_app_r.
Qed.

Lemma putRefs_NoDup newRefs refs :
  NoDup (Core.file <$> refs) →
  NoDup (Core.file <$> fold_left putRef newRefs refs).
Proof.
  revert refs. induction newRefs as [|ref rest IH]; intros refs Hnd; simpl; [done|].
  by apply IH, putRef_NoDup.
Qed.

Lemma latest_Some newRefs f r :
  latest newRefs f = Some r → r ∈ newRefs ∧ Core.file r = f.
Proof.
  induction newRefs as [|ref rest IH]; simpl; [done|].
  destruct (latest rest f) as [x|].
  - intros; simplify_eq. destruct IH as [? ?]; [done|]. split; [by right|done].
  - case_decide; intros; simplify_eq. split; [by left|done].
Qed.

Lemma latest_None newRefs f :
  latest newRefs f = None ↔ f ∉ (Core.file <$> newRefs).
Proof.
  induction newRefs as [|ref rest IH]; simpl.
  - split; [intros _; apply not_elem_of_nil|done].
  - rewrite not_elem_of_cons. destruct (latest rest f) as [x|].
    + split; [done|]. intros [_ Hnin]. by apply IH in Hnin.
    + case_decide; split; try done.
      * intros [? _]. congruence.
      * intros _. split; [congruence|]. by apply IH.
Qed.

(** After the refs loop a ref is in the scope exactly when it is the last
    ref of [newRefs] for its file, or a ref that was there and whose file
    [newRefs] does not name. *)
Lemma putRefs_elem newRefs refs r' :
  NoDup (Core.file <$> refs) →
  r' ∈ fold_left putRef newRefs refs ↔
  latest newRefs (Core.file r') = Some r' ∨
  (latest newRefs (Core.file r') = None ∧ r' ∈ refs).
Proof.
  revert refs. induction newRefs as [|ref rest IH]; intros refs Hnd; simpl.
  - split; [by right|]. by intros [?|[_ ?]].
  - rewrite IH by by apply putRef_NoDup. rewrite putRef_elem by done.
    destruct (latest rest (Core.file r')) as [x|].
    { split; [intros [?|[? _]]; [by left|done]|intros [?|[? _]]; [by left|done]]. }
    case_decide as Hfile.
    + split.
      * intros [?|[_ [->|[_ ?]]]]; [done|by left|congruence].
      * intros [?|[? _]]; [|done]. simplify_eq. right. split; [done|by left].
    + split.
      * intros [?|[_ [->|[? _]]]]; [done|congruence|by right].
      * intros [?|[_ ?]]; [done|]. right. split; [done|]. right.
        split; [done|congruence].
Qed.

(** The refs at the positions of the old refs: replaced in place by the
    last ref of [newRefs] for the same file, otherwise left as they are. *)
Lemma putRefs_in_place newRefs refs j r :
  NoDup (Core.file <$> refs) → refs !! j = Some r →
  fold_left putRef newRefs refs !! j
    = Some (default r (latest newRefs (Core.file r))).
Proof.
  intros Hnd Hj.
  destruct (putRefs_files_prefix newRefs refs) as [k Hk].
  assert ((Core.file <$> fold_left putRef newRefs refs) !! j = Some (Core.file r))
    as Hfj.
  { rewrite Hk. apply lookup_app_l_Some. by rewrite list_lookup_fmap, Hj. }
  rewrite list_lookup_fmap in Hfj.
  destruct (fold_left putRef newRefs refs !! j) as [r'|] eqn:Hr'; [|done].
  simpl in Hfj. f_equal.
  pose proof (list_elem_of_lookup_2 _ _ _ Hr') as Hin.
  apply putRefs_elem in Hin as [Hl|[Hl Hin]]; [| |done].
  - assert (Core.file r' = Core.file r) as Hf by congruence.
    by rewrite <- Hf, Hl.
  - assert (Core.file r' = Core.file r) as Hf by congruence.
    rewrite <- Hf, Hl. simpl.
    eapply NoDup_files_inj; [done..|by eapply list_elem_of_lookup_2|done].
Qed.

(** The refs after the old positions are those appended. *)
Lemma putRefs_appended newRefs refs j r' :
  NoDup (Core.file <$> refs) → length refs ≤ j →
  fold_left putRef newRefs refs !! j = Some r' →
  latest newRefs (Core.file r') = Some r' ∧ ¬ In (Core.file r') (Core.file <$> refs).
Proof.
  intros Hnd Hj Hr'.
  assert (¬ In (Core.file r') (Core.file <$> refs)) as Hnew.
  { rewrite <- list_elem_of_In. intros (i & Hi)%list_elem_of_lookup.
    destruct (putRefs_files_prefix newRefs refs) as [k Hk].
    pose proof (putRefs_NoDup newRefs refs Hnd) as Hnd'.
    assert (i = j); [|subst i].
    { eapply NoDup_lookup; [exact Hnd'|..].
      - rewrite Hk. by apply lookup_app_l_Some.
      - by rewrite list_lookup_fmap, Hr'. }
    apply lookup_lt_Some in Hi. rewrite length_fmap in Hi. lia. }
  split; [|done].
  pose proof (list_elem_of_lookup_2 _ _ _ Hr') as Hin.
  apply putRefs_elem in Hin as [Hl|[_ Hin]]; [done| |done].
  destruct Hnew. apply list_elem_of_In. by apply list_elem_of_fmap_2.
Qed.

Lemma filter_none {A} (P : A → Prop) `{!∀ x, Decision (P x)} (l : list A) :
  (∀ x, x ∈ l → ¬ P x) → filter P l = [].
Proof.
  induction l as [|x l IH]; intros Hl; [done|].
  rewrite filter_cons. case_decide as HP.
  - destruct (Hl x); [by left|done].
  - apply IH. intros y Hy. apply Hl. by right.
Qed.

(** Exactly one ref is left for a file that [newRefs] names. *)
Lemma putRefs_one_per_file newRefs refs r :
  NoDup (Core.file <$> refs) → latest newRefs (Core.file r) = Some r →
  filter (λ x, Core.file x = Core.file r) (fold_left putRef newRefs refs) = [r].
Proof.
  intros Hnd Hl.
  pose proof (putRefs_NoDup newRefs refs Hnd) as Hnd'.
  assert (r ∈ fold_left putRef newRefs refs) as Hin by (apply putRefs_elem; auto).
  revert Hnd' Hin. generalize (fold_left putRef newRefs refs). intros l.
  induction l as [|x l IH]; [by intros _ ?%not_elem_of_nil|].
  rewrite fmap_cons. intros [Hx Hndl]%NoDup_cons Hin.
  rewrite filter_cons. case_decide as Hfile.
  - assert (filter (λ x0, Core.file x0 = Core.file r) l = []) as ->.
    { apply filter_none. intros y Hy Hfy. apply Hx.
      rewrite Hfile, <- Hfy. by apply list_elem_of_fmap_2. }
    f_equal. apply elem_of_cons in Hin as [->|Hin]; [done|].
    destruct Hx. rewrite Hfile. by apply list_elem_of_fmap_2.
  - apply IH; [done|]. apply elem_of_cons in Hin as [->|Hin]; done.
Qed.

Lemma updateManifest_found newRefs newFacts scopePath m i sc :
  findScope scopePath m = Some (i, sc) →
  updateManifest newRefs newFacts scopePath m =
    Core.mkManifest (Core.forFile m) (Core.global m)
      (<[i := Core.mkScope (Core.path sc) (fold_left putRef newRefs (Core.refs sc))
               (Core.facts sc ++ newFacts)]> (Core.scopes m)) ∧
  Core.scopes m !! i = Some sc ∧ Core.path sc = scopePath.
Proof.
  unfold findScope, updateManifest. intros Hfind. rewrite Hfind.
  apply list_find_Some in Hfind as (Hi & Hp & _). split; [|done].
  pose proof (lookup_lt_Some _ _ _ Hi) as Hlt.
  assert (alter (putRefs newRefs) i (Core.scopes m)
          = <[i := putRefs newRefs sc]> (Core.scopes m)) as ->.
  { apply list_eq. intros k. destruct (decide (i = k)) as [->|Hne].
    - by rewrite list_lookup_alter_eq, list_lookup_insert_eq, Hi.
    - by rewrite list_lookup_alter_ne, list_lookup_insert_ne. }
  case_bool_decide as Hlen; simpl.
  - f_equal. apply list_eq. intros k. destruct (decide (i = k)) as [->|Hne].
    + rewrite list_lookup_alter_eq, !list_lookup_insert_eq;
        rewrite ?length_insert; done.
    + by rewrite list_lookup_alter_ne, !list_lookup_insert_ne.
  - f_equal. destruct newFacts; [|simpl in Hlen; lia]. by rewrite app_nil_r.
Qed.

Lemma updateManifest_not_found newRefs newFacts scopePath m :
  findScope scopePath m = None →
  updateManifest newRefs newFacts scopePath m =
    Core.mkManifest (Core.forFile m)
      (Core.mkScope (Core.path (Core.global m)) (Core.refs (Core.global m))
         (Core.facts (Core.global m) ++ newFacts))
      (Core.scopes m).
Proof.
  unfold findScope, updateManifest. intros ->. case_bool_decide as Hlen; [done|].
  destruct newFacts; [|simpl in Hlen; lia]. rewrite app_nil_r.
  by destruct m as [? [] ?].
Qed.
End ManifestFacts.

(** * The transaction coordinator: what a committed transaction does *)
Module UpdaterCommit.
Import Updater FsSpec UpdaterSpec FsFacts UpdaterFacts ManifestFacts.

Lemma latest_is_Some newRefs r :
  r ∈ newRefs → ∃ r', latest newRefs (Core.file r) = Some r'.
Proof.
  intros Hin. destruct (latest newRefs (Core.file r)) as [r'|] eqn:Hl; [by eauto|].
  apply latest_None in Hl. destruct Hl. by apply list_elem_of_fmap_2.
Qed.

Lemma findScope_updateManifest newRefs newFacts scopePath m i sc :
  findScope scopePath m = Some (i, sc) →
  findScope scopePath (updateManifest newRefs newFacts scopePath m) =
    Some (i, Core.mkScope (Core.path sc) (fold_left putRef newRefs (Core.refs sc))
               (Core.facts sc ++ newFacts)).
Proof.
  intros Hfind.
  destruct (updateManifest_found newRefs newFacts _ _ _ _ Hfind) as (-> & Hi & Hp).
  unfold findScope in *. simpl.
  apply list_find_Some in Hfind as (_ & _ & Hbefore).
  apply list_find_Some. split; [|split; [done|]].
  - apply list_lookup_insert_eq. by eapply lookup_lt_Some.
  - intros j y Hj Hlt. rewrite list_lookup_insert_ne in Hj by lia. by eapply Hbefore.
Qed.

Lemma facts_extended_refl m : facts_extended m m.
Proof.
  split; [done|]. apply Forall_Forall2_diag, Forall_forall. by intros sc _.
Qed.

Lemma facts_extended_trans m1 m2 m3 :
  facts_extended m1 m2 → facts_extended m2 m3 → facts_extended m1 m3.
Proof.
  intros [Hg12 Hs12] [Hg23 Hs23]. split; [by etrans|].
  apply Forall2_same_length_lookup in Hs12 as [Hlen12 Hs12].
  apply Forall2_same_length_lookup in Hs23 as [Hlen23 Hs23].
  apply Forall2_same_length_lookup_2; [congruence|].
  intros j sc1 sc3 Hj1 Hj3.
  destruct (lookup_lt_is_Some_2 (Core.scopes m2) j) as [sc2 Hj2].
  { rewrite <- Hlen12. by eapply lookup_lt_Some. }
  destruct (Hs12 _ _ _ Hj1 Hj2) as [Hp12 Hf12].
  destruct (Hs23 _ _ _ Hj2 Hj3) as [Hp23 Hf23].
  split; [congruence|by etrans].
Qed.

Lemma updateManifest_facts_extended newRefs newFacts scopePath m :
  facts_extended m (updateManifest newRefs newFacts scopePath m).
Proof.
  destruct (findScope scopePath m) as [[i sc]|] eqn:Hfind.
  - destruct (updateManifest_found newRefs newFacts _ _ _ _ Hfind) as (-> & Hi & Hp).
    split; [done|]. simpl. apply Forall2_same_length_lookup_2.
    { by rewrite length_insert. }
    intros j sc1 sc2 Hj1 Hj2. destruct (decide (i = j)) as [->|Hne].
    + rewrite list_lookup_insert_eq in Hj2 by by eapply lookup_lt_Some.
      simplify_eq. simpl. split; [done|]. by apply prefix_app_r.
    + rewrite list_lookup_insert_ne in Hj2 by done. by simplify_eq.
  - rewrite updateManifest_not_found by done. split; simpl.
    + by apply prefix_app_r.
    + apply Forall_Forall2_diag, Forall_forall. by intros sc _.
Qed.

Section WithSerializer.
Context `{!Core.Serializer}.

Lemma executeTransaction_Ok_manifest ops contextPath newRefs newFacts scopePath s s' :
  executeTransaction ops contextPath newRefs newFacts scopePath s = (Ok tt, s') →
  manifest s' = updateManifest newRefs newFacts scopePath (manifest s).
Proof. by intros [?|[_ ?]]%executeTransaction_manifest. Qed.

(** C4: in a committed transaction on a scope whose refs are unique by
    file, every old position keeps its ref or holds the ref of [newRefs]
    for the same file, the refs after the old positions are those of
    [newRefs] with a new file, and one ref is left for each file named;
    after two such transactions naming the same file, the one ref left
    for it is a ref of the second. *)
Theorem executeTransaction_replaces_refs :
  (∀ ops contextPath newRefs newFacts scopePath s s' i sc,
     executeTransaction ops contextPath newRefs newFacts scopePath s = (Ok tt, s') →
     findScope scopePath (manifest s) = Some (i, sc) →
     NoDup (Core.file <$> Core.refs sc) →
     ∃ sc', Core.scopes (manifest s') !! i = Some sc' ∧
       NoDup (Core.file <$> Core.refs sc') ∧
       (∀ j r, Core.refs sc !! j = Some r →
          Core.refs sc' !! j = Some (default r (latest newRefs (Core.file r)))) ∧
       (∀ j r', length (Core.refs sc) ≤ j → Core.refs sc' !! j = Some r' →
          latest newRefs (Core.file r') = Some r' ∧
          ¬ In (Core.file r') (Core.file <$> Core.refs sc)) ∧
       (∀ r, r ∈ newRefs →
          ∃ r', latest newRefs (Core.file r) = Some r' ∧
            filter (λ x, Core.file x = Core.file r) (Core.refs sc') = [r'])) ∧
  (∀ ops1 contextPath1 newRefs1 newFacts1 ops2 contextPath2 newRefs2 newFacts2
     scopePath s s1 s1' s2 i sc r1 r2,
     findScope scopePath (manifest s) = Some (i, sc) →
     NoDup (Core.file <$> Core.refs sc) →
     executeTransaction ops1 contextPath1 newRefs1 newFacts1 scopePath s
       = (Ok tt, s1) →
     manifest s1' = manifest s1 →
     executeTransaction ops2 contextPath2 newRefs2 newFacts2 scopePath s1'
       = (Ok tt, s2) →
     r1 ∈ newRefs1 → r2 ∈ newRefs2 → Core.file r1 = Core.file r2 →
     ∃ sc2 r, Core.scopes (manifest s2) !! i = Some sc2 ∧
       filter (λ x, Core.file x = Core.file r2) (Core.refs sc2) = [r] ∧
       r ∈ newRefs2 ∧ latest newRefs2 (Core.file r2) = Some r).
Proof.
  assert (∀ ops contextPath newRefs newFacts scopePath s s' i sc,
     executeTransaction ops contextPath newRefs newFacts scopePath s = (Ok tt, s') →
     findScope scopePath (manifest s) = Some (i, sc) →
     Core.scopes (manifest s') !! i
       = Some (Core.mkScope (Core.path sc)
                 (fold_left putRef newRefs (Core.refs sc))
                 (Core.facts sc ++ newFacts))) as Hscope.
  { intros ops contextPath newRefs newFacts scopePath s s' i sc Hrun Hfind.
    rewrite (executeTransaction_Ok_manifest _ _ _ _ _ _ _ Hrun).
    destruct (updateManifest_found newRefs newFacts _ _ _ _ Hfind) as (-> & Hi & _).
    simpl. apply list_lookup_insert_eq. by eapply lookup_lt_Some. }
  split.
  - intros ops contextPath newRefs newFacts scopePath s s' i sc Hrun Hfind Hnd.
    eexists. split; [by eapply Hscope|]. simpl.
    split; [by apply putRefs_NoDup|].
    split; [by intros; apply putRefs_in_place|].
    split; [by intros; eapply putRefs_appended|].
    intros r [r' Hr']%latest_is_Some. exists r'. split; [done|].
    destruct (latest_Some _ _ _ Hr') as [_ Hfile]. rewrite <- Hfile in Hr' |- *.
    by apply putRefs_one_per_file.
  - intros ops1 contextPath1 newRefs1 newFacts1 ops2 contextPath2 newRefs2 newFacts2
      scopePath s s1 s1' s2 i sc r1 r2 Hfind Hnd Hrun1 Hm Hrun2 Hr1 Hr2 Hfile.
    pose proof (executeTransaction_Ok_manifest _ _ _ _ _ _ _ Hrun1) as Hm1.
    pose proof (findScope_updateManifest newRefs1 newFacts1 _ _ _ _ Hfind) as Hfind1.
    rewrite <- Hm1, <- Hm in Hfind1.
    eexists. destruct (latest_is_Some _ _ Hr2) as [r Hr]. exists r.
    split; [by eapply Hscope|]. simpl.
    destruct (latest_Some _ _ _ Hr) as [Hin Hfile2].
    split; [|done].
    rewrite <- Hfile2 in Hr |- *. apply putRefs_one_per_file; [|done].
    by apply putRefs_NoDup.
Qed.

Lemma commits_facts_extended m m' : commits m m' → facts_extended m m'.
Proof.
  intros (ops & contextPath & newRefs & newFacts & scopePath & s & s' & <- & Hrun & <-).
  rewrite (executeTransaction_Ok_manifest _ _ _ _ _ _ _ Hrun).
  apply updateManifest_facts_extended.
Qed.

(** C5: a committed transaction appends [newFacts] at the end of the fact
    list of the scope found for [scopePath], or of the global scope when
    there is none, and leaves every other fact list as it is; over any
    sequence of committed transactions every fact list only grows at its
    end. *)
Theorem executeTransaction_facts_append_only :
  (∀ ops contextPath newRefs newFacts scopePath s s',
     executeTransaction ops contextPath newRefs newFacts scopePath s = (Ok tt, s') →
     match findScope scopePath (manifest s) with
     | Some (i, sc) =>
         Core.facts (Core.global (manifest s')) = Core.facts (Core.global (manifest s)) ∧
         Core.facts <$> Core.scopes (manifest s') =
           <[i := Core.facts sc ++ newFacts]> (Core.facts <$> Core.scopes (manifest s))
     | None =>
         Core.facts (Core.global (manifest s')) =
           Core.facts (Core.global (manifest s)) ++ newFacts ∧
         Core.scopes (manifest s') = Core.scopes (manifest s)
     end) ∧
  (∀ m m', rtc commits m m' → facts_extended m m').
Proof.
  split.
  - intros ops contextPath newRefs newFacts scopePath s s' Hrun.
    rewrite (executeTransaction_Ok_manifest _ _ _ _ _ _ _ Hrun).
    destruct (findScope scopePath (manifest s)) as [[i sc]|] eqn:Hfind.
    + destruct (updateManifest_found newRefs newFacts _ _ _ _ Hfind) as (-> & _).
      simpl. by rewrite list_fmap_insert.
    + by rewrite updateManifest_not_found.
  - intros m m' Hsteps. induction Hsteps as [m|m1 m2 m3 Hstep _ IH].
    + apply facts_extended_refl.
    + eapply facts_extended_trans; [|exact IH]. by apply commits_facts_extended.
Qed.


(** C9: when no scope of the manifest has the path [scopePath], a call
    whose file ops and persist succeed returns, with every scope and the
    refs of the global scope as they were and [newFacts] appended to the
    facts of the global scope; [newRefs] is not used. *)
Theorem executeTransaction_unknown_scope
    ops contextPath newRefs newFacts scopePath s sa :
  findScope scopePath (manifest s) = None →
  for_of ops applyOp (with_completed [] s) = (Ok tt, sa) →
  persist_succeeds contextPath sa →
  ∃ s', executeTransaction ops contextPath newRefs newFacts scopePath s = (Ok tt, s') ∧
    executeTransaction ops contextPath [] newFacts scopePath s = (Ok tt, s') ∧
    Core.scopes (manifest s') = Core.scopes (manifest s) ∧
    Core.refs (Core.global (manifest s')) = Core.refs (Core.global (manifest s)) ∧
    Core.facts (Core.global (manifest s')) =
      Core.facts (Core.global (manifest s)) ++ newFacts.
Proof.
  intros Hfind Hfor Hok.
  assert (∀ refs, tryBlock ops contextPath refs newFacts scopePath (with_completed [] s)
            = tryBlock ops contextPath [] newFacts scopePath (with_completed [] s))
    as Htry.
  { intros refs. rewrite !(tryBlock_after_ops _ _ _ _ _ _ _ Hfor). simpl.
    pose proof (applyOps_frame _ _ _ _ Hfor) as (Hm & _). simpl in Hm.
    by rewrite Hm, !updateManifest_not_found. }
  destruct (executeTransaction_commit ops contextPath newRefs newFacts scopePath s
              sa Hfor Hok) as (s' & Hrun & Hm & _).
  exists s'. split; [done|].
  split; [by rewrite executeTransaction_run, <- (Htry newRefs), <- executeTransaction_run|].
  rewrite Hm, updateManifest_not_found by done. done.
Qed.

(** C10: a delete op whose file does not exist when the loop reaches it
    does nothing at all: the state, with the op objects and [completed],
    is the one before it, and the call goes on as if [ops] did not list
    it. *)
Theorem executeTransaction_skips_delete_of_missing_file
    before l after contextPath newRefs newFacts scopePath s sa op :
  for_of before applyOp (with_completed [] s) = (Ok tt, sa) →
  heap sa !! l = Some op → type op = OpDelete →
  Fs.files (world sa) !! file op = None →
  applyOp l sa = (Ok tt, sa) ∧
  executeTransaction (before ++ l :: after) contextPath newRefs newFacts scopePath s
    = executeTransaction (before ++ after) contextPath newRefs newFacts scopePath s.
Proof.
  intros Hbefore Hop Hty Hnone.
  assert (applyOp l sa = (Ok tt, sa)) as Hskip.
  { unfold applyOp. erewrite bind_Ok by (by unfold deref; rewrite Hop).
    rewrite Hty. unfold existsSync, fs, zoom, Fs.existsSync, gets.
    unfold_m. rewrite Hnone. simpl. by destruct sa. }
  split; [done|].
  rewrite !executeTransaction_run. unfold tryBlock.
  assert (for_of (before ++ l :: after) applyOp (with_completed [] s)
          = for_of (before ++ after) applyOp (with_completed [] s)) as Hfor.
  { rewrite !for_of_app, !(bind_Ok _ _ _ _ _ Hbefore). simpl.
    by rewrite (bind_Ok _ _ _ _ _ Hskip). }
  unfold_m. by rewrite Hfor.
Qed.
End WithSerializer.
End UpdaterCommit.

Module UpdaterCommitExamples.
Import Updater FsSpec UpdaterSpec Scenarios.
#[local] Existing Instance demoSerializer.

(** One write op on an empty manifest, no refs and no facts: after the
    commit [a.txt] holds the content and the manifest object is as it
    was. *)
Example executeTransaction_one_write :
  ∃ s', executeTransaction [0] contextPath [] [] "app" createOnly = (Ok tt, s') ∧
    Fs.files (world s') !! "a.txt" = Some (Fs.File "x") ∧
    manifest s' = emptyManifest ∧
    Fs.files (world s') !! contextPath
      = Some (Fs.File (Core.serializeContextManifest emptyManifest)).
Proof. eexists. split; [vm_compute; reflexivity|]. repeat split; reflexivity. Qed.

Lemma executeTransaction_replaces_refs_witness :
  ∃ s1 sc1 s2 sc2,
    executeTransaction [] contextPath
      [Core.mkRef "src/api.ts" "sha:2"; Core.mkRef "src/new.ts" "sha:1"] []
      "app/api" metadataOnly = (Ok tt, s1) ∧
    Core.scopes (manifest s1) !! 0 = Some sc1 ∧
    Core.refs sc1 =
      [Core.mkRef "src/api.ts" "sha:2"; Core.mkRef "src/db.ts" "sha:1";
       Core.mkRef "src/new.ts" "sha:1"] ∧
    executeTransaction [] contextPath [Core.mkRef "src/api.ts" "sha:3"] []
      "app/api" s1 = (Ok tt, s2) ∧
    Core.scopes (manifest s2) !! 0 = Some sc2 ∧
    filter (λ x, Core.file x = "src/api.ts") (Core.refs sc2)
      = [Core.mkRef "src/api.ts" "sha:3"].
Proof.
  destruct UpdaterCommit.executeTransaction_replaces_refs as [Hone Htwo].
  set (newRefs1 := [Core.mkRef "src/api.ts" "sha:2"; Core.mkRef "src/new.ts" "sha:1"]).
  set (newRefs2 := [Core.mkRef "src/api.ts" "sha:3"]).
  set (s1 := (executeTransaction [] contextPath newRefs1 [] "app/api" metadataOnly).2).
  set (s2 := (executeTransaction [] contextPath newRefs2 [] "app/api" s1).2).
  assert (executeTransaction [] contextPath newRefs1 [] "app/api" metadataOnly
          = (Ok tt, s1)) as Hrun1 by (vm_compute; reflexivity).
  assert (executeTransaction [] contextPath newRefs2 [] "app/api" s1
          = (Ok tt, s2)) as Hrun2 by (vm_compute; reflexivity).
  assert (findScope "app/api" (manifest metadataOnly) = Some (0, apiScope))
    as Hfind by (vm_compute; reflexivity).
  assert (NoDup (Core.file <$> Core.refs apiScope)) as Hnd by compute_done.
  destruct (Hone [] contextPath newRefs1 [] "app/api" metadataOnly s1 0 apiScope
              Hrun1 Hfind Hnd) as (sc1 & Hsc1 & _).
  destruct (Htwo [] contextPath newRefs1 [] [] contextPath newRefs2 []
              "app/api" metadataOnly s1 s1 s2 0 apiScope
              (Core.mkRef "src/api.ts" "sha:2") (Core.mkRef "src/api.ts" "sha:3")
              Hfind Hnd Hrun1 eq_refl Hrun2)
    as (sc2 & r & Hsc2 & Hfilter & _ & Hlatest).
  - by left.
  - by left.
  - reflexivity.
  - exists s1, sc1, s2, sc2. split; [exact Hrun1|]. split; [exact Hsc1|].
    split; [vm_compute in Hsc1; by injection Hsc1 as <-|].
    split; [exact Hrun2|]. split; [exact Hsc2|].
    vm_compute in Hlatest. injection Hlatest as <-. exact Hfilter.
Defined.

Lemma executeTransaction_facts_append_only_witness :
  ∃ s', executeTransaction [] contextPath [] [decision] "app/api" metadataOnly
          = (Ok tt, s') ∧
    (Core.facts <$> Core.scopes (manifest s')) =
      [[Core.mkFact "REST over HTTP" "plan:2026-01-10"; decision]] ∧
    facts_extended projectManifest (manifest s').
Proof.
  destruct UpdaterCommit.executeTransaction_facts_append_only as [Hone Hseq].
  set (s' := (executeTransaction [] contextPath [] [decision] "app/api" metadataOnly).2).
  assert (executeTransaction [] contextPath [] [decision] "app/api" metadataOnly
          = (Ok tt, s')) as Hrun by (vm_compute; reflexivity).
  exists s'. split; [exact Hrun|]. split.
  - pose proof (Hone [] contextPath [] [decision] "app/api" metadataOnly s' Hrun)
      as Hfacts.
    vm_compute in Hfacts. destruct Hfacts as [_ Hfacts]. vm_compute. exact Hfacts.
  - apply Hseq. apply rtc_once.
    exists [], contextPath, [], [decision], "app/api", metadataOnly, s'.
    split; [reflexivity|]. split; [exact Hrun|reflexivity].
Defined.


Lemma executeTransaction_unknown_scope_witness :
  ∃ s', executeTransaction [] contextPath [Core.mkRef "src/ui.ts" "sha:1"] [decision]
          "app/ui" metadataOnly = (Ok tt, s') ∧
    Core.scopes (manifest s') = [apiScope] ∧
    Core.refs (Core.global (manifest s')) = [] ∧
    Core.facts (Core.global (manifest s')) = [decision].
Proof.
  destruct (UpdaterCommit.executeTransaction_unknown_scope
              [] contextPath [Core.mkRef "src/ui.ts" "sha:1"] [decision] "app/ui"
              metadataOnly (with_completed [] metadataOnly))
    as (s' & Hrun & _ & Hscopes & Hrefs & Hfacts).
  - vm_compute. reflexivity.
  - reflexivity.
  - split; [by intros e|]. vm_compute. discriminate.
  - exists s'. split; [exact Hrun|]. split; [exact Hscopes|]. split; [exact Hrefs|].
    exact Hfacts.
Defined.

Lemma executeTransaction_skips_delete_of_missing_file_witness :
  applyOp 0 deleteMissing = (Ok tt, deleteMissing) ∧
  executeTransaction [0; 1] contextPath [] [] "app" deleteMissing
    = executeTransaction [1] contextPath [] [] "app" deleteMissing.
Proof.
  apply (UpdaterCommit.executeTransaction_skips_delete_of_missing_file
           [] 0 [1] contextPath [] [] "app" deleteMissing deleteMissing
           (mkOp OpDelete "gone.txt" None None)); reflexivity.
Defined.
End UpdaterCommitExamples.

(** * The system scaffolder *)
Module ScaffoldFacts.
Import SystemManager ScaffoldSpec FsSpec FsFacts.

Lemma grows_refl s : grows s s.
Proof. by intros p. Qed.

Lemma grows_trans s1 s2 s3 : grows s1 s2 → grows s2 s3 → grows s1 s3.
Proof. intros H12 H23 p Hp. by apply H23, H12. Qed.

Lemma scaffold_fs_inv {A} (m : M Fs.World A) s r s' :
  fs m s = (r, s') → ∃ w', m (world s) = (r, w') ∧ s' = with_world w' s.
Proof.
  unfold fs, zoom. destruct (m (world s)) as [r' w'] eqn:Hm.
  intros; simplify_eq. eauto.
Qed.

Lemma bind_inv_fs {A B} (m : M Fs.World A) (k : A → M ScaffoldState B) s r w' :
  m (world s) = (r, w') →
  (fs m ≫= k) s =
    match r with
    | Ok a => k a (with_world w' s)
    | Err e => (Err e, with_world w' s)
    end.
Proof. intros Hm. unfold fs, zoom. unfold_m. by rewrite Hm. Qed.

Lemma grows_insert s w' p node :
  Fs.files w' = <[p := node]> (Fs.files (world s)) → grows s (with_world w' s).
Proof.
  intros Hf q. unfold present. simpl. rewrite Hf.
  destruct (decide (p = q)) as [->|Hne];
    [by rewrite lookup_insert_eq|by rewrite lookup_insert_ne].
Qed.

Lemma grows_same s w' :
  Fs.files w' = Fs.files (world s) → grows s (with_world w' s).
Proof. intros Hf q. unfold present. simpl. by rewrite Hf. Qed.

Lemma Ensures_writeFile p data : Ensures p (writeFile p data).
Proof.
  intros s r s' (w' & Hw & ->)%scaffold_fs_inv.
  apply FsFacts.writeFile_inv in Hw as [_ [(-> & Hf & _)|(e & -> & Hf)]].
  - split; [by eapply grows_insert|]. intros _. unfold present. simpl.
    by rewrite Hf, lookup_insert_eq.
  - split; [by apply grows_same|done].
Qed.

Lemma mkdir_inv p w r w' :
  Fs.mkdir p w = (r, w') →
  Fs.files w' = Fs.files w ∧ (r = Ok tt → is_Some (Fs.files w !! p)) ∨
  r = Ok tt ∧ Fs.files w' = <[p := Fs.Dir]> (Fs.files w).
Proof.
  unfold Fs.mkdir. intros Hr.
  apply bind_inv in Hr as [([] & w1 & Hm & Hr)|(e & Hm & ->)]; [|by unfold_m].
  unfold modify in Hm. simplify_eq.
  apply bind_inv in Hr as [([] & w1 & Hf & Hr)|(e & Hf & ->)];
    apply fault_inv in Hf as ->; [|by left].
  unfold_m. simpl in *.
  destruct (Fs.files w !! p) as [[d|]|] eqn:Hp; simplify_eq; simpl; auto.
Qed.

Lemma Ensures_mkdir p : Ensures p (mkdir p).
Proof.
  intros s r s' (w' & Hw & ->)%scaffold_fs_inv.
  apply mkdir_inv in Hw as [[Hf Hp]|[-> Hf]].
  - split; [by apply grows_same|]. intros Hr. unfold present. simpl.
    rewrite Hf. by apply Hp.
  - split; [by eapply grows_insert|]. intros _. unfold present. simpl.
    by rewrite Hf, lookup_insert_eq.
Qed.

Lemma Ensures_gitSubmoduleAdd cwd name :
  Ensures (Fs.join cwd name) (gitSubmoduleAdd cwd name).
Proof.
  intros s r s' (w' & Hr & ->)%scaffold_fs_inv.
  apply bind_inv in Hr as [([] & w1 & Hm & Hr)|(e & Hm & ->)]; [|by unfold_m].
  unfold modify in Hm. simplify_eq.
  apply bind_inv in Hr as [([] & w1 & Hf & Hr)|(e & Hf & ->)];
    apply fault_inv in Hf as ->; [|by split; [apply grows_same|]].
  unfold_m. simpl in *.
  destruct (Fs.files (world s) !! Fs.join cwd name) as [node|] eqn:Hp;
    simplify_eq; simpl.
  - split; [by apply grows_same|done].
  - split; [by eapply grows_insert|]. intros _. unfold present. simpl.
    by rewrite lookup_insert_eq.
Qed.

Lemma scaffold_existsSync_inv p s r s' :
  existsSync p s = (r, s') →
  s' = s ∧ r = Ok (bool_decide (present p s)).
Proof.
  intros (w' & Hw & ->)%scaffold_fs_inv. unfold Fs.existsSync, gets in Hw.
  simplify_eq. by destruct s.
Qed.

(** [if (!existsSync(p)) { m }] *)
Lemma guard_inv p (m : M ScaffoldState unit) s r s' :
  (ex ← existsSync p; if ex : bool then ret tt else m) s = (r, s') →
  present p s ∧ r = Ok tt ∧ s' = s ∨ ¬ present p s ∧ m s = (r, s').
Proof.
  intros Hr. apply bind_inv in Hr as [(ex & s1 & Hex & Hr)|(e & Hex & ->)];
    apply scaffold_existsSync_inv in Hex as [-> Hex]; [|done]. simplify_eq.
  case_bool_decide; [left|right; done]. unfold ret in Hr. by simplify_eq.
Qed.

Lemma guard_skip p (m : M ScaffoldState unit) s :
  present p s → (ex ← existsSync p; if ex : bool then ret tt else m) s = (Ok tt, s).
Proof.
  intros Hp. unfold existsSync, fs, zoom, Fs.existsSync. unfold_m.
  rewrite bool_decide_eq_true_2 by done. by destruct s.
Qed.

Lemma Ensures_guard p m :
  Ensures p m → Ensures p (ex ← existsSync p; if ex : bool then ret tt else m).
Proof.
  intros Hm s r s' [(Hp & -> & ->)|(_ & Hr)]%guard_inv; [|by apply Hm].
  split; [apply grows_refl|done].
Qed.

Lemma Grows_push entry : Grows (push entry).
Proof. intros s r s'. unfold push, modify. intros; simplify_eq. by intros p. Qed.

Lemma Ensures_Grows p m : Ensures p m → Grows m.
Proof. intros Hm s r s' Hr. by apply Hm in Hr as [? _]. Qed.

Lemma Grows_ret : Grows (ret tt : M ScaffoldState unit).
Proof. intros s r s'. unfold ret. intros; simplify_eq. apply grows_refl. Qed.

Lemma Grows_bind {A B} (m : M ScaffoldState A) (k : A → M ScaffoldState B) :
  Grows m → (∀ a, Grows (k a)) → Grows (m ≫= k).
Proof.
  intros Hm Hk s r s' [(a & s1 & Ha & Hr)|(e & Ha & ->)]%bind_inv.
  - eapply grows_trans; [by eapply Hm|by eapply Hk].
  - by eapply Hm.
Qed.

(** [p] is ensured by the first part of a sequence, the rest removes
    nothing. *)
Lemma Ensures_then p (m k : M ScaffoldState unit) :
  Ensures p m → Grows k → Ensures p (m ;; k).
Proof.
  intros Hm Hk s r s' [([] & s1 & Ha & Hr)|(e & Ha & ->)]%bind_inv.
  - apply Hm in Ha as [Hg Hp]. pose proof (Hk _ _ _ Hr) as Hg'.
    split; [by eapply grows_trans|]. intros _. by apply Hg', Hp.
  - apply Hm in Ha as [Hg _]. done.
Qed.

(** [p] is ensured by the rest of a sequence, the first part removes
    nothing. *)
Lemma Ensures_after p (m k : M ScaffoldState unit) :
  Grows m → Ensures p k → Ensures p (m ;; k).
Proof.
  intros Hm Hk s r s' [([] & s1 & Ha & Hr)|(e & Ha & ->)]%bind_inv.
  - apply Hk in Hr as [Hg Hp]. pose proof (Hm _ _ _ Ha) as Hg'.
    split; [by eapply grows_trans|done].
  - split; [by eapply Hm|done].
Qed.

Lemma Ensures_try_catch p m (h : Error → M ScaffoldState unit) :
  Ensures p m → (∀ e, Ensures p (h e)) → Ensures p (try_catch m h).
Proof.
  intros Hm Hh s r s'. unfold try_catch.
  destruct (m s) as [[[]|e] s1] eqn:Hms.
  - intros; simplify_eq. by apply Hm in Hms.
  - intros Hr. apply Hm in Hms as [Hg _]. apply Hh in Hr as [Hg' Hp].
    split; [by eapply grows_trans|done].
Qed.

Lemma componentPresent_grows projectRoot component s s' :
  grows s s' → componentPresent projectRoot component s →
  componentPresent projectRoot component s'.
Proof. intros Hg (? & ? & ? & ?). repeat split; by apply Hg. Qed.

Create HintDb scaffold.
Local Hint Resolve Ensures_writeFile Ensures_mkdir Ensures_gitSubmoduleAdd
  Ensures_guard Ensures_try_catch Grows_push Grows_ret Ensures_Grows : scaffold.

(** The four steps of the loop body, each ensuring its path. *)
Lemma createComponent_steps system projectRoot component :
  let name := Component.name component in
  let componentDir := Fs.join projectRoot name in
  let claudivDir := Fs.join componentDir ".claudiv" in
  ∃ step1 step2 step3 step4 : M ScaffoldState unit,
    (∀ s, createComponent system projectRoot component s
          = (step1 ;; step2 ;; step3 ;; step4) s) ∧
    Ensures componentDir step1 ∧
    Ensures (Fs.join componentDir (name +:+ ".cdml")) step2 ∧
    Ensures claudivDir step3 ∧
    Ensures (Fs.join claudivDir "context.cdml") step4.
Proof.
  simpl. eexists _, _, _, _. split; [intros s; reflexivity|].
  split; [|split; [|split]].
  - destruct (Component.submodule component); eauto 10 with scaffold.
  - apply Ensures_guard, Ensures_then; eauto with scaffold.
  - eauto with scaffold.
  - apply Ensures_guard, Ensures_then; eauto with scaffold.
Qed.

Lemma createComponent_ensures system projectRoot component s r s' :
  createComponent system projectRoot component s = (r, s') →
  grows s s' ∧ (r = Ok tt → componentPresent projectRoot component s').
Proof.
  destruct (createComponent_steps system projectRoot component)
    as (step1 & step2 & step3 & step4 & -> & H1 & H2 & H3 & H4).
  pose proof (Ensures_Grows _ _ H1) as G1. pose proof (Ensures_Grows _ _ H2) as G2.
  pose proof (Ensures_Grows _ _ H3) as G3. pose proof (Ensures_Grows _ _ H4) as G4.
  intros Hr. split.
  - revert Hr. apply Grows_bind; [done|intros _].
    apply Grows_bind; [done|intros _]. by apply Grows_bind.
  - intros ->. repeat split.
    + eapply (Ensures_then _ step1 (step2 ;; step3 ;; step4)); [done| |done..].
      apply Grows_bind; [done|intros _]. by apply Grows_bind.
    + eapply (Ensures_after _ step1 (step2 ;; step3 ;; step4)); [done| |done..].
      apply Ensures_then; [done|]. by apply Grows_bind.
    + eapply (Ensures_after _ step1 (step2 ;; step3 ;; step4)); [done| |done..].
      apply Ensures_after; [done|]. by apply Ensures_then.
    + eapply (Ensures_after _ step1 (step2 ;; step3 ;; step4)); [done| |done..].
      apply Ensures_after; [done|]. by apply Ensures_after.
Qed.

(** With everything of the component in place the loop body touches
    nothing. *)
Lemma createComponent_skip system projectRoot component s :
  componentPresent projectRoot component s →
  createComponent system projectRoot component s = (Ok tt, s).
Proof.
  intros (Hdir & Hcdml & Hclaudiv & Hctx). unfold createComponent.
  erewrite bind_Ok; [|destruct (Component.submodule component); by apply guard_skip].
  simpl. erewrite bind_Ok by by apply guard_skip.
  simpl. erewrite bind_Ok by by apply guard_skip.
  by apply guard_skip.
Qed.

Lemma createComponents_ensure system projectRoot components s r s' :
  for_of components (createComponent system projectRoot) s = (r, s') →
  grows s s' ∧
  (r = Ok tt → Forall (λ c, componentPresent projectRoot c s') components).
Proof.
  revert s. induction components as [|c rest IH]; intros s Hr; simpl in Hr.
  - unfold ret in Hr. simplify_eq. split; [apply grows_refl|done].
  - apply bind_inv in Hr as [([] & s1 & Hc & Hr)|(e & Hc & ->)];
      apply createComponent_ensures in Hc as [Hg Hp]; [|done].
    apply IH in Hr as [Hg' Hrest]. split; [by eapply grows_trans|].
    intros ->. apply Forall_cons. split; [|by apply Hrest].
    eapply componentPresent_grows; [done|by apply Hp].
Qed.

Lemma createComponents_skip system projectRoot components s :
  Forall (λ c, componentPresent projectRoot c s) components →
  for_of components (createComponent system projectRoot) s = (Ok tt, s).
Proof.
  induction 1 as [|c rest Hc _ IH]; simpl; [done|].
  by erewrite bind_Ok by by apply createComponent_skip.
Qed.
End ScaffoldFacts.

Module ScaffoldIdempotence.
Import SystemManager ScaffoldSpec ScaffoldFacts FsSpec FsFacts.

Lemma componentPresent_files projectRoot component s s' :
  Fs.files (world s) ⊆ Fs.files (world s') →
  componentPresent projectRoot component s →
  componentPresent projectRoot component s'.
Proof.
  intros Hf. apply componentPresent_grows. intros p [node Hp]. exists node.
  by eapply lookup_weaken.
Qed.

(** What a run that returns has done. *)
Lemma createSystemComponents_inv system projectRoot s created1 s1 :
  createSystemComponents system projectRoot s = (Ok created1, s1) →
  Forall (λ c, componentPresent projectRoot c s1) (Project.components system) ∧
  Fs.files (world s1) !! Fs.join projectRoot "claudiv.project.cdml"
    = Some (Fs.File (projectManifestContent system)).
Proof.
  unfold createSystemComponents. unfold modify at 1. intros Hr.
  apply bind_inv in Hr as [([] & s0 & H0 & Hr)|(e & _ & ?)]; [|done]. simplify_eq.
  apply bind_inv in Hr as [([] & sa & Ha & Hr)|(e & _ & ?)]; [|done].
  apply createComponents_ensure in Ha as [_ Hpresent].
  apply bind_inv in Hr as [([] & sb & Hb & Hr)|(e & _ & ?)]; [|done].
  unfold updateProjectManifest in Hb. apply scaffold_fs_inv in Hb as (w' & Hw & ->).
  apply FsFacts.writeFile_inv in Hw as [_ [(_ & Hf & _)|(e & ? & _)]]; [|done].
  unfold push, modify, gets in Hr. unfold_m. simplify_eq. simpl. split.
  - eapply Forall_impl; [by apply Hpresent|]. intros c.
    apply componentPresent_grows. by eapply (grows_insert sa w').
  - by rewrite Hf, lookup_insert_eq.
Qed.

(** C7 (amended): after a run that returned, a second run on the same
    document, with everything the first run left still in place, makes one
    file system call, the write of the project manifest with the content
    the file already has; no skeleton and no context manifest is written,
    no directory is made, and every file is left as it was. *)
Theorem createSystemComponents_second_run system projectRoot s created1 s1 s1' :
  createSystemComponents system projectRoot s = (Ok created1, s1) →
  Fs.files (world s1) ⊆ Fs.files (world s1') →
  ∃ r s2, createSystemComponents system projectRoot s1' = (r, s2) ∧
    Fs.trace (world s2) =
      Fs.trace (world s1') ++
      [Fs.EvWrite (Fs.join projectRoot "claudiv.project.cdml")
         (projectManifestContent system)] ∧
    Fs.files (world s2) = Fs.files (world s1') ∧
    Fs.files (world s1') !! Fs.join projectRoot "claudiv.project.cdml"
      = Some (Fs.File (projectManifestContent system)) ∧
    ((∀ e, head (Fs.faults (world s1')) ≠ Some (Some e)) →
     r = Ok ["claudiv.project.cdml (updated)"]).
Proof.
  intros Hfirst Hfiles.
  apply createSystemComponents_inv in Hfirst as [Hpresent Hmanifest].
  set (s0 := mkScaffold [] (world s1')).
  assert (for_of (Project.components system) (createComponent system projectRoot) s0
          = (Ok tt, s0)) as Hskip.
  { apply createComponents_skip. eapply Forall_impl; [exact Hpresent|].
    intros c. by apply componentPresent_files. }
  apply (lookup_weaken _ _ _ _ Hmanifest) in Hfiles as Hmanifest'.
  clear Hmanifest. rename Hmanifest' into Hmanifest.
  destruct (createSystemComponents system projectRoot s1') as [r s2] eqn:Hrun.
  exists r, s2. split; [done|]. revert Hrun.
  unfold createSystemComponents. unfold modify at 1.
  erewrite bind_Ok by done. fold s0. erewrite bind_Ok by exact Hskip.
  unfold updateProjectManifest, writeFile.
  destruct (Fs.writeFile (Fs.join projectRoot "claudiv.project.cdml")
              (projectManifestContent system) (world s0)) as [rw w'] eqn:Hw.
  erewrite bind_inv_fs by exact Hw.
  pose proof (FsFacts.writeFile_inv _ _ _ _ _ Hw) as [Htrace Hcases].
  destruct Hcases as [(-> & Hf & _)|(e & -> & Hf)]; unfold push, modify, gets;
    unfold_m; simpl; intros; simplify_eq; simpl.
  - rewrite Hf, insert_id by done. done.
  - split; [done|]. split; [done|]. split; [done|]. intros Hhead.
    rewrite FsFacts.writeFile_run in Hw; [done|done|]. simpl. by rewrite Hmanifest.
Qed.
End ScaffoldIdempotence.

Module ScaffoldExamples.
Import SystemManager ScaffoldSpec ScaffoldScenarios.

Lemma createSystemComponents_second_run_witness :
  secondRun.1 = Ok ["claudiv.project.cdml (updated)"] ∧
  Fs.files (world secondRun.2) = Fs.files (world firstRun.2) ∧
  Fs.trace (world secondRun.2) =
    [Fs.EvWrite "proj/claudiv.project.cdml" (projectManifestContent shop)].
Proof.
  destruct (ScaffoldIdempotence.createSystemComponents_second_run
              shop projectRoot
              (mkScaffold [] (Fs.mkWorld {[projectRoot := Fs.Dir]} [] [] []))
              ["web/web.cdml"; "web/.claudiv/context.cdml"; "api/api.cdml";
               "api/.claudiv/context.cdml"; "claudiv.project.cdml (updated)"]
              firstRun.2
              (mkScaffold [] (Fs.mkWorld (Fs.files (world firstRun.2)) [] [] [])))
    as (r & s2 & Hrun & Htrace & Hfiles & _ & Hok).
  - vm_compute. reflexivity.
  - reflexivity.
  - unfold secondRun. rewrite Hrun. simpl. split; [by apply Hok|].
    split; [exact Hfiles|exact Htrace].
Defined.

(** C7, as stated, fails: the second run writes the project manifest,
    which exists. *)
Lemma createSystemComponents_second_run_writes_project_manifest :
  firstRun.1 = Ok ["web/web.cdml"; "web/.claudiv/context.cdml"; "api/api.cdml";
                   "api/.claudiv/context.cdml"; "claudiv.project.cdml (updated)"] ∧
  is_Some (Fs.files (world firstRun.2) !! "proj/claudiv.project.cdml") ∧
  secondRun.1 = Ok ["claudiv.project.cdml (updated)"] ∧
  Fs.trace (world secondRun.2) ≠ [] ∧
  Fs.EvWrite "proj/claudiv.project.cdml" (projectManifestContent shop)
    ∈ Fs.trace (world secondRun.2).
Proof.
  split; [vm_compute; reflexivity|]. split; [vm_compute; eauto|].
  split; [vm_compute; reflexivity|]. split; [vm_compute; discriminate|].
  vm_compute. left.
Qed.
End ScaffoldExamples.

(** * The watch loop and the Change Cache *)
Module EngineFacts.
Import Engine EngineSpec.

Lemma KeepsCache_bind {A B} (m : M EngineState A) (k : A → M EngineState B) :
  KeepsCache m → (∀ a, KeepsCache (k a)) → KeepsCache (m ≫= k).
Proof.
  intros Hm Hk s r s' [(a & s1 & Ha & Hr)|(e & Ha & ->)]%bind_inv.
  - rewrite (Hk _ _ _ _ Hr). by eapply Hm.
  - by eapply Hm.
Qed.

Lemma KeepsCache_try_catch {A} (m : M EngineState A) h :
  KeepsCache m → (∀ e, KeepsCache (h e)) → KeepsCache (try_catch m h).
Proof.
  intros Hm Hh s r s'. unfold try_catch. destruct (m s) as [[a|e] s1] eqn:Hms.
  - intros; simplify_eq. by eapply Hm.
  - intros Hr. rewrite (Hh _ _ _ _ Hr). by eapply Hm.
Qed.

Lemma KeepsCache_ret {A} (a : A) : KeepsCache (ret a).
Proof. intros s r s'. unfold ret. by intros; simplify_eq. Qed.

Lemma KeepsCache_mret {A} (a : A) : KeepsCache (mret a).
Proof. apply KeepsCache_ret. Qed.

Lemma KeepsCache_throw {A} e : KeepsCache (throw e : M EngineState A).
Proof. intros s r s'. unfold throw. by intros; simplify_eq. Qed.

Lemma KeepsCache_call {A} (r : result A) : KeepsCache (call r).
Proof. intros s r' s'. unfold call. by intros; simplify_eq. Qed.

Lemma KeepsCache_gets {A} (f : EngineState → A) : KeepsCache (gets f).
Proof. intros s r s'. unfold gets. by intros; simplify_eq. Qed.

Lemma KeepsCache_fs {A} (m : M Fs.World A) : KeepsCache (fs m).
Proof.
  intros s r s'. unfold fs, zoom. destruct (m (world s)). by intros; simplify_eq.
Qed.

Lemma KeepsCache_stdout_write text : KeepsCache (stdout_write text).
Proof. intros s r s'. unfold stdout_write, modify. by intros; simplify_eq. Qed.

Lemma KeepsCache_with_contextManifest m :
  KeepsCache (modify (with_contextManifest m)).
Proof. intros s r s'. unfold modify. by intros; simplify_eq. Qed.

Lemma KeepsCache_executeClaudeHeadless : KeepsCache executeClaudeHeadless.
Proof.
  intros s r s'. unfold executeClaudeHeadless.
  destruct (claude s); by intros; simplify_eq.
Qed.

Lemma KeepsCache_for_of {A} (xs : list A) body :
  (∀ x, KeepsCache (body x)) → KeepsCache (for_of xs body).
Proof.
  intros Hbody. induction xs as [|x xs IH]; simpl.
  - apply KeepsCache_ret.
  - apply KeepsCache_bind; [apply Hbody|by intros _].
Qed.

Lemma NeverRaises_bind {A B} (m : M EngineState A) (k : A → M EngineState B) :
  NeverRaises m → (∀ a, NeverRaises (k a)) → NeverRaises (m ≫= k).
Proof.
  intros Hm Hk s. destruct (Hm s) as (a & s1 & Ha).
  destruct (Hk a s1) as (b & s2 & Hb). exists b, s2. by erewrite bind_Ok.
Qed.

Lemma NeverRaises_try_catch {A} (m : M EngineState A) h :
  (∀ e, NeverRaises (h e)) → NeverRaises (try_catch m h).
Proof.
  intros Hh s. unfold try_catch. destruct (m s) as [[a|e] s1]; [by eauto|].
  apply Hh.
Qed.

Lemma NeverRaises_ret {A} (a : A) : NeverRaises (ret a).
Proof. intros s. by exists a, s. Qed.

Lemma NeverRaises_gets {A} (f : EngineState → A) : NeverRaises (gets f).
Proof. intros s. by exists (f s), s. Qed.

Lemma NeverRaises_modify f : NeverRaises (modify f).
Proof. intros s. by exists tt, (f s). Qed.

Lemma NeverRaises_logger lvl line : NeverRaises (logger lvl line).
Proof. intros s. by eexists _, _. Qed.

Create HintDb engine.
Local Hint Resolve KeepsCache_ret KeepsCache_mret KeepsCache_throw KeepsCache_call
  KeepsCache_gets KeepsCache_stdout_write KeepsCache_with_contextManifest
  KeepsCache_executeClaudeHeadless : engine.
Local Hint Extern 1 (KeepsCache (readFile _)) => apply KeepsCache_fs : engine.
Local Hint Extern 1 (KeepsCache (writeFile _ _)) => apply KeepsCache_fs : engine.
Local Hint Extern 1 (KeepsCache (logger _ _)) => apply KeepsCache_fs : engine.

(** Walk a computation down to its primitive calls. *)
Ltac keeps :=
  repeat first
    [ progress intros
    | apply KeepsCache_bind
    | apply KeepsCache_try_catch
    | apply KeepsCache_for_of
    | solve [eauto with engine]
    | match goal with
      | |- KeepsCache (match ?x with _ => _ end) => destruct x
      | |- KeepsCache (match ?x with _ => _ end _) => destruct x
      | |- KeepsCache (if ?b then _ else _) => destruct b
      | |- KeepsCache (let _ := _ in _) => cbv zeta
      end ].

Section WithSession.
Context `{!CoreLib}.
Variables (projectRoot : string) (registry : option ProjectRegistry)
  (contextPath : string) (isDryRun : bool) (scopeFilter : option string).

#[local] Abbreviation processChange := (processChange projectRoot registry contextPath isDryRun).
#[local] Abbreviation processFileChange :=
  (processFileChange projectRoot registry contextPath isDryRun scopeFilter).
#[local] Abbreviation changeCycle :=
  (changeCycle projectRoot registry contextPath isDryRun scopeFilter).
#[local] Abbreviation onChange := (onChange projectRoot registry contextPath isDryRun scopeFilter).

Lemma processChange_keeps change : KeepsCache (processChange change).
Proof. unfold Engine.processChange. keeps. Qed.

(** Whatever fails while one change is processed is caught and logged. *)
Lemma processChange_never_raises change : NeverRaises (processChange change).
Proof.
  unfold Engine.processChange.
  apply NeverRaises_bind; [apply NeverRaises_logger|intros _].
  apply NeverRaises_bind; [apply NeverRaises_gets|intros preState].
  apply NeverRaises_try_catch. intros e.
  apply NeverRaises_bind; [apply NeverRaises_logger|intros _].
  apply NeverRaises_bind; [apply NeverRaises_gets|intros manifest].
  destruct preState, manifest;
    first [apply NeverRaises_modify | apply NeverRaises_ret].
Qed.

Lemma processChanges_never_raise changes :
  NeverRaises (for_of changes processChange).
Proof.
  induction changes as [|c rest IH]; simpl; [apply NeverRaises_ret|].
  apply NeverRaises_bind; [apply processChange_never_raises|by intros _].
Qed.

(** When the diff and the parse return and the document has no plan
    directive and no plan question, the cycle of the file returns,
    however the processing of its changes goes. *)
Lemma processFileChange_returns filePath newContent oldContent diff dom s :
  diffCdml oldContent newContent = Ok diff →
  parseSpecFile newContent = Ok (dom, false, false) →
  ∃ s1, processFileChange filePath newContent oldContent s = (Ok tt, s1).
Proof.
  intros Hdiff Hparse. unfold Engine.processFileChange. rewrite Hdiff, Hparse.
  assert (∀ (m : M EngineState unit) s0, NeverRaises m → ∃ s1, m s0 = (Ok tt, s1))
    as Hrun.
  { intros m s0 Hm. destruct (Hm s0) as ([] & s1 & ?). eauto. }
  unfold call. erewrite bind_Ok by done.
  destruct (negb (hasChanges diff) && truthy oldContent);
    [apply Hrun, NeverRaises_logger|].
  erewrite bind_Ok by reflexivity. erewrite bind_Ok by reflexivity. simpl.
  erewrite bind_Ok by reflexivity. erewrite bind_Ok by reflexivity.
  apply Hrun.
  match goal with |- NeverRaises (match ?l with _ => _ end) => destruct l eqn:Hl end.
  - apply NeverRaises_logger.
  - apply processChanges_never_raise.
Qed.

Lemma processFileChange_keeps filePath newContent oldContent :
  KeepsCache (processFileChange filePath newContent oldContent).
Proof.
  unfold Engine.processFileChange, handlePlanDirectives, handlePlanAnswers.
  keeps. all: apply processChange_keeps.
Qed.

(** The cache after the body of the [try] of the change handler. *)
Lemma changeCycle_cache relativePath s r s1 :
  changeCycle relativePath s = (r, s1) →
  match r with
  | Ok _ =>
      ∃ newContent,
        Fs.files (world s) !! Fs.join projectRoot relativePath
          = Some (Fs.File newContent) ∧
        cache s1 = <[relativePath := newContent]> (cache s)
  | Err _ => cache s1 = cache s
  end.
Proof.
  unfold Engine.changeCycle. intros Hr.
  apply bind_inv in Hr as [(newContent & sa & Ha & Hr)|(e & Ha & ->)].
  2:{ by apply KeepsCache_fs in Ha. }
  assert (Fs.files (world s) !! Fs.join projectRoot relativePath
          = Some (Fs.File newContent) ∧ cache sa = cache s) as [Hfile Hca].
  { split; [|by apply KeepsCache_fs in Ha].
    unfold readFile, fs, zoom in Ha.
    destruct (Fs.readFile _ (world s)) as [r' w'] eqn:Hread. simplify_eq.
    apply FsFacts.readFile_inv in Hread as [_ Hdata]. by apply Hdata. }
  apply bind_inv in Hr as [(oldContent & sb & Hb & Hr)|(e & Hb & ->)];
    unfold gets in Hb; simplify_eq.
  apply bind_inv in Hr as [([] & sc & Hc & Hr)|(e & Hc & ->)];
    apply processFileChange_keeps in Hc.
  - unfold modify in Hr. simplify_eq. exists newContent. simpl.
    split; [done|congruence].
  - congruence.
Qed.
End WithSession.
End EngineFacts.

Module EngineCache.
Import Engine EngineSpec EngineFacts.

Section WithSession.
Context `{!CoreLib}.
Variables (projectRoot : string) (registry : option ProjectRegistry)
  (contextPath : string) (isDryRun : bool) (scopeFilter : option string).

#[local] Abbreviation processChange :=
  (processChange projectRoot registry contextPath isDryRun).
#[local] Abbreviation processFileChange :=
  (processFileChange projectRoot registry contextPath isDryRun scopeFilter).
#[local] Abbreviation changeCycle :=
  (changeCycle projectRoot registry contextPath isDryRun scopeFilter).
#[local] Abbreviation onChange :=
  (onChange projectRoot registry contextPath isDryRun scopeFilter).

(** C8 (amended): the change handler never raises, and the cache entry of
    the path is set to the content read exactly when the cycle returns;
    when it raises, as it does when the file cannot be read, the diff
    throws or the parse throws, the cache is as before.  A failure while
    one change is processed (context assembly, generation, the manifest
    write) is caught inside [processChange], which always returns and
    leaves the cache alone, so it does not keep the cycle from
    returning: for a file that is read, diffs and parses, with no plan
    directive and no plan question, the cache entry is set whatever
    becomes of its changes. *)
Theorem onChange_sets_cache_when_cycle_returns :
  (∀ relativePath s,
     ∃ s', onChange relativePath s = (Ok tt, s') ∧
       match (changeCycle relativePath s).1 with
       | Ok _ =>
           ∃ newContent,
             Fs.files (world s) !! Fs.join projectRoot relativePath
               = Some (Fs.File newContent) ∧
             cache s' = <[relativePath := newContent]> (cache s)
       | Err _ => cache s' = cache s
       end) ∧
  (∀ relativePath s e s1,
     readFile (Fs.join projectRoot relativePath) s = (Err e, s1) →
     (changeCycle relativePath s).1 = Err e) ∧
  (∀ filePath newContent oldContent s e,
     diffCdml oldContent newContent = Err e →
     processFileChange filePath newContent oldContent s = (Err e, s)) ∧
  (∀ filePath newContent oldContent s diff e,
     diffCdml oldContent newContent = Ok diff →
     negb (hasChanges diff) && truthy oldContent = false →
     parseSpecFile newContent = Err e →
     (processFileChange filePath newContent oldContent s).1 = Err e) ∧
  (∀ change s, ∃ s1, processChange change s = (Ok tt, s1) ∧ cache s1 = cache s) ∧
  (∀ relativePath s newContent diff dom,
     Fs.files (world s) !! Fs.join projectRoot relativePath
       = Some (Fs.File newContent) →
     (∀ e, head (Fs.faults (world s)) ≠ Some (Some e)) →
     diffCdml (default EmptyString (cache s !! relativePath)) newContent = Ok diff →
     parseSpecFile newContent = Ok (dom, false, false) →
     ∃ s', onChange relativePath s = (Ok tt, s') ∧
       cache s' = <[relativePath := newContent]> (cache s)).
Proof.
  split; [|split; [|split; [|split; [|split]]]].
  - intros relativePath s. unfold Engine.onChange, try_catch.
    destruct (changeCycle relativePath s) as [[[]|e] s1] eqn:Hcycle;
      apply changeCycle_cache in Hcycle; simpl.
    + by exists s1.
    + eexists. split; [reflexivity|]. simpl. done.
  - intros relativePath s e s1 Hread. unfold Engine.changeCycle.
    by erewrite bind_Err.
  - intros filePath newContent oldContent s e Hdiff.
    unfold Engine.processFileChange. rewrite Hdiff. by erewrite bind_Err.
  - intros filePath newContent oldContent s diff e Hdiff Hchanged Hparse.
    unfold Engine.processFileChange. rewrite Hdiff, Hparse.
    erewrite bind_Ok by done. rewrite Hchanged.
    unfold logger, fs, zoom, Fs.logger, modify, call. unfold_m. done.
  - intros change s. destruct (processChange_never_raises projectRoot registry
      contextPath isDryRun change s) as ([] & s1 & Hrun).
    exists s1. split; [done|]. by eapply processChange_keeps.
  - intros relativePath s newContent diff dom Hfile Hhead Hdiff Hparse.
    unfold Engine.onChange, try_catch, Engine.changeCycle.
    set (s0 := with_world (Fs.with_faults (tail (Fs.faults (world s))) (world s)) s).
    assert (readFile (Fs.join projectRoot relativePath) s = (Ok newContent, s0))
      as Hread.
    { unfold readFile, fs, zoom. by rewrite (FsFacts.readFile_run _ newContent). }
    erewrite bind_Ok by exact Hread. erewrite bind_Ok by reflexivity.
    destruct (processFileChange_returns projectRoot registry contextPath isDryRun
                scopeFilter (Fs.join projectRoot relativePath) newContent
                (default EmptyString (cache s !! relativePath)) diff dom s0
                Hdiff Hparse) as (s1 & Hrun).
    simpl in Hrun |- *. erewrite bind_Ok by exact Hrun.
    eexists. split; [reflexivity|]. simpl.
    by rewrite (processFileChange_keeps _ _ _ _ _ _ _ _ _ _ _ Hrun).
Qed.
End WithSession.
End EngineCache.

Module EngineExamples.
Import Engine EngineSpec EngineScenarios.

(** A save that does not diff: the cycle raises and the cache keeps the
    content of the save before.  A save that diffs: the cache takes the
    new content. *)
Lemma onChange_sets_cache_when_cycle_returns_witness :
  processFileChange projectRoot None contextPath false None
    "proj/app.cdml" "<app" "<app>v1</app>" diffFails
    = (Err "Unexpected end of input", diffFails) ∧
  cache (onChange projectRoot None contextPath false None "app.cdml" diffFails).2
    = cache diffFails ∧
  cache (onChange projectRoot None contextPath false None "app.cdml" generationFails).2
    = {["app.cdml" := "<app>v2</app>"]}.
Proof.
  destruct (EngineCache.onChange_sets_cache_when_cycle_returns
              projectRoot None contextPath false None)
    as (Hhandler & _ & Hdiff & _ & _ & Hset).
  split; [|split].
  - apply Hdiff. reflexivity.
  - destruct (Hhandler "app.cdml" diffFails) as (s' & Hrun & Hcache).
    rewrite Hrun. simpl. vm_compute in Hcache. vm_compute. exact Hcache.
  - destruct (Hset "app.cdml" generationFails "<app>v2</app>"
                [mkChange "app" "app" "modified"] tt) as (s' & Hrun & Hcache).
    + reflexivity.
    + by intros e.
    + reflexivity.
    + reflexivity.
    + rewrite Hrun. simpl. rewrite Hcache. vm_compute. reflexivity.
Defined.

(** C8, as stated, fails: the generation of the one change of the save
    fails, the failure is logged, and the cache entry is set to the new
    content all the same. *)
Lemma onChange_sets_cache_after_failed_generation :
  ∃ s', onChange projectRoot None contextPath false None "app.cdml" generationFails
          = (Ok tt, s') ∧
    (Fs.Error, "Transaction failed: Claude execution failed: rate limited")
      ∈ Fs.log (world s') ∧
    Fs.trace (world s') = [] ∧
    cache generationFails !! "app.cdml" = Some "<app>v1</app>" ∧
    cache s' !! "app.cdml" = Some "<app>v2</app>".
Proof.
  eexists. split; [vm_compute; reflexivity|].
  split; [simpl; set_solver|]. repeat split; reflexivity.
Qed.
End EngineExamples.

(** * The string functions of JavaScript used by the sources *)
Module StringFacts.

Lemma append_cons (c : Ascii.ascii) (s t : string) :
  String c s +:+ t = String c (s +:+ t).
Proof. done. Qed.

Lemma length_append (s t : string) :
  String.length (s +:+ t) = String.length s + String.length t.
Proof. induction s as [|c s IH]; [done|]. rewrite append_cons. cbn. by f_equal. Qed.

Lemma substring_all (s : string) : String.substring 0 (String.length s) s = s.
Proof. induction s as [|c s IH]; [done|]. cbn. by f_equal. Qed.

Lemma substring_append_r (pre s : string) n :
  String.substring (String.length pre) n (pre +:+ s) = String.substring 0 n s.
Proof. induction pre as [|c pre IH]; [done|]. rewrite append_cons. cbn. exact IH. Qed.

(** A string is its first [m] characters followed by the rest. *)
Lemma substring_split (s : string) m :
  m ≤ String.length s →
  s = String.substring 0 m s +:+ String.substring m (String.length s - m) s.
Proof.
  revert m. induction s as [|c s IH]; intros m Hm.
  - cbn in Hm. by replace m with 0 by lia.
  - destruct m as [|m].
    + cbn. change (String c s = EmptyString +:+ String c (String.substring 0 (String.length s) s)).
      by rewrite substring_all.
    + cbn in Hm |- *. rewrite append_cons. f_equal. apply IH. lia.
Qed.

(** [s.endsWith(suffix)] holds exactly of the strings that are some text
    followed by [suffix]. *)
Lemma endsWith_spec (s suffix : string) :
  Config.endsWith s suffix = true ↔ ∃ stem, s = stem +:+ suffix.
Proof.
  unfold Config.endsWith. rewrite andb_true_iff, Nat.leb_le, String.eqb_eq. split.
  - intros [Hle Hsub].
    exists (String.substring 0 (String.length s - String.length suffix) s).
    pose proof (substring_split s (String.length s - String.length suffix)) as Hsplit.
    replace (String.length s - (String.length s - String.length suffix))
      with (String.length suffix) in Hsplit by lia.
    rewrite Hsub in Hsplit. apply Hsplit. lia.
  - intros [stem ->]. rewrite length_append. split; [lia|].
    replace (String.length stem + String.length suffix - String.length suffix)
      with (String.length stem) by lia.
    by rewrite substring_append_r, substring_all.
Qed.

Lemma prefix_spec (part text : string) :
  String.prefix part text = true ↔ ∃ post, text = part +:+ post.
Proof.
  revert text. induction part as [|c part IH]; intros text.
  - split; [intros _; by exists text|by destruct text].
  - destruct text as [|d text]; cbn.
    + split; [done|]. by intros [post [=]].
    + destruct (Ascii.ascii_dec c d) as [->|Hne].
      * rewrite IH. split; intros [post Hpost]; exists post; [by rewrite Hpost|].
        by injection Hpost.
      * split; [done|]. intros [post [= ? _]]. done.
Qed.

(** [text.includes(part)] holds exactly of the strings in which [part]
    occurs. *)
Lemma includes_spec (text part : string) :
  Engine.includes text part = true ↔ ∃ pre post, text = pre +:+ part +:+ post.
Proof.
  induction text as [|c text IH]; cbn [Engine.includes];
    rewrite orb_true_iff, prefix_spec.
  - split.
    + intros [[post ->]|?]; [|done]. by exists EmptyString, post.
    + intros ([|d pre] & post & Heq); [left; by exists post|done].
  - rewrite IH. split.
    + intros [[post ->]|(pre & post & ->)]; [by exists EmptyString, post|].
      by exists (String c pre), post.
    + intros ([|d pre] & post & Heq); [left; by exists post|].
      right. injection Heq as _ ->. by exists pre, post.
Qed.
End StringFacts.

(** * The transaction coordinator: what a call does to the files, to the op
      objects and to the trace *)
Module UpdaterMoreFacts.
Import Updater FsSpec UpdaterSpec UpdaterEffects FsFacts UpdaterFacts.

Lemma request_alter v (l : nat) (h : list TransactionOp) : request <$> alter (set_prev v) l h = request <$> h.
Proof.
  apply list_eq. intros i. rewrite !list_lookup_fmap.
  destruct (decide (i = l)) as [->|Hne].
  - rewrite list_lookup_alter_eq. by destruct (h !! l).
  - by rewrite list_lookup_alter_ne.
Qed.

Lemma applied_request l s s' :
  applied l s s' → request <$> heap s' = request <$> heap s.
Proof.
  intros [? ? [Hh|[v Hh]]|? ? ? ? ? ? ? ? Hh|? ? ? ? ? ? ? ? ? Hh|? ? ? ? ? ? ? Hh];
    by rewrite Hh, ?request_alter.
Qed.

Lemma applyOps_request ops s r s1 :
  for_of ops applyOp s = (r, s1) → request <$> heap s1 = request <$> heap s.
Proof.
  revert s. induction ops as [|l rest IH]; intros s Hr; simpl in Hr.
  - unfold_m. by simplify_eq.
  - apply bind_inv in Hr as [([] & sa & Ha & Hr)|(e & Ha & ->)];
      apply applyOp_applied in Ha as (_ & Happ%applied_request & _); [|done].
    apply IH in Hr. congruence.
Qed.

Lemma request_lookup (h h' : list TransactionOp) (l : nat) :
  request <$> h = request <$> h' → request <$> (h !! l) = request <$> (h' !! l).
Proof. intros Hreq. by rewrite <- !list_lookup_fmap, Hreq. Qed.

Lemma op_effect_request op op' files :
  request op = request op' → op_effect op files = op_effect op' files.
Proof. unfold request, op_effect. intros [= Ht Hf Hc]. by rewrite Ht, Hf, Hc. Qed.

Lemma op_event_request op op' :
  request op = request op' → op_event op = op_event op'.
Proof. unfold request, op_event. intros [= Ht Hf Hc]. by rewrite Ht, Hf, Hc. Qed.

Lemma ops_effect_request (h h' : list TransactionOp) ops files :
  request <$> h = request <$> h' → ops_effect h ops files = ops_effect h' ops files.
Proof.
  intros Hreq. revert files. induction ops as [|l rest IH]; intros files; [done|].
  unfold ops_effect in *. simpl. rewrite <- IH. f_equal.
  pose proof (request_lookup _ _ l Hreq) as Hl.
  destruct (h !! l) as [op|], (h' !! l) as [op'|]; simpl in Hl; try done.
  apply op_effect_request. congruence.
Qed.

Lemma op_event_at_request (h h' : list TransactionOp) l :
  request <$> h = request <$> h' → op_event_at h l = op_event_at h' l.
Proof.
  intros Hreq. unfold op_event_at. pose proof (request_lookup _ _ l Hreq) as Hl.
  destruct (h !! l) as [op|], (h' !! l) as [op'|]; simpl in Hl; try done.
  apply op_event_request. congruence.
Qed.

(** One iteration of step 1 that returns. *)
Lemma applyOp_Ok l s s' :
  applyOp l s = (Ok tt, s') →
  ∃ op, heap s !! l = Some op ∧
    files_of s' = op_effect op (files_of s) ∧
    (completed s' = completed s ∧ Fs.trace (world s') = Fs.trace (world s) ∨
     completed s' = completed s ++ [l] ∧
     Fs.trace (world s') = Fs.trace (world s) ++ op_event op).
Proof.
  destruct s as [c h m [f fl t lg]]. intros Hr.
  unfold op_effect, op_event. run_all. cases_all.
  all: eexists; (split; [done|]); simpl.
  all: repeat match goal with H : _ = _ |- _ => rewrite H end; simpl.
  all: rewrite ?app_nil_r; try (split; [done|auto]).
  all: split; [by rewrite delete_id|auto].
Qed.

Lemma applyOps_effect ops s s1 :
  for_of ops applyOp s = (Ok tt, s1) →
  files_of s1 = ops_effect (heap s) ops (files_of s) ∧
  ∃ c, completed s1 = completed s ++ c ∧
    Fs.trace (world s1) = Fs.trace (world s) ++ flat_map (op_event_at (heap s)) c.
Proof.
  revert s. induction ops as [|l rest IH]; intros s Hr; simpl in Hr.
  - unfold_m. simplify_eq. split; [done|]. exists []. by rewrite !app_nil_r.
  - apply bind_inv in Hr as [([] & sa & Ha & Hr)|(e & Ha & ?)]; [|done].
    pose proof (applyOp_applied _ _ _ _ Ha) as (_ & Hreq%applied_request & _).
    apply applyOp_Ok in Ha as (op & Hop & Hf & Hct).
    apply IH in Hr as (Hf' & c & Hc & Ht).
    rewrite (ops_effect_request _ _ _ _ Hreq) in Hf'. split.
    + rewrite Hf'. unfold ops_effect. simpl. by rewrite Hop, Hf.
    + rewrite (flat_map_ext _ _ (λ l', op_event_at_request _ _ l' Hreq)) in Ht.
      destruct Hct as [[Hc0 Ht0]|[Hc0 Ht0]].
      * exists c. by rewrite Hc, Ht, Hc0, Ht0.
      * exists (l :: c). rewrite Hc, Ht, Hc0, Ht0, <- !app_assoc. simpl.
        unfold op_event_at at 2. by rewrite Hop.
Qed.

Section WithSerializer.
Context `{!Core.Serializer}.

(** A call that returns has run its ops and written the manifest. *)
Lemma executeTransaction_Ok_inv ops contextPath newRefs newFacts scopePath s s' :
  executeTransaction ops contextPath newRefs newFacts scopePath s = (Ok tt, s') →
  ∃ sa, for_of ops applyOp (with_completed [] s) = (Ok tt, sa) ∧
    completed s' = completed sa ∧ heap s' = heap sa ∧
    Fs.files (world s') =
      <[contextPath := Fs.File (Core.serializeContextManifest (manifest s'))]>
        (files_of sa) ∧
    Fs.trace (world s') =
      Fs.trace (world sa) ++
      [Fs.EvWrite contextPath (Core.serializeContextManifest (manifest s'))].
Proof.
  rewrite executeTransaction_run.
  destruct (tryBlock _ _ _ _ _ _) as [[[]|e1] s1] eqn:Htry.
  2:{ rewrite catchBlock_run. simpl. destruct (rollback _ _) as [[?|?] ?]; done. }
  intros ?; simplify_eq.
  apply tryBlock_inv in Htry as [(e' & ? & _)|(sa & w' & Hfor & Hw & ->)]; [done|].
  simpl in Hw. apply FsFacts.writeFile_inv in Hw as [Ht [(_ & Hf & _)|(e' & ? & _)]];
    [|done].
  exists sa. by repeat split.
Qed.

End WithSerializer.
End UpdaterMoreFacts.

Module UpdaterMore.
Import Updater FsSpec UpdaterSpec UpdaterEffects FsFacts UpdaterFacts UpdaterMoreFacts.

Section WithSerializer.
Context `{!Core.Serializer}.

(** X1: the files after a transaction that returned are the files before
    it with the effects of the ops applied in the order of [ops] (a write
    puts its content at its file, a delete takes its file away, a write
    with no content does nothing) and then the serialized manifest put
    at the manifest path. *)
Theorem executeTransaction_commit_files
    ops contextPath newRefs newFacts scopePath s s' :
  executeTransaction ops contextPath newRefs newFacts scopePath s = (Ok tt, s') →
  Fs.files (world s') =
    <[contextPath := Fs.File (Core.serializeContextManifest (manifest s'))]>
      (ops_effect (heap s) ops (Fs.files (world s))).
Proof.
  intros (sa & Hfor & _ & _ & Hf & _)%executeTransaction_Ok_inv.
  apply applyOps_effect in Hfor as [Hsa _]. by rewrite Hf, Hsa.
Qed.


(** X3: however a call ends, there are as many op objects as before and
    each has the [type], the [file] and the [content] it had: the only
    field of an op that a call writes is [previousContent]. *)
Theorem executeTransaction_writes_previousContent_only
    ops contextPath newRefs newFacts scopePath s r s' :
  executeTransaction ops contextPath newRefs newFacts scopePath s = (r, s') →
  request <$> heap s' = request <$> heap s.
Proof.
  rewrite executeTransaction_run.
  destruct (tryBlock _ _ _ _ _ _) as [r1 s1] eqn:Htry.
  assert (request <$> heap s1 = request <$> heap s) as Hreq.
  { apply tryBlock_inv in Htry as [(e' & _ & Hfor)|(sa & w' & Hfor & _ & ->)];
      by apply applyOps_request in Hfor. }
  destruct r1 as [[]|e1]; [by intros; simplify_eq|].
  rewrite catchBlock_run. simpl.
  destruct (rollback _ _) as [r3 s3] eqn:Hrb.
  apply rollback_frame in Hrb as [Hh _]. simpl in Hh.
  intros Hres. assert (s3 = s') as -> by (destruct r3; by simplify_eq).
  by rewrite Hh.
Qed.

(** X4: when an op of step 1 raises, the call raises that error and the
    manifest object is untouched: its refs and facts are only updated
    once every file op has succeeded. *)
Theorem executeTransaction_failed_op_keeps_manifest
    ops contextPath newRefs newFacts scopePath s e s1 :
  for_of ops applyOp (with_completed [] s) = (Err e, s1) →
  ∃ s', executeTransaction ops contextPath newRefs newFacts scopePath s
          = (Err e, s') ∧
    manifest s' = manifest s.
Proof.
  intros Hfor.
  assert (tryBlock ops contextPath newRefs newFacts scopePath (with_completed [] s)
          = (Err e, s1)) as Htry by (unfold tryBlock; by erewrite bind_Err).
  rewrite executeTransaction_run, Htry, catchBlock_run.
  apply tryBlock_completed in Htry as [_ Hvalid]. simpl.
  set (sr := mkTx _ _ _ _).
  destruct (rollback_attempted (rev (completed s1)) sr) as (s2 & Hrb & _ & _).
  { simpl. by apply Forall_rev. }
  rewrite Hrb. exists s2. split; [done|].
  apply rollback_frame in Hrb as [_ ->]. simpl.
  by apply applyOps_frame in Hfor as (-> & _).
Qed.

(** X5: a write op whose [content] is [undefined] does nothing at all:
    no file system call, no entry of [completed], and the call goes on as
    if [ops] did not list it. *)
Theorem executeTransaction_skips_write_without_content
    before l after contextPath newRefs newFacts scopePath s sa op :
  for_of before applyOp (with_completed [] s) = (Ok tt, sa) →
  heap sa !! l = Some op → type op = OpWrite → content op = None →
  applyOp l sa = (Ok tt, sa) ∧
  executeTransaction (before ++ l :: after) contextPath newRefs newFacts scopePath s
    = executeTransaction (before ++ after) contextPath newRefs newFacts scopePath s.
Proof.
  intros Hbefore Hop Hty Hct.
  assert (applyOp l sa = (Ok tt, sa)) as Hskip.
  { unfold applyOp. erewrite bind_Ok by (by unfold deref; rewrite Hop).
    by rewrite Hty, Hct. }
  split; [done|].
  rewrite !executeTransaction_run. unfold tryBlock.
  assert (for_of (before ++ l :: after) applyOp (with_completed [] s)
          = for_of (before ++ after) applyOp (with_completed [] s)) as Hfor.
  { rewrite !for_of_app, !(bind_Ok _ _ _ _ _ Hbefore). simpl.
    by rewrite (bind_Ok _ _ _ _ _ Hskip). }
  unfold_m. by rewrite Hfor.
Qed.

(** X6: in a transaction that returned, the mutating file system calls
    are one call for each op of [completed], in the order of [completed],
    which lists ops of [ops] in the order of [ops], and then, last, the
    write of the manifest. *)
Theorem executeTransaction_commit_trace
    ops contextPath newRefs newFacts scopePath s s' :
  executeTransaction ops contextPath newRefs newFacts scopePath s = (Ok tt, s') →
  sublist (completed s') ops ∧
  Fs.trace (world s') =
    Fs.trace (world s) ++ flat_map (op_event_at (heap s)) (completed s') ++
    [Fs.EvWrite contextPath (Core.serializeContextManifest (manifest s'))].
Proof.
  intros (sa & Hfor & Hc & _ & _ & Ht)%executeTransaction_Ok_inv.
  pose proof (applyOps_completed _ _ _ _ Hfor) as (c' & Hc' & Hsub & _).
  apply applyOps_effect in Hfor as (_ & c & Hcs & Hts). simpl in *.
  rewrite Hc. split; [by rewrite Hc'|].
  by rewrite Ht, Hts, Hcs, <- app_assoc.
Qed.
End WithSerializer.
End UpdaterMore.

Module UpdaterMoreExamples.
Import Updater FsSpec UpdaterSpec UpdaterEffects Scenarios MoreScenarios.
#[local] Existing Instance demoSerializer.

Lemma executeTransaction_commit_files_witness :
  ∃ s', executeTransaction [0; 1; 2; 3] contextPath [] [] "app" (mixedOps [])
          = (Ok tt, s') ∧
    Fs.files (world s') !! "a.txt" = Some (Fs.File "new") ∧
    Fs.files (world s') !! "b.txt" = None ∧
    Fs.files (world s') !! "c.txt" = None ∧
    Fs.files (world s') !! "d.txt" = Some (Fs.File EmptyString) ∧
    Fs.files (world s') !! contextPath
      = Some (Fs.File (Core.serializeContextManifest emptyManifest)).
Proof.
  set (s' := (executeTransaction [0; 1; 2; 3] contextPath [] [] "app" (mixedOps [])).2).
  assert (executeTransaction [0; 1; 2; 3] contextPath [] [] "app" (mixedOps [])
          = (Ok tt, s')) as Hrun by (vm_compute; reflexivity).
  exists s'. split; [exact Hrun|].
  rewrite (UpdaterMore.executeTransaction_commit_files _ _ _ _ _ _ _ Hrun).
  repeat split; vm_compute; reflexivity.
Defined.


Lemma executeTransaction_writes_previousContent_only_witness :
  ∃ s', executeTransaction [0; 1; 2; 3] contextPath [] [] "app" (mixedOps [])
          = (Ok tt, s') ∧
    previousContent <$> heap s' = [Some "old"; Some "bye"; None; None] ∧
    request <$> heap s' =
      [(OpWrite, "a.txt", Some "new"); (OpDelete, "b.txt", None);
       (OpWrite, "c.txt", None); (OpWrite, "d.txt", Some EmptyString)].
Proof.
  set (s' := (executeTransaction [0; 1; 2; 3] contextPath [] [] "app" (mixedOps [])).2).
  assert (executeTransaction [0; 1; 2; 3] contextPath [] [] "app" (mixedOps [])
          = (Ok tt, s')) as Hrun by (vm_compute; reflexivity).
  exists s'. split; [exact Hrun|]. split; [vm_compute; reflexivity|].
  rewrite (UpdaterMore.executeTransaction_writes_previousContent_only
             _ _ _ _ _ _ _ _ Hrun).
  reflexivity.
Defined.

(** The unlink of [b.txt] is made to fail after [a.txt] was overwritten:
    the fact of the call is not in the manifest object. *)
Lemma executeTransaction_failed_op_keeps_manifest_witness :
  ∃ s', executeTransaction [0; 1; 2; 3] contextPath [] [decision] "app"
          (mixedOps [None; None; None; Some "EBUSY"]) = (Err "EBUSY", s') ∧
    manifest s' = emptyManifest.
Proof.
  apply (UpdaterMore.executeTransaction_failed_op_keeps_manifest
           [0; 1; 2; 3] contextPath [] [decision] "app"
           (mixedOps [None; None; None; Some "EBUSY"]) "EBUSY"
           (for_of [0; 1; 2; 3] applyOp
              (with_completed [] (mixedOps [None; None; None; Some "EBUSY"]))).2).
  vm_compute. reflexivity.
Defined.

Lemma executeTransaction_skips_write_without_content_witness :
  applyOp 2 (for_of [0; 1] applyOp (with_completed [] (mixedOps []))).2
    = (Ok tt, (for_of [0; 1] applyOp (with_completed [] (mixedOps []))).2) ∧
  executeTransaction [0; 1; 2; 3] contextPath [] [] "app" (mixedOps [])
    = executeTransaction [0; 1; 3] contextPath [] [] "app" (mixedOps []).
Proof.
  apply (UpdaterMore.executeTransaction_skips_write_without_content
           [0; 1] 2 [3] contextPath [] [] "app" (mixedOps [])
           (for_of [0; 1] applyOp (with_completed [] (mixedOps []))).2
           (mkOp OpWrite "c.txt" None None)).
  - vm_compute. reflexivity.
  - reflexivity.
  - reflexivity.
  - reflexivity.
Defined.

Lemma executeTransaction_commit_trace_witness :
  ∃ s', executeTransaction [0; 1; 2; 3] contextPath [] [] "app" (mixedOps [])
          = (Ok tt, s') ∧
    completed s' = [0; 1; 3] ∧
    Fs.trace (world s') =
      [Fs.EvWrite "a.txt" "new"; Fs.EvUnlink "b.txt"; Fs.EvWrite "d.txt" EmptyString;
       Fs.EvWrite contextPath (Core.serializeContextManifest emptyManifest)].
Proof.
  set (s' := (executeTransaction [0; 1; 2; 3] contextPath [] [] "app" (mixedOps [])).2).
  assert (executeTransaction [0; 1; 2; 3] contextPath [] [] "app" (mixedOps [])
          = (Ok tt, s')) as Hrun by (vm_compute; reflexivity).
  exists s'. split; [exact Hrun|]. split; [reflexivity|].
  destruct (UpdaterMore.executeTransaction_commit_trace _ _ _ _ _ _ _ Hrun) as [_ ->].
  vm_compute. reflexivity.
Defined.
End UpdaterMoreExamples.

(** * The manifest object: committing the same refs again *)
Module ManifestMoreFacts.
Import Updater UpdaterSpec ManifestFacts.

Lemma putRef_cons x refs ref :
  putRef (x :: refs) ref =
    if decide (Core.file x = Core.file ref) then ref :: refs
    else x :: putRef refs ref.
Proof.
  unfold putRef. simpl. case_decide; [done|].
  by destruct (list_find _ refs) as [[i y]|].
Qed.

(** Of two refs for the same file, put one after the other, only the
    second is left. *)
Lemma putRef_absorb refs a b :
  Core.file a = Core.file b → putRef (putRef refs a) b = putRef refs b.
Proof.
  intros Hab. induction refs as [|x refs IH].
  - unfold putRef at 2. simpl. rewrite putRef_cons. by rewrite decide_True.
  - rewrite (putRef_cons x refs a), (putRef_cons x refs b).
    destruct (decide (Core.file x = Core.file a)) as [Hxa|Hxa].
    + rewrite putRef_cons, !decide_True by congruence. done.
    + rewrite putRef_cons, !decide_False by congruence. by rewrite IH.
Qed.

(** Refs for different files can be put in either order when the file of
    one of them is there already. *)
Lemma putRef_swap refs a b :
  Core.file a ≠ Core.file b → Core.file a ∈ (Core.file <$> refs) →
  putRef (putRef refs b) a = putRef (putRef refs a) b.
Proof.
  intros Hab. induction refs as [|x refs IH]; intros Hin.
  - by apply elem_of_nil in Hin.
  - rewrite (putRef_cons x refs a), (putRef_cons x refs b).
    destruct (decide (Core.file x = Core.file a)) as [Hxa|Hxa].
    + rewrite decide_False by congruence.
      rewrite !putRef_cons, decide_True, decide_False by congruence. done.
    + destruct (decide (Core.file x = Core.file b)) as [Hxb|Hxb].
      * rewrite !putRef_cons, decide_False, decide_True by congruence. done.
      * rewrite !putRef_cons, !decide_False by congruence. rewrite IH; [done|].
        simpl in Hin. apply elem_of_cons in Hin as [?|?]; [congruence|done].
Qed.

Lemma putRef_file_elem refs ref f :
  f ∈ (Core.file <$> refs) → f ∈ (Core.file <$> putRef refs ref).
Proof.
  intros Hin. destruct (putRef_files refs ref) as [[_ ->]|[_ ->]]; [done|].
  apply elem_of_app. by left.
Qed.

Lemma putRef_file_self refs ref : Core.file ref ∈ (Core.file <$> putRef refs ref).
Proof.
  destruct (putRef_files refs ref) as [[Hin ->]|[_ ->]].
  - by apply list_elem_of_In.
  - apply elem_of_app. right. by apply list_elem_of_singleton.
Qed.

Lemma putRefs_file_elem newRefs refs f :
  f ∈ (Core.file <$> refs) → f ∈ (Core.file <$> fold_left putRef newRefs refs).
Proof.
  revert refs. induction newRefs as [|r rest IH]; intros refs Hin; [done|].
  simpl. by apply IH, putRef_file_elem.
Qed.

Lemma putRefs_file_new newRefs refs r :
  r ∈ newRefs → Core.file r ∈ (Core.file <$> fold_left putRef newRefs refs).
Proof.
  revert refs. induction newRefs as [|a rest IH]; intros refs Hin.
  - by apply elem_of_nil in Hin.
  - simpl. apply elem_of_cons in Hin as [->|Hin]; [|by apply IH].
    apply putRefs_file_elem, putRef_file_self.
Qed.

(** A ref put before refs whose files are all there, and put again after
    them, could as well be put after them only. *)
Lemma putRefs_twice_last newRefs refs r :
  (∀ a, a ∈ newRefs → Core.file a ∈ (Core.file <$> refs)) →
  putRef (fold_left putRef newRefs (putRef refs r)) r
    = putRef (fold_left putRef newRefs refs) r.
Proof.
  revert refs. induction newRefs as [|a rest IH]; intros refs Hin; simpl.
  - by apply putRef_absorb.
  - assert (∀ a', a' ∈ rest → Core.file a' ∈ (Core.file <$> putRef refs a)) as Hrest.
    { intros a' Ha'. apply putRef_file_elem, Hin. by right. }
    destruct (decide (Core.file r = Core.file a)) as [Hra|Hra].
    + by rewrite putRef_absorb.
    + rewrite putRef_swap; [by apply IH|congruence|]. apply Hin. by left.
Qed.

Lemma putRefs_idempotent newRefs refs :
  fold_left putRef newRefs (fold_left putRef newRefs refs)
    = fold_left putRef newRefs refs.
Proof.
  revert refs. induction newRefs as [|r rest IH] using rev_ind; intros refs; [done|].
  rewrite !fold_left_app. simpl. rewrite putRefs_twice_last; [by rewrite IH|].
  intros a Ha. by apply putRefs_file_new.
Qed.

Lemma updateManifest_same_refs_again newRefs newFacts1 newFacts2 scopePath m :
  let m1 := updateManifest newRefs newFacts1 scopePath m in
  let m2 := updateManifest newRefs newFacts2 scopePath m1 in
  Core.refs <$> Core.scopes m2 = Core.refs <$> Core.scopes m1 ∧
  Core.refs (Core.global m2) = Core.refs (Core.global m1).
Proof.
  simpl. destruct (findScope scopePath m) as [[i sc]|] eqn:Hfind.
  - pose proof (UpdaterCommit.findScope_updateManifest newRefs newFacts1 _ _ _ _ Hfind)
      as Hfind1.
    destruct (updateManifest_found newRefs newFacts2 _ _ _ _ Hfind1) as (-> & Hi & _).
    simpl. rewrite putRefs_idempotent. split; [|done].
    rewrite list_fmap_insert. simpl. apply list_insert_id.
    by rewrite list_lookup_fmap, Hi.
  - rewrite (updateManifest_not_found newRefs newFacts1) by done.
    rewrite updateManifest_not_found; [done|]. exact Hfind.
Qed.
End ManifestMoreFacts.

Module UpdaterAgain.
Import Updater UpdaterSpec ManifestFacts ManifestMoreFacts.

Section WithSerializer.
Context `{!Core.Serializer}.

(** X7: a transaction that commits, on the same scope, the refs that the
    transaction before it committed leaves the refs of every scope as
    they are: putting the same refs again replaces each by itself and
    appends none. *)
Theorem executeTransaction_same_refs_again
    ops1 contextPath1 newFacts1 ops2 contextPath2 newFacts2 newRefs scopePath
    s s1 s1' s2 :
  executeTransaction ops1 contextPath1 newRefs newFacts1 scopePath s = (Ok tt, s1) →
  manifest s1' = manifest s1 →
  executeTransaction ops2 contextPath2 newRefs newFacts2 scopePath s1' = (Ok tt, s2) →
  Core.refs <$> Core.scopes (manifest s2) = Core.refs <$> Core.scopes (manifest s1) ∧
  Core.refs (Core.global (manifest s2)) = Core.refs (Core.global (manifest s1)).
Proof.
  intros Hrun1 Hm Hrun2.
  rewrite (UpdaterCommit.executeTransaction_Ok_manifest _ _ _ _ _ _ _ Hrun2), Hm.
  rewrite (UpdaterCommit.executeTransaction_Ok_manifest _ _ _ _ _ _ _ Hrun1).
  apply updateManifest_same_refs_again.
Qed.
End WithSerializer.
End UpdaterAgain.

Module UpdaterAgainExamples.
Import Updater UpdaterSpec Scenarios.
#[local] Existing Instance demoSerializer.

(** [src/api.ts] is put twice by each transaction and [src/new.ts] is
    new: after the second transaction the refs are those after the
    first. *)
Lemma executeTransaction_same_refs_again_witness :
  ∃ s1 s2,
    executeTransaction [] contextPath
      [Core.mkRef "src/api.ts" "sha:2"; Core.mkRef "src/new.ts" "sha:1";
       Core.mkRef "src/api.ts" "sha:3"] [] "app/api" metadataOnly = (Ok tt, s1) ∧
    executeTransaction [] contextPath
      [Core.mkRef "src/api.ts" "sha:2"; Core.mkRef "src/new.ts" "sha:1";
       Core.mkRef "src/api.ts" "sha:3"] [decision] "app/api" s1 = (Ok tt, s2) ∧
    Core.refs <$> Core.scopes (manifest s1) =
      [[Core.mkRef "src/api.ts" "sha:3"; Core.mkRef "src/db.ts" "sha:1";
        Core.mkRef "src/new.ts" "sha:1"]] ∧
    Core.refs <$> Core.scopes (manifest s2) = Core.refs <$> Core.scopes (manifest s1).
Proof.
  set (newRefs := [Core.mkRef "src/api.ts" "sha:2"; Core.mkRef "src/new.ts" "sha:1";
                   Core.mkRef "src/api.ts" "sha:3"]).
  set (s1 := (executeTransaction [] contextPath newRefs [] "app/api" metadataOnly).2).
  set (s2 := (executeTransaction [] contextPath newRefs [decision] "app/api" s1).2).
  assert (executeTransaction [] contextPath newRefs [] "app/api" metadataOnly
          = (Ok tt, s1)) as Hrun1 by (vm_compute; reflexivity).
  assert (executeTransaction [] contextPath newRefs [decision] "app/api" s1
          = (Ok tt, s2)) as Hrun2 by (vm_compute; reflexivity).
  exists s1, s2. split; [exact Hrun1|]. split; [exact Hrun2|].
  split; [vm_compute; reflexivity|].
  exact (proj1 (UpdaterAgain.executeTransaction_same_refs_again
                  [] contextPath [] [] contextPath [decision] newRefs "app/api"
                  metadataOnly s1 s1 s2 Hrun1 eq_refl Hrun2)).
Defined.
End UpdaterAgainExamples.

(** * The system scaffolder: what a run leaves alone and what it puts in
      place *)
Module ScaffoldMoreFacts.
Import SystemManager ScaffoldSpec ScaffoldMoreSpec ScaffoldFacts FsSpec FsFacts.











End ScaffoldMoreFacts.

Module ScaffoldMore.
Import SystemManager ScaffoldSpec ScaffoldMoreSpec ScaffoldFacts ScaffoldMoreFacts.
Import FsSpec FsFacts.


(** X9: after a run that returned, each component has its directory, its
    skeleton, its [.claudiv] directory and its context manifest, the
    project manifest lists the components of the document, and the last
    entry of [created] is the one for the project manifest. *)
Theorem createSystemComponents_returns system projectRoot s created1 s1 :
  createSystemComponents system projectRoot s = (Ok created1, s1) →
  Forall (λ c, componentPresent projectRoot c s1) (Project.components system) ∧
  Fs.files (world s1) !! Fs.join projectRoot "claudiv.project.cdml"
    = Some (Fs.File (projectManifestContent system)) ∧
  last created1 = Some "claudiv.project.cdml (updated)".
Proof.
  intros Hr.
  destruct (ScaffoldIdempotence.createSystemComponents_inv _ _ _ _ _ Hr) as [Hc Hm].
  split; [done|]. split; [done|]. revert Hr.
  unfold createSystemComponents. unfold modify at 1. intros Hr.
  apply bind_inv in Hr as [([] & s0 & H0 & Hr)|(e & _ & ?)]; [|done].
  apply bind_inv in Hr as [([] & sa & Ha & Hr)|(e & _ & ?)]; [|done].
  apply bind_inv in Hr as [([] & sb & Hb & Hr)|(e & _ & ?)]; [|done].
  unfold push, modify, gets in Hr. unfold_m. simplify_eq. simpl. apply last_snoc.
Qed.

(** X10: when [git submodule add] fails for a component marked as a
    submodule, the component is scaffolded from there exactly as a
    component that is not a submodule: the failure is caught and the
    directory is made with [mkdir]. *)
Theorem createComponent_git_failure_falls_back
    system projectRoot name type description s e rest :
  Fs.files (world s) !! Fs.join projectRoot name = None →
  Fs.faults (world s) = Some e :: rest →
  createComponent system projectRoot (Component.mk name type true description) s =
  createComponent system projectRoot (Component.mk name type false description)
    (with_world
       (Fs.mkWorld (Fs.files (world s)) rest
          (Fs.trace (world s) ++ [Fs.EvSubmodule name]) (Fs.log (world s))) s).
Proof.
  intros Hdir Hfaults. destruct s as [c [f fl t lg]]. simpl in *. subst fl.
  unfold createComponent. simpl.
  unfold existsSync, gitSubmoduleAdd, mkdir, fs, zoom, Fs.existsSync, Fs.fault,
    Fs.record, Fs.with_faults.
  unfold_m. simpl. rewrite Hdir. simpl. rewrite Hdir. simpl. done.
Qed.
End ScaffoldMore.

Module ScaffoldMoreExamples.
Import SystemManager ScaffoldSpec ScaffoldScenarios MoreScaffoldScenarios.


Lemma createSystemComponents_returns_witness :
  ∃ created1, firstRun.1 = Ok created1 ∧
    Forall (λ c, componentPresent projectRoot c firstRun.2) (Project.components shop) ∧
    Fs.files (world firstRun.2) !! "proj/claudiv.project.cdml"
      = Some (Fs.File (projectManifestContent shop)) ∧
    last created1 = Some "claudiv.project.cdml (updated)".
Proof.
  assert (∃ created1, firstRun = (Ok created1, firstRun.2)) as [created1 Hrun]
    by (eexists; vm_compute; reflexivity).
  destruct (ScaffoldMore.createSystemComponents_returns
              shop projectRoot _ created1 firstRun.2 Hrun) as (Hc & Hm & Hl).
  exists created1. split; [by rewrite Hrun|]. split; [exact Hc|]. split; [exact Hm|exact Hl].
Defined.

(** [api] is a submodule and [git submodule add] fails: its directory is
    made by [mkdir], its skeleton and its context manifest are written. *)
Lemma createComponent_git_failure_falls_back_witness :
  ∃ s', createComponent shop projectRoot (Component.mk "api" "rest" true (Some "B"))
          gitFails = (Ok tt, s') ∧
    Fs.trace (world s') =
      [Fs.EvSubmodule "api"; Fs.EvMkdir "proj/api";
       Fs.EvWrite "proj/api/api.cdml"
         (generateComponentSkeleton (Component.mk "api" "rest" true (Some "B")) "shop");
       Fs.EvMkdir "proj/api/.claudiv";
       Fs.EvWrite "proj/api/.claudiv/context.cdml"
         (generateComponentContext (Component.mk "api" "rest" true (Some "B")) "shop")].
Proof.
  rewrite (ScaffoldMore.createComponent_git_failure_falls_back
             shop projectRoot "api" "rest" (Some "B") gitFails
             "fatal: not a git repository" []); [|reflexivity..].
  eexists. split; vm_compute; reflexivity.
Defined.
End ScaffoldMoreExamples.

(** * The engine: what the processing of a change, the plan handlers and the
      add handler touch *)
Module EngineMoreFacts.
Import Engine EngineSpec EngineMoreSpec EngineFacts.

Lemma untouched_refl s : untouched s s.
Proof. by repeat split. Qed.

Lemma untouched_trans s1 s2 s3 : untouched s1 s2 → untouched s2 s3 → untouched s1 s3.
Proof. intros (? & ? & ? & ?) (? & ? & ? & ?). repeat split; congruence. Qed.

Lemma Silent_bind {A B} (m : M EngineState A) (k : A → M EngineState B) :
  Silent m → (∀ a, Silent (k a)) → Silent (m ≫= k).
Proof.
  intros Hm Hk s r s' [(a & s1 & Ha & Hr)|(e & Ha & ->)]%bind_inv.
  - eapply untouched_trans; [by eapply Hm|by eapply Hk].
  - by eapply Hm.
Qed.

Lemma Silent_ret {A} (a : A) : Silent (ret a).
Proof. intros s r s'. unfold ret. intros; simplify_eq. apply untouched_refl. Qed.

Lemma Silent_logger lvl line : Silent (logger lvl line).
Proof.
  intros s r s'. unfold logger, fs, zoom, Fs.logger, modify.
  intros; simplify_eq. by repeat split.
Qed.

Lemma Silent_stdout_write text : Silent (stdout_write text).
Proof. intros s r s'. unfold stdout_write, modify. intros; simplify_eq. by repeat split. Qed.

Lemma Silent_call {A} (x : result A) : Silent (call x).
Proof. intros s r s'. unfold call. intros; simplify_eq. apply untouched_refl. Qed.

Lemma Silent_gets {A} (f : EngineState → A) : Silent (gets f).
Proof. intros s r s'. unfold gets. intros; simplify_eq. apply untouched_refl. Qed.

Lemma Silent_executeClaudeHeadless : Silent executeClaudeHeadless.
Proof.
  intros s r s'. unfold executeClaudeHeadless.
  destruct (claude s); intros; simplify_eq; by repeat split.
Qed.

Lemma Silent_for_of {A} (xs : list A) body :
  (∀ x, Silent (body x)) → Silent (for_of xs body).
Proof.
  intros Hbody. induction xs as [|x xs IH]; simpl; [apply Silent_ret|].
  apply Silent_bind; [apply Hbody|by intros _].
Qed.

Lemma Idle_Silent {A} (m : M EngineState A) :
  Silent m → (∀ s r s', m s = (r, s') → claude s' = claude s) → Idle m.
Proof. intros Hm Hc s r s' Hr. split; [by eapply Hm|by eapply Hc]. Qed.



Lemma Idle_logger lvl line : Idle (logger lvl line).
Proof.
  apply Idle_Silent; [apply Silent_logger|]. intros s r s'.
  unfold logger, fs, zoom, Fs.logger, modify. by intros; simplify_eq.
Qed.

Lemma Idle_call {A} (x : result A) : Idle (call x).
Proof. intros s r s'. unfold call. intros; simplify_eq. split; [apply untouched_refl|done]. Qed.

Lemma Idle_call_bind {A B} (x : result A) (k : A → M EngineState B) :
  (∀ a, x = Ok a → Idle (k a)) → Idle (call x ≫= k).
Proof.
  intros Hk s r s'. unfold call. unfold_m. destruct x as [a|e]; [by apply Hk|].
  intros; simplify_eq. split; [apply untouched_refl|done].
Qed.


Ltac engine_run :=
  unfold Engine.processChange, Engine.handlePlanAnswers, Engine.onAdd,
    logger, readFile, writeFile, fs, zoom, call, executeClaudeHeadless,
    stdout_write, with_contextManifest, with_cache, with_world,
    Fs.logger, Fs.readFile, Fs.writeFile, Fs.fault, Fs.record, Fs.with_files,
    Fs.with_faults in *;
  unfold_m; simpl in *.

Ltac engine_cases := repeat (case_match; simplify_eq; simpl in * ).

Section WithSession.
Context `{!CoreLib}.
Variables (projectRoot : string) (registry : option ProjectRegistry)
  (contextPath : string) (isDryRun : bool) (scopeFilter : option string).

#[local] Abbreviation processChange :=
  (processChange projectRoot registry contextPath isDryRun).

(** All that one change can do: the manifest object and the cache are
    left alone, and the one mutating call there can be is the write of
    the manifest file after a generation that succeeded. *)
Lemma processChange_inv change s r s' :
  processChange change s = (r, s') →
  contextManifest s' = contextManifest s ∧ cache s' = cache s ∧
  (Fs.trace (world s') = Fs.trace (world s) ∧
   Fs.files (world s') = Fs.files (world s) ∧
   (isDryRun = true ∨ contextManifest s = None → claude s' = claude s) ∨
   isDryRun = false ∧
   ∃ m result rest,
     contextManifest s = Some m ∧ claude s = Ok result :: rest ∧
     success result = true ∧ claude s' = rest ∧
     Fs.trace (world s') =
       Fs.trace (world s) ++ [Fs.EvWrite contextPath (Core.serializeContextManifest m)] ∧
     (Fs.files (world s') = Fs.files (world s) ∨
      Fs.files (world s') =
        <[contextPath := Fs.File (Core.serializeContextManifest m)]>
          (Fs.files (world s)))).
Proof.
  destruct s as [c cm cl td so [f fl t lg]]. intros Hr.
  engine_run. engine_cases.
  all: split; [done|]; split; [done|].
  all: first [ left; split; [done|]; split; [done|]; intros [?|?]; by simplify_eq
             | right; split; [done|]; eexists _, _, _; by eauto 10 ].
Qed.

#[local] Abbreviation processFileChange :=
  (processFileChange projectRoot registry contextPath isDryRun scopeFilter).

(** The changes of a diff that pass the scope filter. *)
#[local] Abbreviation filtered diff :=
  (match scopeFilter with
   | Some f =>
       if truthy f then filter (λ c, includes (path c) f = true) (getChangedElements diff)
       else getChangedElements diff
   | None => getChangedElements diff
   end).

(** For a document with no plan directive and no plan question, the
    cycle of a file only logs, unless it goes on to process the changes
    that pass the scope filter. *)
Lemma processFileChange_plain_inv filePath newContent oldContent s r s' :
  (∀ dom directives questions,
     parseSpecFile newContent = Ok (dom, directives, questions) →
     directives = false ∧ questions = false) →
  processFileChange filePath newContent oldContent s = (r, s') →
  (untouched s s' ∧ claude s' = claude s) ∨
  ∃ diff s0,
    diffCdml oldContent newContent = Ok diff ∧
    untouched s s0 ∧ claude s0 = claude s ∧
    for_of (filtered diff) processChange s0 = (r, s').
Proof.
  intros Hplain. unfold Engine.processFileChange. intros Hr.
  apply bind_inv in Hr as [(diff & sa & Hdiff & Hr)|(e & Hdiff & ->)];
    unfold call in Hdiff; simplify_eq.
  2:{ left. split; [apply untouched_refl|done]. }
  destruct (negb (hasChanges diff) && truthy oldContent).
  { left. by apply Idle_logger in Hr. }
  apply bind_inv in Hr as [([] & sb & Hlog & Hr)|(e & Hlog & ->)];
    apply Idle_logger in Hlog as [Hub Hcb]; [|by left].
  apply bind_inv in Hr as [([[dom d] q] & sc & Hparse & Hr)|(e & Hparse & ->)];
    unfold call in Hparse; simplify_eq; [|by left].
  match goal with
  | Hp : parseSpecFile newContent = Ok _ |- _ => destruct (Hplain _ _ _ Hp) as [-> ->]
  end.
  apply bind_inv in Hr as [([] & sd & Hd & Hr)|(e & Hd & ?)];
    unfold ret in Hd; simplify_eq.
  apply bind_inv in Hr as [([] & se & He & Hr)|(e & He & ?)];
    unfold ret in He; simplify_eq.
  destruct (filtered diff) as [|c rest] eqn:Hfiltered.
  - left. apply Idle_logger in Hr as [Hu Hc].
    split; [by eapply untouched_trans|congruence].
  - right. exists diff, se. rewrite Hfiltered. by split_and!.
Qed.
End WithSession.
End EngineMoreFacts.

Module EngineMore.
Import Engine EngineSpec EngineMoreSpec EngineFacts EngineMoreFacts.

Section WithSession.
Context `{!CoreLib}.
Variables (projectRoot : string) (registry : option ProjectRegistry)
  (contextPath : string) (isDryRun : bool) (scopeFilter : option string).

#[local] Abbreviation processChange :=
  (processChange projectRoot registry contextPath isDryRun).

(** X11: however the processing of one change ends, the manifest object
    is as it was before it, and so is every file other than the manifest
    file.  (The context assembly and the generation call are library
    calls; they are taken to return a result and to write nothing.  The
    copy that the rollback assigns back is the manifest as it was when
    the processing began.) *)
Theorem processChange_touches_manifest_file_only change s r s' p :
  processChange change s = (r, s') →
  p ≠ contextPath →
  contextManifest s' = contextManifest s ∧
  Fs.files (world s') !! p = Fs.files (world s) !! p.
Proof.
  intros (Hm & _ & Hcases)%processChange_inv Hne. split; [done|].
  destruct Hcases as [(_ & -> & _)|(_ & m & result & rest & _ & _ & _ & _ & _ & Hf)];
    [done|].
  destruct Hf as [-> | ->]; [done|]. by rewrite lookup_insert_ne.
Qed.

(** X12: the processing of one change makes a mutating file system call
    of its own only when the session is not a dry run, a manifest is
    loaded and the generation call has settled to a success; the call is
    then the write of the serialized manifest to the manifest path, and
    it is the only one. *)
Theorem processChange_writes_only_after_generation change s r s' :
  processChange change s = (r, s') →
  Fs.trace (world s') ≠ Fs.trace (world s) →
  isDryRun = false ∧
  ∃ m result rest,
    contextManifest s = Some m ∧ claude s = Ok result :: rest ∧
    success result = true ∧
    Fs.trace (world s') =
      Fs.trace (world s) ++ [Fs.EvWrite contextPath (Core.serializeContextManifest m)].
Proof.
  intros (_ & _ & Hcases)%processChange_inv Htrace.
  destruct Hcases as [(? & _)|(Hdry & m & result & rest & ? & ? & ? & _ & ? & _)];
    [done|].
  split; [done|]. by exists m, result, rest.
Qed.

(** X14: the expansion of the plan directives of a document changes no
    file, makes no mutating file system call of its own and leaves the
    manifest object and the cache alone; it makes at most one generation
    call for each directive. *)
Theorem handlePlanDirectives_only_generates dom s r s' :
  handlePlanDirectives dom s = (r, s') →
  untouched s s' ∧
  length (claude s) ≤ length (claude s') + length (detectPlanDirectives dom).
Proof.
  unfold handlePlanDirectives. revert s.
  induction (detectPlanDirectives dom) as [|directive rest IH]; intros s Hr;
    simpl in Hr.
  - unfold ret in Hr. simplify_eq. split; [apply untouched_refl|lia].
  - apply bind_inv in Hr as [([] & s1 & Hb & Hr)|(e & Hb & ->)].
    + assert (untouched s s1 ∧ length (claude s) ≤ length (claude s1) + 1)
        as [Hu Hl].
      { destruct s as [c cm cl td so [f fl t lg]]. clear Hr IH.
        engine_run. engine_cases. all: split; [by repeat split|simpl; lia]. }
      apply IH in Hr as [Hu' Hl'].
      split; [by eapply untouched_trans|simpl; lia].
    + assert (untouched s s' ∧ length (claude s) ≤ length (claude s') + 1)
        as [Hu Hl].
      { destruct s as [c cm cl td so [f fl t lg]]. clear IH.
        engine_run. engine_cases. all: split; [by repeat split|simpl; lia]. }
      split; [done|simpl; lia].
Qed.

(** X15: when every plan question is answered and a manifest is loaded,
    a call that returns has appended the facts of the answers to the
    facts of the global scope of the manifest object, changed nothing
    else of it, written its serialization to the manifest file and then
    the document without its questions to the spec file. *)
Theorem handlePlanAnswers_records_then_rewrites dom filePath s s' m :
  allQuestionsAnswered (parsePlanQuestions dom) = true →
  contextManifest s = Some m →
  handlePlanAnswers contextPath dom filePath s = (Ok tt, s') →
  ∃ m', contextManifest s' = Some m' ∧
    Core.facts (Core.global m') =
      Core.facts (Core.global m) ++
      questionsToFacts (parsePlanQuestions dom) ("plan:" +:+ today s) ∧
    Core.refs (Core.global m') = Core.refs (Core.global m) ∧
    Core.scopes m' = Core.scopes m ∧
    Fs.files (world s') =
      <[filePath := Fs.File (htmlWithoutPlanQuestions dom)]>
        (<[contextPath := Fs.File (Core.serializeContextManifest m')]>
           (Fs.files (world s))) ∧
    Fs.trace (world s') =
      Fs.trace (world s) ++
      [Fs.EvWrite contextPath (Core.serializeContextManifest m');
       Fs.EvWrite filePath (htmlWithoutPlanQuestions dom)].
Proof.
  destruct s as [c cm cl td so [f fl t lg]]. simpl. intros Hall -> Hr.
  engine_run. rewrite Hall in Hr. simpl in Hr. engine_cases.
  all: eexists; split; [done|]; simpl; by rewrite <- ?app_assoc.
Qed.

(** X16: when a call raises, the spec file is as it was, its questions
    still in it: the document is rewritten last, after the facts of the
    answers have been written to the manifest file. *)
Theorem handlePlanAnswers_failure_keeps_document dom filePath s e s' :
  handlePlanAnswers contextPath dom filePath s = (Err e, s') →
  filePath ≠ contextPath →
  Fs.files (world s') !! filePath = Fs.files (world s) !! filePath.
Proof.
  destruct s as [c cm cl td so [f fl t lg]]. simpl. intros Hr Hne.
  engine_run. engine_cases.
  all: by rewrite ?lookup_insert_ne.
Qed.

(** X17: the add handler never raises; it sets the cache entry of the
    path to the content of the file when the file can be read and leaves
    the cache as it is otherwise, and it does nothing else: no file
    changes, no generation call is made, the manifest object is as it
    was. *)
Theorem onAdd_caches_only relativePath s :
  ∃ s', onAdd projectRoot relativePath s = (Ok tt, s') ∧
    cache s' =
      match (Fs.readFile (Fs.join projectRoot relativePath) (world s)).1 with
      | Ok content => <[relativePath := content]> (cache s)
      | Err _ => cache s
      end ∧
    Fs.files (world s') = Fs.files (world s) ∧
    Fs.trace (world s') = Fs.trace (world s) ∧
    contextManifest s' = contextManifest s ∧
    claude s' = claude s.
Proof.
  destruct s as [c cm cl td so [f fl t lg]].
  destruct (onAdd projectRoot relativePath _) as [r s'] eqn:Hr.
  engine_run. engine_cases. all: eexists; by repeat split.
Qed.
End WithSession.

Section Idle.
Context `{!CoreLib}.
Variables (projectRoot : string) (registry : option ProjectRegistry)
  (contextPath : string) (isDryRun : bool) (scopeFilter : option string).

#[local] Abbreviation processChange' :=
  (Engine.processChange projectRoot registry contextPath isDryRun).
#[local] Abbreviation processFileChange :=
  (Engine.processFileChange projectRoot registry contextPath isDryRun scopeFilter).

Lemma processChanges_idle changes s r s' :
  isDryRun = true ∨ contextManifest s = None →
  for_of changes processChange' s = (r, s') →
  untouched s s' ∧ claude s' = claude s.
Proof.
  revert s. induction changes as [|change rest IH]; intros s Hcond Hr; simpl in Hr.
  - unfold ret in Hr. simplify_eq. split; [apply untouched_refl|done].
  - assert (∀ s1 r1, processChange' change s = (r1, s1) →
              untouched s s1 ∧ claude s1 = claude s) as Hone.
    { intros s1 r1 (Hm & Hc & Hcases)%processChange_inv.
      destruct Hcases as [(Ht & Hf & Hcl)|(Hdry & m & ? & ? & Hsome & _)].
      - split; [by repeat split|by apply Hcl].
      - destruct Hcond as [?|Hnone]; congruence. }
    apply bind_inv in Hr as [([] & s1 & H1 & Hr)|(e & H1 & ->)];
      apply Hone in H1 as [Hu Hc]; [|done].
    apply IH in Hr as [Hu' Hc'].
    + split; [by eapply untouched_trans|congruence].
    + destruct Hcond as [?|Hnone]; [by left|right].
      destruct Hu as (_ & _ & -> & _). done.
Qed.

(** X13: in a dry run, and in a session with no context manifest, the
    processing of a saved document that has no plan directive and no
    plan question changes no file, makes no mutating file system call
    and no generation call, and leaves the manifest object and the cache
    alone. *)
Theorem processFileChange_dry_run_is_idle filePath newContent oldContent s r s' :
  isDryRun = true ∨ contextManifest s = None →
  (∀ dom directives questions,
     parseSpecFile newContent = Ok (dom, directives, questions) →
     directives = false ∧ questions = false) →
  processFileChange filePath newContent oldContent s = (r, s') →
  untouched s s' ∧ claude s' = claude s.
Proof.
  intros Hcond Hplain Hr.
  destruct (processFileChange_plain_inv _ _ _ _ _ _ _ _ _ _ _ Hplain Hr)
    as [?|(diff & s0 & _ & Hu & Hc & Hr0)]; [done|]. clear Hr. rename Hr0 into Hr.
  apply processChanges_idle in Hr as [Hu' Hc'].
  - split; [by eapply untouched_trans|congruence].
  - destruct Hcond as [?|Hnone]; [by left|right].
    destruct Hu as (_ & _ & -> & _). done.
Qed.

(** X28: when a scope filter is set and occurs in the path of no changed
    element, the processing of a saved document that has no plan
    directive and no plan question makes no generation call and no
    mutating file system call: a change outside the scope is never
    processed. *)
Theorem processFileChange_scope_filter_excludes
    filePath newContent oldContent s r s' f :
  scopeFilter = Some f → f ≠ EmptyString →
  (∀ diff change, diffCdml oldContent newContent = Ok diff →
     change ∈ getChangedElements diff →
     ¬ ∃ pre post, path change = pre +:+ f +:+ post) →
  (∀ dom directives questions,
     parseSpecFile newContent = Ok (dom, directives, questions) →
     directives = false ∧ questions = false) →
  processFileChange filePath newContent oldContent s = (r, s') →
  untouched s s' ∧ claude s' = claude s.
Proof.
  intros Hfilter Htruthy Hnone Hplain Hr.
  destruct (processFileChange_plain_inv _ _ _ _ _ _ _ _ _ _ _ Hplain Hr)
    as [?|(diff & s0 & Hdiff & Hu & Hc & Hr0)]; [done|]. clear Hr. rename Hr0 into Hr.
  rewrite Hfilter in Hr. destruct f as [|c rest]; [done|]. simpl in Hr.
  rewrite ManifestFacts.filter_none in Hr.
  - simpl in Hr. unfold ret in Hr. by simplify_eq.
  - intros change Hin Hinc%StringFacts.includes_spec. by eapply Hnone.
Qed.
End Idle.
End EngineMore.

Module EngineMoreExamples.
Import Engine EngineSpec EngineMoreSpec EngineScenarios MoreEngineScenarios.

(** The generation succeeds: the manifest file is written, the spec file
    and the manifest object are as they were. *)
Lemma processChange_touches_manifest_file_only_witness :
  ∃ s', processChange projectRoot None contextPath false
          (mkChange "app" "app" "modified") generationSucceeds = (Ok tt, s') ∧
    contextManifest s' = Some Scenarios.emptyManifest ∧
    Fs.files (world s') !! "proj/app.cdml" = Some (Fs.File "<app>v2</app>").
Proof.
  set (s' := (processChange projectRoot None contextPath false
                (mkChange "app" "app" "modified") generationSucceeds).2).
  assert (processChange projectRoot None contextPath false
            (mkChange "app" "app" "modified") generationSucceeds = (Ok tt, s'))
    as Hrun by (vm_compute; reflexivity).
  exists s'. split; [exact Hrun|].
  apply (EngineMore.processChange_touches_manifest_file_only
           projectRoot None contextPath false _ _ _ _ "proj/app.cdml" Hrun).
  discriminate.
Defined.

Lemma processChange_writes_only_after_generation_witness :
  ∃ s' m, processChange projectRoot None contextPath false
            (mkChange "app" "app" "modified") generationSucceeds = (Ok tt, s') ∧
    contextManifest generationSucceeds = Some m ∧
    Fs.trace (world s') =
      [Fs.EvWrite contextPath (Core.serializeContextManifest m)].
Proof.
  set (s' := (processChange projectRoot None contextPath false
                (mkChange "app" "app" "modified") generationSucceeds).2).
  assert (processChange projectRoot None contextPath false
            (mkChange "app" "app" "modified") generationSucceeds = (Ok tt, s'))
    as Hrun by (vm_compute; reflexivity).
  destruct (EngineMore.processChange_writes_only_after_generation
              projectRoot None contextPath false _ _ _ _ Hrun)
    as (_ & m & result & rest & Hm & _ & _ & Htrace).
  - vm_compute. discriminate.
  - exists s', m. split; [exact Hrun|]. split; [exact Hm|exact Htrace].
Defined.

(** The same save in a dry run: the outcome of the generation call is not
    taken and nothing is written. *)
Lemma processFileChange_dry_run_is_idle_witness :
  ∃ r s', processFileChange projectRoot None contextPath true None
            "proj/app.cdml" "<app>v2</app>" "<app>v1</app>" generationSucceeds
            = (r, s') ∧
    claude s' = claude generationSucceeds ∧ Fs.trace (world s') = [].
Proof.
  set (out := processFileChange projectRoot None contextPath true None
                "proj/app.cdml" "<app>v2</app>" "<app>v1</app>" generationSucceeds).
  exists out.1, out.2. split; [apply surjective_pairing|].
  destruct (EngineMore.processFileChange_dry_run_is_idle
              projectRoot None contextPath true None
              "proj/app.cdml" "<app>v2</app>" "<app>v1</app>"
              generationSucceeds out.1 out.2) as [(_ & Ht & _) Hc].
  - by left.
  - intros dom directives questions. simpl. by intros [= _ <- <-].
  - apply surjective_pairing.
  - split; [exact Hc|exact Ht].
Defined.

Lemma handlePlanDirectives_only_generates_witness :
  ∃ s', @handlePlanDirectives planLib tt generationSucceeds = (Ok tt, s') ∧
    untouched generationSucceeds s' ∧ claude s' = [].
Proof.
  set (s' := (@handlePlanDirectives planLib tt generationSucceeds).2).
  assert (@handlePlanDirectives planLib tt generationSucceeds = (Ok tt, s'))
    as Hrun by (vm_compute; reflexivity).
  exists s'. split; [exact Hrun|].
  split; [|reflexivity].
  exact (proj1 (@EngineMore.handlePlanDirectives_only_generates planLib tt _ _ _ Hrun)).
Defined.

Lemma handlePlanAnswers_records_then_rewrites_witness :
  ∃ s' m', @handlePlanAnswers planLib contextPath tt "proj/app.cdml" generationSucceeds
             = (Ok tt, s') ∧
    contextManifest s' = Some m' ∧
    Core.facts (Core.global m') = [Core.mkFact "Sign-in uses JWT" "plan:2026-01-15"] ∧
    Fs.trace (world s') =
      [Fs.EvWrite contextPath (Core.serializeContextManifest m');
       Fs.EvWrite "proj/app.cdml" "<app>v2</app>"].
Proof.
  set (s' := (@handlePlanAnswers planLib contextPath tt "proj/app.cdml"
                generationSucceeds).2).
  assert (@handlePlanAnswers planLib contextPath tt "proj/app.cdml" generationSucceeds
          = (Ok tt, s')) as Hrun by (vm_compute; reflexivity).
  destruct (@EngineMore.handlePlanAnswers_records_then_rewrites planLib contextPath
              tt "proj/app.cdml" generationSucceeds s' Scenarios.emptyManifest
              eq_refl eq_refl Hrun)
    as (m' & Hm' & Hfacts & _ & _ & _ & Htrace).
  exists s', m'. split; [exact Hrun|]. split; [exact Hm'|].
  split; [exact Hfacts|exact Htrace].
Defined.

(** The write of the manifest file fails: the call raises and the spec
    file still holds the document with its questions. *)
Lemma handlePlanAnswers_failure_keeps_document_witness :
  ∃ s', @handlePlanAnswers planLib contextPath tt "proj/app.cdml" manifestWriteFails
          = (Err "ENOSPC", s') ∧
    Fs.files (world s') !! "proj/app.cdml" = Some (Fs.File "<app>v2?</app>").
Proof.
  set (s' := (@handlePlanAnswers planLib contextPath tt "proj/app.cdml"
                manifestWriteFails).2).
  assert (@handlePlanAnswers planLib contextPath tt "proj/app.cdml" manifestWriteFails
          = (Err "ENOSPC", s')) as Hrun by (vm_compute; reflexivity).
  exists s'. split; [exact Hrun|].
  rewrite (@EngineMore.handlePlanAnswers_failure_keeps_document planLib contextPath
             tt "proj/app.cdml" manifestWriteFails "ENOSPC" s' Hrun).
  - reflexivity.
  - discriminate.
Defined.

(** The one changed element is at [app] and the scope is [api]. *)
Lemma processFileChange_scope_filter_excludes_witness :
  ∃ r s', processFileChange projectRoot None contextPath false (Some "api")
            "proj/app.cdml" "<app>v2</app>" "<app>v1</app>" generationSucceeds
            = (r, s') ∧
    claude s' = claude generationSucceeds ∧ Fs.trace (world s') = [].
Proof.
  set (out := processFileChange projectRoot None contextPath false (Some "api")
                "proj/app.cdml" "<app>v2</app>" "<app>v1</app>" generationSucceeds).
  exists out.1, out.2. split; [apply surjective_pairing|].
  destruct (EngineMore.processFileChange_scope_filter_excludes
              projectRoot None contextPath false (Some "api")
              "proj/app.cdml" "<app>v2</app>" "<app>v1</app>"
              generationSucceeds out.1 out.2 "api") as [(_ & Ht & _) Hc].
  - reflexivity.
  - discriminate.
  - intros diff change [= <-] Hin Hinc%StringFacts.includes_spec.
    apply list_elem_of_singleton in Hin as ->. discriminate Hinc.
  - intros dom directives questions. simpl. by intros [= _ <- <-].
  - apply surjective_pairing.
  - split; [exact Hc|exact Ht].
Defined.
End EngineMoreExamples.

(** * The engine: [handleInit], [checkSystemComponents] and
      [parseSystemCdml] *)
Module EngineInitFacts.
Import Engine EngineSpec EngineMoreSpec EngineInitSpec EngineFacts EngineMoreFacts.

Lemma string_app_assoc (a b c : string) : (a +:+ b) +:+ c = a +:+ (b +:+ c).
Proof.
  induction a as [|x a IH]; [done|].
  change (String x ((a +:+ b) +:+ c) = String x (a +:+ (b +:+ c))). by f_equal.
Qed.

(** The four paths of [handleInit], each the project root followed by a
    fixed text. *)
Lemma init_paths projectRoot :
  Fs.join projectRoot ".claudiv" = projectRoot +:+ "/.claudiv" ∧
  Fs.join (Fs.join projectRoot ".claudiv") "context.cdml"
    = projectRoot +:+ "/.claudiv/context.cdml" ∧
  Fs.join (Fs.join projectRoot ".claudiv") "config.json"
    = projectRoot +:+ "/.claudiv/config.json" ∧
  Fs.join projectRoot "claudiv.project.cdml" = projectRoot +:+ "/claudiv.project.cdml".
Proof. unfold Fs.join. by rewrite !string_app_assoc. Qed.

Lemma append_ne (a b c : string) : b ≠ c → a +:+ b ≠ a +:+ c.
Proof. intros Hne Heq. by apply (inj (String.append a)) in Heq. Qed.

Lemma init_guard_inv p (m : M EngineState unit) s r s' :
  (ex ← existsSync p; if ex : bool then ret tt else m) s = (r, s') →
  is_Some (Fs.files (world s) !! p) ∧ r = Ok tt ∧ s' = s ∨
  Fs.files (world s) !! p = None ∧ m s = (r, s').
Proof.
  unfold existsSync, fs, zoom, Fs.existsSync. unfold_m. destruct s as [c cm cl td so w].
  simpl. case_bool_decide as Hp; intros Hr.
  - left. by simplify_eq.
  - right. split; [by apply eq_None_not_Some|done].
Qed.

Lemma init_guard_skip p (m : M EngineState unit) s :
  is_Some (Fs.files (world s) !! p) →
  (ex ← existsSync p; if ex : bool then ret tt else m) s = (Ok tt, s).
Proof.
  intros Hp. unfold existsSync, fs, zoom, Fs.existsSync. unfold_m.
  destruct s as [c cm cl td so w]. simpl in *. by rewrite bool_decide_eq_true_2.
Qed.

Lemma engine_fs_inv {A} (m : M Fs.World A) s r s' :
  fs m s = (r, s') → ∃ w', m (world s) = (r, w') ∧ s' = with_world w' s.
Proof.
  unfold fs, zoom. destruct (m (world s)) as [r' w'] eqn:Hm.
  intros; simplify_eq. eauto.
Qed.

Lemma engine_logger_inv lvl line s r s' :
  logger lvl line s = (r, s') →
  r = Ok tt ∧ Fs.files (world s') = Fs.files (world s) ∧
  Fs.trace (world s') = Fs.trace (world s) ∧ Fs.faults (world s') = Fs.faults (world s) ∧
  cache s' = cache s ∧ contextManifest s' = contextManifest s ∧ claude s' = claude s.
Proof.
  unfold logger, fs, zoom, Fs.logger, modify. intros; simplify_eq. by repeat split.
Qed.

(** [if (!existsSync(p)) { await mkdir(p, ...) }] *)
Lemma init_mkdir_inv p s r s' :
  (ex ← existsSync p; if ex : bool then ret tt else mkdir p) s = (r, s') →
  (Fs.files (world s') = Fs.files (world s) ∧ (r = Ok tt → is_Some (Fs.files (world s) !! p))) ∨
  (r = Ok tt ∧ Fs.files (world s) !! p = None ∧
   Fs.files (world s') = <[p := Fs.Dir]> (Fs.files (world s))).
Proof.
  intros [(Hp & -> & ->)|(Hp & Hr)]%init_guard_inv; [by left|].
  apply engine_fs_inv in Hr as (w' & Hw & ->). simpl.
  apply ScaffoldFacts.mkdir_inv in Hw as [[Hf Hok]|[-> Hf]]; [left|right]; done.
Qed.

(** [if (!existsSync(p)) { await writeFile(p, data); logger.info(line) }] *)
Lemma init_write_inv p data line s r s' :
  (ex ← existsSync p;
   if ex : bool then ret tt else writeFile p data ;; logger Fs.Info line) s = (r, s') →
  (Fs.files (world s') = Fs.files (world s) ∧ (r = Ok tt → is_Some (Fs.files (world s) !! p))) ∨
  (r = Ok tt ∧ Fs.files (world s) !! p = None ∧
   Fs.files (world s') = <[p := Fs.File data]> (Fs.files (world s))).
Proof.
  intros [(Hp & -> & ->)|(Hp & Hr)]%init_guard_inv; [by left|].
  apply bind_inv in Hr as [([] & s1 & Hw & Hr)|(e & Hw & ->)];
    apply engine_fs_inv in Hw as (w' & Hw & ->);
    apply FsFacts.writeFile_inv in Hw as [_ [(Hok & Hf & _)|(e' & He & Hf)]];
    try done.
  - apply engine_logger_inv in Hr as (-> & Hf' & _). right. simpl in *.
    by rewrite Hf', Hf.
  - left. done.
Qed.

Lemma step_placed p node (s s' : EngineState) r :
  (Fs.files (world s') = Fs.files (world s) ∧ (r = Ok tt → is_Some (Fs.files (world s) !! p))) ∨
  (r = Ok tt ∧ Fs.files (world s) !! p = None ∧
   Fs.files (world s') = <[p := node]> (Fs.files (world s))) →
  Fs.files (world s) ⊆ Fs.files (world s') ∧ (r = Ok tt → placed p node s s').
Proof.
  intros [[Hf Hp]|(-> & Hnone & Hf)]; rewrite Hf.
  - split; [done|]. intros [node' Hnode]%Hp. unfold placed.
    by rewrite Hf, Hnode.
  - split; [by apply insert_subseteq|]. intros _. split.
    + by rewrite Hf, lookup_insert_eq, Hnone.
    + intros q Hq. by rewrite Hf, lookup_insert_ne.
Qed.

Lemma placed_logged p node s s1 s' :
  placed p node s s1 → Fs.files (world s') = Fs.files (world s1) → placed p node s s'.
Proof. intros [Hp Hq] Hf. split; [by rewrite Hf|]. intros q ?. rewrite Hf. by apply Hq. Qed.

Section WithPath.
Context `{!NodePath.Path}.

(** How a call of [handleInit] goes: the four guarded steps, each keeping
    what exists, a step that fails ending the call. *)
Lemma handleInit_inv projectRoot s r s' :
  handleInit projectRoot s = (r, s') →
  let claudivDir := Fs.join projectRoot ".claudiv" in
  ∃ s1 s2 s3,
    Fs.files (world s) ⊆ Fs.files (world s1) ∧
    Fs.files (world s1) ⊆ Fs.files (world s2) ∧
    Fs.files (world s2) ⊆ Fs.files (world s3) ∧
    Fs.files (world s3) ⊆ Fs.files (world s') ∧
    (r = Ok tt →
     placed claudivDir Fs.Dir s s1 ∧
     placed (Fs.join claudivDir "context.cdml")
       (Fs.File (defaultContext (NodePath.basename projectRoot))) s1 s2 ∧
     placed (Fs.join claudivDir "config.json") (Fs.File defaultConfig) s2 s3 ∧
     placed (Fs.join projectRoot "claudiv.project.cdml")
       (Fs.File (defaultProjectManifest (NodePath.basename projectRoot))) s3 s').
Proof.
  unfold handleInit. intros Hr. simpl.
  apply bind_inv in Hr as [([] & s0 & H0 & Hr)|(e & H0 & ->)];
    apply engine_logger_inv in H0 as (? & Hf0 & _); [|done].
  apply bind_inv in Hr as [([] & s1 & H1 & Hr)|(e & H1 & ->)];
    apply init_mkdir_inv, (step_placed _ Fs.Dir) in H1 as [Hs1 Hp1];
    rewrite Hf0 in Hs1.
  2:{ exists s', s', s'. by repeat split. }
  specialize (Hp1 eq_refl).
  assert (placed (Fs.join projectRoot ".claudiv") Fs.Dir s s1) as Hp1'.
  { destruct Hp1 as [Ha Hb]. split; [by rewrite Ha, Hf0|].
    intros q Hq. by rewrite Hb, Hf0. }
  clear Hp1.
  apply bind_inv in Hr as [([] & s2 & H2 & Hr)|(e & H2 & ->)];
    eapply init_write_inv, step_placed in H2 as [Hs2 Hp2].
  2:{ exists s1, s', s'. by repeat split. }
  specialize (Hp2 eq_refl).
  apply bind_inv in Hr as [([] & s3 & H3 & Hr)|(e & H3 & ->)];
    eapply init_write_inv, step_placed in H3 as [Hs3 Hp3].
  2:{ exists s1, s2, s'. by repeat split. }
  specialize (Hp3 eq_refl).
  apply bind_inv in Hr as [([] & s4 & H4 & Hr)|(e & H4 & ->)];
    eapply init_write_inv, step_placed in H4 as [Hs4 Hp4].
  2:{ exists s1, s2, s3. by repeat split. }
  specialize (Hp4 eq_refl).
  apply engine_logger_inv in Hr as (-> & Hf5 & _).
  exists s1, s2, s3. rewrite Hf5. split; [done|]. split; [done|]. split; [done|].
  split; [done|]. intros _. split; [done|]. split; [done|]. split; [done|].
  by eapply placed_logged.
Qed.

(** After a call that returned the four paths exist. *)
Lemma handleInit_present projectRoot s s' :
  handleInit projectRoot s = (Ok tt, s') →
  let claudivDir := Fs.join projectRoot ".claudiv" in
  is_Some (Fs.files (world s') !! claudivDir) ∧
  is_Some (Fs.files (world s') !! Fs.join claudivDir "context.cdml") ∧
  is_Some (Fs.files (world s') !! Fs.join claudivDir "config.json") ∧
  is_Some (Fs.files (world s') !! Fs.join projectRoot "claudiv.project.cdml").
Proof.
  intros (s1 & s2 & s3 & Hs1 & Hs2 & Hs3 & Hs4 & Hok)%handleInit_inv. simpl.
  destruct (Hok eq_refl) as ([H1 _] & [H2 _] & [H3 _] & [H4 _]).
  assert (∀ (a b : EngineState) p, Fs.files (world a) ⊆ Fs.files (world b) →
            is_Some (Fs.files (world a) !! p) → is_Some (Fs.files (world b) !! p))
    as Hmono.
  { intros a b p Hsub [node Hn]. exists node. by eapply lookup_weaken. }
  repeat split.
  - eapply Hmono; [exact Hs4|]. eapply Hmono; [exact Hs3|].
    eapply Hmono; [exact Hs2|]. by rewrite H1.
  - eapply Hmono; [exact Hs4|]. eapply Hmono; [exact Hs3|]. by rewrite H2.
  - eapply Hmono; [exact Hs4|]. by rewrite H3.
  - by rewrite H4.
Qed.
End WithPath.
End EngineInitFacts.

Module EngineInit.
Import Engine EngineSpec EngineMoreSpec EngineInitSpec EngineFacts EngineMoreFacts.
Import EngineInitFacts.

Section WithPath.
Context `{!NodePath.Path}.

(** X18: however a call of [handleInit] ends, every path that existed
    before it holds what it held: the directory is made and the three
    files are written only where nothing is. *)
Theorem handleInit_keeps_existing projectRoot s r s' :
  handleInit projectRoot s = (r, s') →
  Fs.files (world s) ⊆ Fs.files (world s').
Proof.
  intros (s1 & s2 & s3 & Hs1 & Hs2 & Hs3 & Hs4 & _)%handleInit_inv.
  etrans; [exact Hs1|]. etrans; [exact Hs2|]. by etrans.
Qed.

(** X19: after a call that returned, [.claudiv] exists, and the context
    manifest, the config file and the project manifest each hold what
    they held before the call or, when they did not exist, the default
    content for the base name of the project root. *)
Theorem handleInit_returns projectRoot s s' :
  handleInit projectRoot s = (Ok tt, s') →
  let claudivDir := Fs.join projectRoot ".claudiv" in
  let name := NodePath.basename projectRoot in
  let after p := Fs.files (world s') !! p in
  let before p := Fs.files (world s) !! p in
  after claudivDir = Some (default Fs.Dir (before claudivDir)) ∧
  after (Fs.join claudivDir "context.cdml") =
    Some (default (Fs.File (defaultContext name))
            (before (Fs.join claudivDir "context.cdml"))) ∧
  after (Fs.join claudivDir "config.json") =
    Some (default (Fs.File defaultConfig) (before (Fs.join claudivDir "config.json"))) ∧
  after (Fs.join projectRoot "claudiv.project.cdml") =
    Some (default (Fs.File (defaultProjectManifest name))
            (before (Fs.join projectRoot "claudiv.project.cdml"))).
Proof.
  intros (s1 & s2 & s3 & _ & _ & _ & _ & Hok)%handleInit_inv. simpl.
  destruct (Hok eq_refl) as ([H1 O1] & [H2 O2] & [H3 O3] & [H4 O4]).
  destruct (init_paths projectRoot) as (E1 & E2 & E3 & E4).
  rewrite E1, E2, E3, E4 in *.
  assert (∀ a b : string, a ≠ b → projectRoot +:+ a ≠ projectRoot +:+ b) as Hne
    by (intros a b; apply append_ne).
  repeat split.
  - rewrite O4, O3, O2, H1 by (by apply Hne). done.
  - rewrite O4, O3, H2, O1 by (by apply Hne). done.
  - rewrite O4, H3, O2, O1 by (by apply Hne). done.
  - rewrite H4, O3, O2, O1 by (by apply Hne). done.
Qed.

(** X20: [handleInit] is idempotent: after a call that returned, a
    second call, with everything the first call left still in place,
    returns without a mutating file system call and without taking an
    entry of the fault schedule; it only logs. *)
Theorem handleInit_second_call projectRoot s s1 s1' :
  handleInit projectRoot s = (Ok tt, s1) →
  Fs.files (world s1) ⊆ Fs.files (world s1') →
  ∃ s2, handleInit projectRoot s1' = (Ok tt, s2) ∧
    Fs.files (world s2) = Fs.files (world s1') ∧
    Fs.trace (world s2) = Fs.trace (world s1') ∧
    Fs.faults (world s2) = Fs.faults (world s1') ∧
    Fs.log (world s2) =
      Fs.log (world s1') ++
      [(Fs.Info, "Initializing Claudiv..."); (Fs.Info, "Initialization complete")].
Proof.
  intros (P1 & P2 & P3 & P4)%handleInit_present Hsub. simpl in *.
  assert (∀ p, is_Some (Fs.files (world s1) !! p) →
            is_Some (Fs.files (world s1') !! p)) as Hmono.
  { intros p [node Hn]. exists node. by eapply lookup_weaken. }
  apply Hmono in P1, P2, P3, P4.
  unfold handleInit.
  erewrite bind_Ok by reflexivity.
  erewrite bind_Ok by (by apply init_guard_skip).
  erewrite bind_Ok by (by apply init_guard_skip).
  erewrite bind_Ok by (by apply init_guard_skip).
  erewrite bind_Ok by (by apply init_guard_skip).
  eexists. split; [reflexivity|]. simpl. by rewrite <- app_assoc.
Qed.
End WithPath.
End EngineInit.

Module EngineInitExamples.
Import Engine EngineSpec EngineMoreSpec EngineInitSpec MoreEngineScenarios.
#[local] Existing Instance demoPath.

(** The context manifest edited by hand is kept. *)
Lemma handleInit_keeps_existing_witness :
  ∃ r s', handleInit "proj" halfInitialised = (r, s') ∧
    Fs.files (world s') !! "proj/.claudiv/context.cdml"
      = Some (Fs.File "<claudiv-context>mine</claudiv-context>").
Proof.
  set (out := handleInit "proj" halfInitialised).
  exists out.1, out.2. split; [apply surjective_pairing|].
  eapply lookup_weaken;
    [|apply (EngineInit.handleInit_keeps_existing "proj" halfInitialised out.1 out.2),
        surjective_pairing].
  reflexivity.
Defined.

Lemma handleInit_returns_witness :
  ∃ s', handleInit "proj" halfInitialised = (Ok tt, s') ∧
    Fs.files (world s') !! "proj/.claudiv" = Some Fs.Dir ∧
    Fs.files (world s') !! "proj/.claudiv/context.cdml"
      = Some (Fs.File "<claudiv-context>mine</claudiv-context>") ∧
    Fs.files (world s') !! "proj/.claudiv/config.json" = Some (Fs.File defaultConfig) ∧
    Fs.files (world s') !! "proj/claudiv.project.cdml"
      = Some (Fs.File (defaultProjectManifest "proj")).
Proof.
  set (s' := (handleInit "proj" halfInitialised).2).
  assert (handleInit "proj" halfInitialised = (Ok tt, s')) as Hrun
    by (vm_compute; reflexivity).
  exists s'. split; [exact Hrun|].
  exact (EngineInit.handleInit_returns "proj" halfInitialised s' Hrun).
Defined.

Lemma handleInit_second_call_witness :
  ∃ s1 s2, handleInit "proj" bare = (Ok tt, s1) ∧
    handleInit "proj" s1 = (Ok tt, s2) ∧
    Fs.files (world s2) = Fs.files (world s1) ∧
    Fs.trace (world s2) = Fs.trace (world s1) ∧
    length (Fs.trace (world s1)) = 4.
Proof.
  set (s1 := (handleInit "proj" bare).2).
  assert (handleInit "proj" bare = (Ok tt, s1)) as Hrun by (vm_compute; reflexivity).
  destruct (EngineInit.handleInit_second_call "proj" bare s1 s1 Hrun)
    as (s2 & Hrun2 & Hfiles & Htrace & _); [done|].
  exists s1, s2. split; [exact Hrun|]. split; [exact Hrun2|].
  split; [exact Hfiles|]. split; [exact Htrace|]. vm_compute. reflexivity.
Defined.
End EngineInitExamples.

(** * [parseSystemCdml] and [checkSystemComponents] *)
Module SystemCheckFacts.
Import SystemManager Engine EngineSpec EngineMoreSpec EngineFacts EngineMoreFacts.
Import EngineInitFacts.

Lemma truthy_cases o :
  SystemManager.truthy o = None ∨
  ∃ c rest, SystemManager.truthy o = Some (String c rest).
Proof. destruct o as [[|c rest]|]; simpl; eauto. Qed.


End SystemCheckFacts.

Module SystemCheck.
Import SystemManager Engine EngineSpec EngineMoreSpec EngineFacts EngineMoreFacts.
Import EngineInitFacts SystemCheckFacts.

Section WithMarkup.
Context `{!Markup}.

(** X22: a project that [parseSystemCdml] returns has a name that is not
    empty ([unnamed-system] when the element has none), an empty
    manifest path, and components whose type is never empty ([service]
    when the attribute is missing or empty) and whose description is
    never the empty string. *)
Theorem parseSystemCdml_well_formed content system :
  parseSystemCdml content = Ok system →
  Project.name system ≠ EmptyString ∧
  Project.manifestPath system = EmptyString ∧
  Forall (λ c, Component.type c ≠ EmptyString ∧
               Component.description c ≠ Some EmptyString)
    (Project.components system).
Proof.
  unfold parseSystemCdml. destruct (select content "system") as [sel|e]; [|done].
  destruct (Nat.eqb (sel_length sel) 0); [done|]. intros [= <-]. simpl.
  split; [|split; [done|]].
  - destruct (truthy_cases (sel_attr sel "name")) as [->|(c & rest & ->)]; done.
  - apply Forall_forall. intros c (child & Hchild & Hc)%list_elem_of_omap.
    unfold componentOf in Hc. destruct (String.eqb (nodeType child) "tag"); [|done].
    destruct (truthy_cases (attrib child "type")) as [Ht|(c1 & rest1 & Ht)],
      (truthy_cases (Some (trim (textContent child)))) as [Hd|(c2 & rest2 & Hd)];
      rewrite Ht, Hd in Hc; injection Hc as <-; done.
Qed.

End WithMarkup.
End SystemCheck.

Module SystemCheckExamples.
Import SystemManager Engine MoreEngineScenarios.
#[local] Existing Instance demoMarkup.

(** The [type] of [api] is empty and becomes [service]; the text between
    the elements is no component. *)
Lemma parseSystemCdml_well_formed_witness :
  ∃ system, parseSystemCdml shopDocument = Ok system ∧
    Component.name <$> Project.components system = ["web"; "api"] ∧
    Component.type <$> Project.components system = ["webapp"; "service"] ∧
    Forall (λ c, Component.type c ≠ EmptyString ∧
                 Component.description c ≠ Some EmptyString)
      (Project.components system).
Proof.
  eexists. split; [vm_compute; reflexivity|]. split; [reflexivity|].
  split; [reflexivity|].
  eapply (SystemCheck.parseSystemCdml_well_formed shopDocument). reflexivity.
Defined.
End SystemCheckExamples.

(** * The configuration loader *)
Module ConfigFacts.
Import NodePath Config.

Lemma isSpecFileName_spec f :
  isSpecFileName f = true ↔ ConfigSpec.specFileName f.
Proof.
  unfold isSpecFileName, ConfigSpec.specFileName.
  rewrite andb_true_iff, negb_true_iff, StringFacts.endsWith_spec, String.eqb_neq.
  done.
Qed.

Lemma config_logger_inv lvl line w r w' :
  Fs.logger lvl line w = (r, w') →
  r = Ok tt ∧ Fs.files w' = Fs.files w ∧ Fs.trace w' = Fs.trace w ∧
  Fs.log w' = Fs.log w ++ [(lvl, line)].
Proof. unfold Fs.logger, modify. intros; by simplify_eq. Qed.

Section WithProcess.
Context `{!Path}.
Variable JSON_parse : string → result JsonDocument.
Variable proc : Process.

#[local] Abbreviation determineSpecFile := (determineSpecFile proc).
#[local] Abbreviation loadProjectConfig := (loadProjectConfig JSON_parse).
#[local] Abbreviation determineMode := (determineMode proc).
#[local] Abbreviation loadConfig := (loadConfig JSON_parse proc).

(** How the spec file is determined. *)
Lemma determineSpecFile_inv w r w' :
  determineSpecFile w = (r, w') →
  Fs.files w' = Fs.files w ∧ Fs.trace w' = Fs.trace w ∧ Fs.faults w' = Fs.faults w ∧
  match r with
  | Ok (Return specFile) =>
      Fs.log w' = Fs.log w ∧
      match argv2 proc with
      | Some (String c rest) =>
          let cliFile := String c rest in
          specFile = (if isAbsolute cliFile then cliFile else join (cwd proc) cliFile) ∧
          is_Some (Fs.files w !! specFile)
      | _ =>
          ∃ files before first after,
            readdirSync proc = Ok files ∧ files = before ++ first :: after ∧
            Forall (λ f, isSpecFileName f = false) before ∧
            isSpecFileName first = true ∧
            specFile = join (cwd proc) first
      end
  | Ok (ProcessExit code) =>
      code = 1 ∧ ∃ line, Fs.log w' = Fs.log w ++ [(Fs.Error, line)]
  | Err e => readdirSync proc = Err e ∧ Fs.log w' = Fs.log w
  end.
Proof.
  assert (∀ files, filter (λ f, isSpecFileName f = true) files = [] ∨
            ∃ before first after rest,
              filter (λ f, isSpecFileName f = true) files = first :: rest ∧
              files = before ++ first :: after ∧
              Forall (λ f, isSpecFileName f = false) before ∧
              isSpecFileName first = true) as Hfilter.
  { induction files as [|f files IH]; [by left|].
    rewrite filter_cons. destruct (decide (isSpecFileName f = true)) as [Hf|Hf].
    - right. exists [], f, files, (filter (λ f, isSpecFileName f = true) files).
      by repeat split.
    - destruct IH as [->|(before & first & after & rest & -> & -> & Hb & Hfirst)];
        [by left|].
      right. exists (f :: before), first, after, rest. repeat split; [|done].
      apply Forall_cons. split; [by destruct (isSpecFileName f)|done]. }
  unfold Config.determineSpecFile.
  assert (∀ w r w',
            (files ← call (readdirSync proc);
             match filter (λ f, isSpecFileName f = true) files with
             | [] => Fs.logger Fs.Error "No .cdml files found" ;; ret (ProcessExit 1)
             | first :: _ => ret (Return (join (cwd proc) first))
             end) w = (r, w') →
            Fs.files w' = Fs.files w ∧ Fs.trace w' = Fs.trace w ∧
            Fs.faults w' = Fs.faults w ∧
            match r with
            | Ok (Return specFile) =>
                Fs.log w' = Fs.log w ∧
                ∃ files before first after,
                  readdirSync proc = Ok files ∧ files = before ++ first :: after ∧
                  Forall (λ f, isSpecFileName f = false) before ∧
                  isSpecFileName first = true ∧
                  specFile = join (cwd proc) first
            | Ok (ProcessExit code) =>
                code = 1 ∧ ∃ line, Fs.log w' = Fs.log w ++ [(Fs.Error, line)]
            | Err e => readdirSync proc = Err e ∧ Fs.log w' = Fs.log w
            end) as Hdiscover.
  { intros w0 r0 w0'. unfold call. unfold_m.
    destruct (readdirSync proc) as [files|e]; [|by intros; simplify_eq].
    destruct (Hfilter files) as [->|(before & first & after & rest & -> & -> & Hb & Hf)].
    - unfold Fs.logger, modify. intros; simplify_eq. simpl. by eauto 10.
    - intros; simplify_eq. repeat split. by eauto 10. }
  destruct (argv2 proc) as [[|c rest]|]; [by apply Hdiscover| |by apply Hdiscover].
  unfold Fs.existsSync, Fs.logger. unfold_m.
  case_bool_decide; intros; simplify_eq; simpl; by eauto 10.
Qed.

(** The project configuration is read without a mutating call, and a
    file that cannot be read or parsed counts as an empty object. *)
Lemma loadProjectConfig_inv specFile w r w' :
  loadProjectConfig specFile w = (r, w') →
  Fs.files w' = Fs.files w ∧ Fs.trace w' = Fs.trace w ∧ Fs.log w' = Fs.log w ∧
  ∃ projectConfig, r = Ok projectConfig ∧
    (Fs.files w !! join (join (dirname specFile) ".claudiv") "config.json" = None →
     projectConfig = JsonObject ∅).
Proof.
  unfold Config.loadProjectConfig, Fs.existsSync, Fs.readFile, Fs.fault, call.
  unfold_m. simpl. intros Hr. case_bool_decide as Hex.
  2:{ simplify_eq. by eauto 10. }
  destruct (head (Fs.faults w)) as [[e|]|]; simpl in Hr;
    destruct (Fs.files w !! _) as [[text|]|] eqn:Hfile; simpl in Hr;
    try destruct (JSON_parse text) as [doc|e'];
    simplify_eq; simpl; (split; [done|]); (split; [done|]); (split; [done|]);
    eexists; (split; [done|]); intros; by simplify_eq.
Qed.

Lemma determineMode_inv projectConfig w r w' :
  determineMode projectConfig w = (r, w') →
  w' = w ∧
  match r with
  | Ok mode =>
      truthy mode = true ∧
      (if truthy (getenv proc "CLAUDIV_MODE") then mode = getenv proc "CLAUDIV_MODE"
       else ∃ configured, property projectConfig "mode" = Ok configured ∧
              if truthy configured then mode = configured
              else if truthy (getenv proc "MODE") then mode = getenv proc "MODE"
              else mode = JsString "cli")
  | Err e => truthy (getenv proc "CLAUDIV_MODE") = false ∧
             property projectConfig "mode" = Err e
  end.
Proof.
  unfold Config.determineMode, call. unfold_m.
  destruct (truthy (getenv proc "CLAUDIV_MODE")) eqn:Hcli; [by intros; simplify_eq|].
  destruct (property projectConfig "mode") as [configured|e]; [|by intros; simplify_eq].
  destruct (truthy configured) eqn:Hconf.
  { intros; simplify_eq. split; [done|]. split; [done|]. exists configured.
    by rewrite Hconf. }
  destruct (truthy (getenv proc "MODE")) eqn:Henv; intros; simplify_eq;
    (split; [done|]); (split; [done|]); exists configured; by rewrite Hconf, ?Henv.
Qed.

(** The steps of a call that returns a configuration. *)
Lemma loadConfig_Return_inv w cfg w' :
  loadConfig w = (Ok (Return cfg), w') →
  ∃ w1 projectConfig configuredKey,
    determineSpecFile w = (Ok (Return (specFile cfg)), w1) ∧
    loadProjectConfig (specFile cfg) w1 = (Ok projectConfig, w') ∧
    determineMode projectConfig w' = (Ok (mode cfg), w') ∧
    property projectConfig "apiKey" = Ok configuredKey ∧
    apiKey cfg = (if truthy configuredKey then configuredKey
                  else getenv proc "ANTHROPIC_API_KEY") ∧
    strictEquals (mode cfg) "api" && negb (truthy (apiKey cfg)) = false.
Proof.
  unfold Config.loadConfig. intros Hr.
  apply bind_inv in Hr as [([specFile|code] & w1 & Hspec & Hr)|(e & _ & ?)];
    [|by unfold ret in Hr; simplify_eq|done].
  apply bind_inv in Hr as [(projectConfig & w2 & Hcfg & Hr)|(e & _ & ?)]; [|done].
  apply bind_inv in Hr as [(mode & w3 & Hmode & Hr)|(e & _ & ?)]; [|done].
  pose proof (determineMode_inv _ _ _ _ Hmode) as [-> _].
  apply bind_inv in Hr as [(configuredKey & w4 & Hkey & Hr)|(e & _ & ?)]; [|done].
  unfold call in Hkey. simplify_eq.
  destruct (strictEquals mode "api" && negb (truthy _)) eqn:Hcheck.
  { unfold Fs.logger in Hr. unfold_m. by simplify_eq. }
  unfold ret in Hr. simplify_eq. simpl. by eauto 10.
Qed.
End WithProcess.
End ConfigFacts.

Module ConfigLoad.
Import NodePath Config ConfigFacts.

Section WithProcess.
Context `{!Path}.
Variable JSON_parse : string → result JsonDocument.
Variable proc : Process.

#[local] Abbreviation loadConfig := (loadConfig JSON_parse proc).

(** X23: a configuration that [loadConfig] returns with the mode [api]
    has an API key that is truthy: from the project configuration, or
    else from [ANTHROPIC_API_KEY]. *)
Theorem loadConfig_api_mode_has_key w cfg w' :
  loadConfig w = (Ok (Return cfg), w') →
  strictEquals (mode cfg) "api" = true →
  truthy (apiKey cfg) = true.
Proof.
  intros (w1 & projectConfig & configuredKey & _ & _ & _ & _ & _ & Hcheck)
    %loadConfig_Return_inv Hapi.
  rewrite Hapi in Hcheck. simpl in Hcheck. by apply negb_false_iff.
Qed.

(** X24: the mode of a configuration that [loadConfig] returns is never
    falsy; it is [CLAUDIV_MODE] whenever that variable is set and not
    empty, whatever the project configuration and [MODE] say; and it is
    [cli] when neither variable is set and the project has no
    configuration file. *)
Theorem loadConfig_mode w cfg w' :
  loadConfig w = (Ok (Return cfg), w') →
  truthy (mode cfg) = true ∧
  (∀ c rest, env proc !! "CLAUDIV_MODE" = Some (String c rest) →
     mode cfg = JsString (String c rest)) ∧
  (env proc !! "CLAUDIV_MODE" = None → env proc !! "MODE" = None →
   Fs.files w !! join (join (dirname (specFile cfg)) ".claudiv") "config.json" = None →
   mode cfg = JsString "cli").
Proof.
  intros (w1 & projectConfig & configuredKey & Hspec & Hcfg & Hmode & _)
    %loadConfig_Return_inv.
  apply determineSpecFile_inv in Hspec as (Hf1 & _).
  apply loadProjectConfig_inv in Hcfg as (_ & _ & _ & doc & [= <-] & Hnone).
  apply determineMode_inv in Hmode as (_ & Htruthy & Hcases).
  split; [done|]. split.
  - intros c rest Hcli. unfold getenv in Hcases. by rewrite Hcli in Hcases.
  - intros Hcli Henv Hfile. unfold getenv in Hcases. rewrite Hcli, Henv in Hcases.
    simpl in Hcases. destruct Hcases as (configured & Hprop & Hcases).
    rewrite Hnone in Hprop by (by rewrite Hf1). simpl in Hprop.
    rewrite lookup_empty in Hprop. simpl in Hprop. by simplify_eq.
Qed.

(** X25: the spec file of a configuration that [loadConfig] returns:
    with a file argument it is the argument, joined to the working
    directory unless absolute, and it exists; with none it is the first
    entry of the working directory that ends in [.cdml] and is not
    [claudiv.project.cdml], joined to the working directory. *)
Theorem loadConfig_spec_file w cfg w' :
  loadConfig w = (Ok (Return cfg), w') →
  match argv2 proc with
  | Some (String c rest) =>
      let cliFile := String c rest in
      specFile cfg = (if isAbsolute cliFile then cliFile else join (cwd proc) cliFile) ∧
      is_Some (Fs.files w !! specFile cfg)
  | _ =>
      ∃ files before first after,
        readdirSync proc = Ok files ∧ files = before ++ first :: after ∧
        Forall (λ f, ¬ ConfigSpec.specFileName f) before ∧
        ConfigSpec.specFileName first ∧
        specFile cfg = join (cwd proc) first
  end.
Proof.
  intros (w1 & projectConfig & configuredKey & Hspec & _)%loadConfig_Return_inv.
  apply determineSpecFile_inv in Hspec as (_ & _ & _ & _ & Hcases).
  assert (∀ before, Forall (λ f, isSpecFileName f = false) before →
            Forall (λ f, ¬ ConfigSpec.specFileName f) before) as Hbefore.
  { intros before Hb. eapply Forall_impl; [exact Hb|].
    intros f Hf Hname%isSpecFileName_spec. congruence. }
  destruct (argv2 proc) as [[|c rest]|]; [|done|].
  all: destruct Hcases as (files & before & first & after & ? & ? & Hb & Hf & ?).
  all: apply isSpecFileName_spec in Hf; apply Hbefore in Hb; by eauto 10.
Qed.

(** X26: however [loadConfig] ends, it has changed no file and made no
    mutating file system call; when it ends the process, the exit code
    is 1 and an error was logged before. *)
Theorem loadConfig_reads_only w r w' :
  loadConfig w = (r, w') →
  Fs.files w' = Fs.files w ∧ Fs.trace w' = Fs.trace w ∧
  (∀ code, r = Ok (ProcessExit code) →
     code = 1 ∧ ∃ line rest, Fs.log w' = Fs.log w ++ (Fs.Error, line) :: rest).
Proof.
  unfold Config.loadConfig. intros Hr.
  apply bind_inv in Hr as [(spec & w1 & Hspec & Hr)|(e & Hspec & ->)];
    apply determineSpecFile_inv in Hspec as (Hf1 & Ht1 & _ & Hcases).
  2:{ by repeat split. }
  destruct spec as [specFile|code].
  2:{ unfold ret in Hr. simplify_eq. destruct Hcases as (-> & line & Hlog).
      split; [done|]. split; [done|]. intros code [= <-]. split; [done|].
      by exists line, []. }
  destruct Hcases as [Hl1 _].
  apply bind_inv in Hr as [(projectConfig & w2 & Hcfg & Hr)|(e & Hcfg & ->)];
    apply loadProjectConfig_inv in Hcfg as (Hf2 & Ht2 & Hl2 & _).
  2:{ split; [congruence|]. split; [congruence|done]. }
  apply bind_inv in Hr as [(mode & w3 & Hmode & Hr)|(e & Hmode & ->)];
    apply determineMode_inv in Hmode as [-> _].
  2:{ split; [congruence|]. split; [congruence|done]. }
  apply bind_inv in Hr as [(configuredKey & w4 & Hkey & Hr)|(e & Hkey & ->)];
    unfold call in Hkey; simplify_eq.
  2:{ split; [congruence|]. split; [congruence|done]. }
  destruct (strictEquals mode "api" && negb (truthy _)).
  - unfold Fs.logger in Hr. unfold_m. simplify_eq. simpl.
    split; [congruence|]. split; [congruence|]. intros code [= <-]. split; [done|].
    eexists _, [_]. rewrite <- app_assoc. simpl. by rewrite Hl2, Hl1.
  - unfold ret in Hr. simplify_eq. split; [congruence|]. split; [congruence|done].
Qed.

(** X27: a configuration file that parses to [null] is not ignored as
    one that does not parse is: reading a property of it throws, and
    [loadConfig] raises the [TypeError]. *)
Theorem loadConfig_null_configuration_throws w w1 specFile text :
  Config.determineSpecFile proc w = (Ok (Return specFile), w1) →
  Fs.files w !! join (join (dirname specFile) ".claudiv") "config.json"
    = Some (Fs.File text) →
  (∀ e, head (Fs.faults w) ≠ Some (Some e)) →
  JSON_parse text = Ok JsonNull →
  ∃ w', loadConfig w = (Err "TypeError: Cannot read properties of null", w').
Proof.
  intros Hspec Hfile Hhead Hparse.
  pose proof (determineSpecFile_inv _ _ _ _ Hspec) as (Hf1 & _ & Hfl1 & _).
  unfold Config.loadConfig. erewrite bind_Ok by exact Hspec.
  assert (Config.loadProjectConfig JSON_parse specFile w1 =
            (Ok JsonNull, Fs.with_faults (tail (Fs.faults w1)) w1)) as Hcfg.
  { unfold Config.loadProjectConfig.
    erewrite bind_Ok.
    2:{ unfold Fs.existsSync, gets. rewrite Hf1, Hfile. reflexivity. }
    rewrite bool_decide_eq_true_2 by eauto. unfold try_catch.
    erewrite bind_Ok.
    2:{ apply (FsFacts.readFile_run _ text); [by rewrite Hfl1|by rewrite Hf1]. }
    unfold call. by rewrite Hparse. }
  cbv iota beta. erewrite bind_Ok by exact Hcfg.
  unfold Config.determineMode, call, property. unfold_m.
  destruct (truthy (getenv proc "CLAUDIV_MODE")); by eexists.
Qed.
End WithProcess.
End ConfigLoad.

Module ConfigExamples.
Import NodePath Config ConfigScenarios MoreEngineScenarios.
#[local] Existing Instance demoPath.

(** The project is configured for the API and the key is in the
    environment. *)
Lemma loadConfig_api_mode_has_key_witness :
  ∃ cfg w',
    loadConfig demoJson (discovering {["ANTHROPIC_API_KEY" := "sk-1"]})
      (project "{mode:api}") = (Ok (Return cfg), w') ∧
    mode cfg = JsString "api" ∧ apiKey cfg = JsString "sk-1" ∧
    truthy (apiKey cfg) = true.
Proof.
  eexists _, _. split; [vm_compute; reflexivity|]. split; [reflexivity|].
  split; [reflexivity|].
  eapply (ConfigLoad.loadConfig_api_mode_has_key demoJson
            (discovering {["ANTHROPIC_API_KEY" := "sk-1"]}) (project "{mode:api}")).
  - vm_compute. reflexivity.
  - reflexivity.
Defined.

(** The project is configured for the API and the command line asks for
    [cli]. *)
Lemma loadConfig_mode_witness :
  ∃ cfg w',
    loadConfig demoJson (discovering {["CLAUDIV_MODE" := "cli"; "MODE" := "api"]})
      (project "{mode:api}") = (Ok (Return cfg), w') ∧
    mode cfg = JsString "cli".
Proof.
  set (out := loadConfig demoJson
                (discovering {["CLAUDIV_MODE" := "cli"; "MODE" := "api"]})
                (project "{mode:api}")).
  assert (∃ cfg, out = (Ok (Return cfg), out.2)) as [cfg Hrun]
    by (eexists; vm_compute; reflexivity).
  exists cfg, out.2. split; [exact Hrun|].
  destruct (ConfigLoad.loadConfig_mode demoJson _ _ _ _ Hrun) as (_ & Hcli & _).
  by apply Hcli.
Defined.

(** The project manifest comes first in the directory and is passed
    over. *)
Lemma loadConfig_spec_file_witness :
  ∃ cfg w' first,
    loadConfig demoJson (discovering ∅) (project "{}") = (Ok (Return cfg), w') ∧
    specFile cfg = "/proj/app.cdml" ∧
    specFile cfg = Fs.join "/proj" first ∧ first ≠ "claudiv.project.cdml".
Proof.
  set (cfg := mkConfig (JsString "cli") JsUndefined "/proj/app.cdml" 300%N 120000%N).
  set (w' := (loadConfig demoJson (discovering ∅) (project "{}")).2).
  assert (loadConfig demoJson (discovering ∅) (project "{}") = (Ok (Return cfg), w'))
    as Hrun by (vm_compute; reflexivity).
  destruct (ConfigLoad.loadConfig_spec_file demoJson _ _ _ _ Hrun)
    as (files & before & first & after & _ & _ & _ & [_ Hn] & Hs).
  exists cfg, w', first. split; [exact Hrun|]. split; [reflexivity|].
  split; [exact Hs|exact Hn].
Defined.

(** The project is configured for the API and there is no key: the
    process exits, and nothing was written. *)
Lemma loadConfig_reads_only_witness :
  ∃ w', loadConfig demoJson (discovering ∅) (project "{mode:api}")
          = (Ok (ProcessExit 1), w') ∧
    Fs.files w' = Fs.files (project "{mode:api}") ∧ Fs.trace w' = [].
Proof.
  set (w' := (loadConfig demoJson (discovering ∅) (project "{mode:api}")).2).
  assert (loadConfig demoJson (discovering ∅) (project "{mode:api}")
          = (Ok (ProcessExit 1), w')) as Hrun by (vm_compute; reflexivity).
  exists w'. split; [exact Hrun|].
  destruct (ConfigLoad.loadConfig_reads_only demoJson _ _ _ _ Hrun) as (Hf & Ht & _).
  split; [exact Hf|exact Ht].
Defined.

Lemma loadConfig_null_configuration_throws_witness :
  ∃ w', loadConfig demoJson (discovering ∅) (project "null")
          = (Err "TypeError: Cannot read properties of null", w').
Proof.
  apply (ConfigLoad.loadConfig_null_configuration_throws demoJson (discovering ∅)
           (project "null") (project "null") "/proj/app.cdml" "null").
  - vm_compute. reflexivity.
  - reflexivity.
  - by intros e.
  - reflexivity.
Defined.
End ConfigExamples.
